(** * MoltAgent control plane, fleet manager, approvals, bridge and
      bootstrap-script generator: a shallow embedding and its properties.

    The TypeScript classes of [extensions/moltagent/src] are embedded as
    pure state transformers: every method takes the object's state (and,
    where the source reads the clock, the value read) and returns the new
    state together with the method's result.  Maps keyed by agent id are
    [gmap string _]; the approval queue, whose iteration order the expiry
    scan exposes, is an insertion-ordered association list; sockets and
    approval objects, which the source compares and mutates by reference,
    live in explicit stores indexed by an address. *)

From Stdlib Require Import ZArith Lia List Ascii.
From Corelib Require Import PrimFloat.
From stdpp Require Import gmap strings list fin_maps.

Local Open Scope Z_scope.

(* ===================================================================== *)
(** ** JavaScript runtime values and the String methods the source calls *)
(* ===================================================================== *)

Module Js.



(** [s.slice(n)] for [0 <= n]. *)
Fixpoint skip (n : nat) (s : string) : string :=
  match n, s with
  | O, _ => s
  | S _, EmptyString => EmptyString
  | S k, String _ r => skip k r
  end.

(** [s.startsWith(p)]. *)
Definition startsWith (s p : string) : bool := String.prefix p s.

(** [s.replace(pat, rep)] with a string pattern: only the first
    occurrence of [pat] is replaced. *)
Fixpoint replace (pat rep s : string) : string :=
  if String.prefix pat s then rep +:+ skip (String.length pat) s
  else match s with
       | EmptyString => EmptyString
       | String c r => String c (replace pat rep r)
       end.

(** [s.replace(/^pat/, rep)]: the pattern is anchored at the start. *)
Definition replace_prefix (pat rep s : string) : string :=
  if String.prefix pat s then rep +:+ skip (String.length pat) s else s.


(** [xs.join(sep)]. *)
Fixpoint join (sep : string) (xs : list string) : string :=
  match xs with
  | [] => EmptyString
  | [x] => x
  | x :: rest => x +:+ sep +:+ join sep rest
  end.

(** The part of [s] before the first [c], and the part after it when [c]
    occurs: [s.split(c, 2)] keeps the first of these and what lies between
    the first and the second [c]. *)
Fixpoint cut (c : Ascii.ascii) (s : string) : string * option string :=
  match s with
  | EmptyString => (EmptyString, None)
  | String d r =>
      if Ascii.eqb c d then (EmptyString, Some r)
      else let '(a, b) := cut c r in (String d a, b)
  end.

(** [xs.slice(start, end)] for integer arguments: a negative index
    counts from the end, and both are clamped to the array. *)
Definition slice {A} (start end_ : Z) (xs : list A) : list A :=
  let len := Z.of_nat (length xs) in
  let k := if start <? 0 then Z.max (len + start) 0 else Z.min start len in
  let final := if end_ <? 0 then Z.max (len + end_) 0 else Z.min end_ len in
  take (Z.to_nat (final - k)) (drop (Z.to_nat k) xs).

(** [s.split(c)] for a one-character separator. *)
Fixpoint split (c : Ascii.ascii) (s : string) : list string :=
  match s with
  | EmptyString => [EmptyString]
  | String d r =>
      if Ascii.eqb c d then EmptyString :: split c r
      else match split c r with
           | x :: rest => String d x :: rest
           | [] => [String d EmptyString]
           end
  end.

(** The two names [const [a, b] = s.split(c, 2)] binds: [b] is
    [undefined] when [c] does not occur in [s]. *)
Definition split2 (c : Ascii.ascii) (s : string) : string * option string :=
  match split c s with
  | a :: b :: _ => (a, Some b)
  | a :: _ => (a, None)
  | [] => (s, None)
  end.

(** [n++] on a double holding the integer [n].  From [-2^53] to [2^53]
    every integer is a double and the sum is exact below [2^53].  From
    there to [2^54] in absolute value the doubles are the even integers:
    [n + 1] lies halfway between two of them and is rounded to the one
    whose significand is even.  Further out the doubles are at least 4
    apart and [n + 1] rounds back to [n]. *)
Definition increment (n : Z) : Z :=
  if (- 2 ^ 53 <=? n) && (n <? 2 ^ 53) then n + 1
  else if Z.abs n <? 2 ^ 54 then (if Z.even (n / 2) then n else n + 2)
  else n.

(** The value of a hexadecimal digit. *)
Definition hex_digit (c : Ascii.ascii) : option N :=
  let n := Ascii.N_of_ascii c in
  if ((48 <=? n) && (n <=? 57))%N then Some (n - 48)%N
  else if ((65 <=? n) && (n <=? 70))%N then Some (n - 55)%N
  else if ((97 <=? n) && (n <=? 102))%N then Some (n - 87)%N
  else None.

(** The number of leading one bits of an octet. *)
Definition leading_ones (octet : N) : nat :=
  if (octet <? 128)%N then 0%nat
  else if (octet <? 192)%N then 1%nat
  else if (octet <? 224)%N then 2%nat
  else if (octet <? 240)%N then 3%nat
  else if (octet <? 248)%N then 4%nat
  else 5%nat.

(** The code point a UTF-8 sequence of two to four octets encodes, given
    as its first octet and the others; [None] when the sequence is not
    the UTF-8 encoding of a code point (a following octet that is not a
    continuation, an overlong form, a surrogate, a value above
    [0x10FFFF]). *)
Definition code_point (first : N) (others : list N) : option N :=
  if forallb (fun o => (128 <=? o) && (o <? 192))%N others then
    let n := S (length others) in
    let v := fold_left (fun v o => v * 64 + (o - 128))%N others
               (first mod 2 ^ (7 - N.of_nat n))%N in
    let least := match n with 2%nat => 128%N | 3%nat => 2048%N | _ => 65536%N end in
    if ((least <=? v) && (v <=? 1114111) && negb ((55296 <=? v) && (v <=? 57343)))%N
    then Some v else None
  else None.

(** The UTF-16 code units of a code point. *)
Definition utf16 (v : N) : list N :=
  if (v <? 65536)%N then [v]
  else [55296 + (v - 65536) / 1024; 56320 + (v - 65536) mod 1024]%N.

(** The loop of ECMAScript's Decode with an empty reserved set, on the
    rest [s] of the text: [pending] holds the first octet of a
    multi-octet sequence, the number of escapes still to come and the
    octets read since. *)
Fixpoint decode (pending : option (N * nat * list N)) (s : string) : option (list N) :=
  match s with
  | EmptyString => match pending with None => Some [] | Some _ => None end
  | String c r =>
      if Ascii.eqb c "%"%char then
        match r with
        | String x (String y r') =>
            match hex_digit x, hex_digit y with
            | Some a, Some b =>
                let octet := (16 * a + b)%N in
                match pending with
                | None =>
                    match leading_ones octet with
                    | O => cons octet <$> decode None r'
                    | 2%nat => decode (Some (octet, 1%nat, [])) r'
                    | 3%nat => decode (Some (octet, 2%nat, [])) r'
                    | 4%nat => decode (Some (octet, 3%nat, [])) r'
                    | _ => None
                    end
                | Some (first, 1%nat, others) =>
                    match code_point first (others ++ [octet]) with
                    | Some v => app (utf16 v) <$> decode None r'
                    | None => None
                    end
                | Some (first, S k, others) => decode (Some (first, k, others ++ [octet])) r'
                | Some (_, O, _) => None
                end
            | _, _ => None
            end
        | _ => None
        end
      else
        match pending with
        | None => cons (Ascii.N_of_ascii c) <$> decode None r
        | Some _ => None
        end
  end.

(** [decodeURIComponent(s)]: the UTF-16 code units of the result, or
    [None] when the call throws [URIError] (a [%] that does not start an
    escape of two hexadecimal digits, or escapes that are not the UTF-8
    encoding of a code point). *)
Definition decodeURIComponent (s : string) : option (list N) := decode None s.

(** An untyped value ([unknown] in the source).  An object carries what
    [Number(o)] evaluates to; symbols and bigints cannot come out of
    [JSON.parse] and are left out. *)
Inductive Value :=
| Undefined
| Null
| Bool (b : bool)
| Num (f : float)
| Str (s : string)
| Obj (toNumber : float).

(** ToBoolean on a number: [0], [-0] and [NaN] are falsy. *)
Definition truthy_num (f : float) : bool :=
  negb (PrimFloat.is_zero f || PrimFloat.is_nan f).

(** ToBoolean on a string: only the empty string is falsy. *)
Definition truthy_str (s : string) : bool :=
  match s with EmptyString => false | String _ _ => true end.

(** ToBoolean. *)
Definition truthy (v : Value) : bool :=
  match v with
  | Undefined | Null => false
  | Bool b => b
  | Num f => truthy_num f
  | Str s => truthy_str s
  | Obj _ => true
  end.


Section ToNumber.

(** ECMAScript's StringToNumber, the one part of [Number(v)] that reads
    text. *)
Variable StringToNumber : string -> float.

(** [Number(v)]. *)
Definition Number (v : Value) : float :=
  match v with
  | Undefined => nan
  | Null => 0%float
  | Bool true => 1%float
  | Bool false => 0%float
  | Num f => f
  | Str s => StringToNumber s
  | Obj n => n
  end.

End ToNumber.

(** [x || 0] on numbers. *)
Definition or_zero (f : float) : float :=
  if truthy_num f then f else 0%float.

End Js.

(* ===================================================================== *)
(** ** schema.ts: the manifest, as far as the modelled code reads it *)
(* ===================================================================== *)

Module Schema.

Record Repo := {
  repo_url : string;
  repo_branch : string;
  repo_path : string;
  repo_setupCommand : option string
}.

Record AgentIdentity := {
  identity_id : string;
  identity_name : string;
  identity_ownerId : string
}.

Record Capabilities := {
  webBrowsing : bool;
  repos : list Repo;
  systemPackages : list string;
  npmGlobals : list string;
  pipPackages : list string
}.

Record Resources := {
  serverType : string;
  region : string;
  provider : string
}.

Record ControlPlane := {
  url : string;
  token : string;
  heartbeatIntervalSec : Z
}.

(** [other] stands for the sections no modelled function inspects
    (agentConfig, channels, financialControls, retention, goals,
    knowledge, metadata), as their JSON text. *)
Record MoltAgentManifest := {
  identity : AgentIdentity;
  capabilities : Capabilities;
  resources : Resources;
  controlPlane : ControlPlane;
  other : string
}.

End Schema.

(* ===================================================================== *)
(** ** bridge.ts: the wire messages *)
(* ===================================================================== *)

Module Wire.

Inductive AgentState := starting | running | busy | idle | error_state | shutting_down.

Record AgentStatusReport := {
  state : AgentState;
  activeTask : option string;
  channelsConnected : list string;
  report_uptimeSec : float;
  memoryUsageMb : float;
  cpuPercent : float;
  actionsToday : float;
  spendToday : float;
  goalProgress : list (string * float)
}.

Inductive ActionCategory := browse | execute | message | api_call | spend | file | other.

(** [details] is a [Record<string, unknown>]: a JavaScript object read as
    a map from property names to untyped values. *)
Record ActionLogEntry := {
  action_id : string;
  action_timestamp : string;
  category : ActionCategory;
  summary : string;
  details : option (gmap string Js.Value);
  durationMs : option float
}.

Inductive ApprovalCategory := spend_request | action_request | access_request.

Record ApprovalRequest := {
  request_id : string;
  request_category : ApprovalCategory;
  request_description : string;
  request_amount : option float;
  request_currency : option string;
  request_expiresAt : string
}.

(** Messages the agent sends to the control plane.  [uptimeSec] is a
    count of whole seconds. *)
Inductive AgentMessage :=
| heartbeat (agentId : string) (timestamp : string) (uptimeSec : Z)
| status (agentId : string) (report : AgentStatusReport)
| action (agentId : string) (entry : ActionLogEntry)
| approval_request (agentId : string) (request : ApprovalRequest)
| error (agentId : string) (message : string).

(** Messages the control plane sends to the agent.  The payloads of
    [update_config], [update_goals] and [inject_knowledge] are kept as
    their JSON text. *)
Inductive ControlMessage :=
| update_config (config : string)
| update_goals (goals : string)
| inject_knowledge (documents : string)
| send_message (content : string) (channel : option string)
| approval_response (requestId : string) (approved : bool) (reason : option string)
| restart
| shutdown
| ping.

(** [action.details?.amount]. *)
Definition details_amount (a : ActionLogEntry) : Js.Value :=
  match details a with
  | None => Js.Undefined
  | Some d => default Js.Undefined (d !! "amount")
  end.

End Wire.

(* ===================================================================== *)
(** ** provisioner.ts: instances, providers and the provisioner *)
(* ===================================================================== *)

Module Provisioner.

Inductive InstanceStatus := creating | running | stopping | stopped | error_status.

Record VpsInstance := {
  instance_id : string;
  instance_provider : string;
  instance_status : InstanceStatus;
  ipv4 : string;
  ipv6 : string;
  instance_serverType : string;
  instance_region : string;
  createdAt : string;
  instance_agentId : string;
  providerMeta : gmap string Js.Value
}.

Record DestroyResult := {
  success : bool;
  destroy_error : option string
}.

(** A provider's [destroy] talks to a cloud API or to the container
    runtime; both backends catch every failure and turn it into
    [{ success: false, error }].  The outcome of the call on a given
    instance id is the environment's choice, given here as a function. *)
Record VpsProvider := {
  provider_name : string;
  provider_destroy : string -> DestroyResult
}.

(** The process-wide registry [providers], and the provisioner's index of
    live instances keyed by agent id. *)
Record State := {
  providers : gmap string VpsProvider;
  instances : gmap string VpsInstance
}.

Definition registerProvider (p : VpsProvider) (s : State) : State :=
  {| providers := <[provider_name p := p]> (providers s);
     instances := instances s |}.

Definition getProvider (name : string) (s : State) : option VpsProvider :=
  providers s !! name.

Definition destroy (agentId : string) (s : State) : DestroyResult * State :=
  match instances s !! agentId with
  | None =>
      ({| success := false;
          destroy_error := Some ("No instance found for agent " +:+ agentId) |}, s)
  | Some instance =>
      match getProvider (instance_provider instance) s with
      | None =>
          ({| success := false;
              destroy_error :=
                Some ("Provider " +:+ instance_provider instance +:+ " not found") |}, s)
      | Some provider =>
          let result := provider_destroy provider (instance_id instance) in
          if success result
          then (result, {| providers := providers s;
                           instances := delete agentId (instances s) |})
          else (result, s)
      end
  end.

Definition listInstances (s : State) : list VpsInstance :=
  snd <$> map_to_list (instances s).

Record ProvisionResult := {
  provision_success : bool;
  provision_instance : option VpsInstance;
  provision_error : option string
}.

(** [listProviders()]: the names in the registry (in the order of the
    finite map, which does not record the order of registration). *)
Definition listProviders (s : State) : list string :=
  fst <$> map_to_list (providers s).

Section Backends.

(** A provider's [create] and [status] talk to the cloud API or the
    container runtime, like [destroy]; their outcome is the environment's
    choice, given here as functions of the provider's name and of the
    arguments of the call.  [defaultProvider] is the constructor's
    argument. *)
Variable provider_create : string -> Schema.MoltAgentManifest -> string -> ProvisionResult.
Variable provider_status : string -> string -> option VpsInstance.
Variable defaultProvider : string.

(** [provision(manifest, cloudInitScript)]. *)
Definition provision (manifest : Schema.MoltAgentManifest) (cloudInitScript : string)
    (s : State) : ProvisionResult * State :=
  let providerName :=
    if Js.truthy_str (Schema.provider (Schema.resources manifest))
    then Schema.provider (Schema.resources manifest)
    else defaultProvider in
  match getProvider providerName s with
  | None =>
      ({| provision_success := false;
          provision_instance := None;
          provision_error :=
            Some ("Unknown VPS provider: " +:+ providerName +:+ ". Available: "
                  +:+ Js.join ", " (listProviders s)) |}, s)
  | Some provider =>
      let result := provider_create (provider_name provider) manifest cloudInitScript in
      match provision_success result, provision_instance result with
      | true, Some instance =>
          (result,
           {| providers := providers s;
              instances :=
                <[Schema.identity_id (Schema.identity manifest) := instance]> (instances s) |})
      | _, _ => (result, s)
      end
  end.

(** [getStatus(agentId)]. *)
Definition getStatus (agentId : string) (s : State) : option VpsInstance * State :=
  match instances s !! agentId with
  | None => (None, s)
  | Some instance =>
      match getProvider (instance_provider instance) s with
      | None => (Some instance, s)
      | Some provider =>
          match provider_status (provider_name provider) (instance_id instance) with
          | Some updated =>
              (Some updated,
               {| providers := providers s;
                  instances := <[agentId := updated]> (instances s) |})
          | None => (Some instance, s)
          end
      end
  end.

End Backends.

End Provisioner.

(* ===================================================================== *)
(** ** fleet.ts: the fleet manager *)
(* ===================================================================== *)

Module Fleet.

Inductive Connection := online | offline | unknown.

(** [totalActions] is a double that holds an integer: it starts at 0 and
    is only ever incremented, by [Js.increment], which counts by one
    below 2^53 and rounds as a double does from there on (a snapshot may
    bring such a value in).  [totalSpend] accumulates amounts with
    double-precision addition. *)
Record AgentRecord := {
  manifest : Schema.MoltAgentManifest;
  instance : option Provisioner.VpsInstance;
  connection : Connection;
  remoteAddress : string;
  lastStatus : option Wire.AgentStatusReport;
  deployedAt : string;
  lastHeartbeat : option string;
  uptimeSec : Z;
  recentActions : list Wire.ActionLogEntry;
  recentErrors : list (string * string);
  totalActions : Z;
  totalSpend : float
}.

Definition MAX_RECENT_ACTIONS : nat := 200.
Definition MAX_RECENT_ERRORS : nat := 50.

Record FleetManager := {
  agents : gmap string AgentRecord;
  dirty : bool
}.

Definition markDirty (fm : FleetManager) : FleetManager :=
  {| agents := agents fm; dirty := true |}.

(** [registerAgent(manifest, instance)]; [now] is the text
    [new Date().toISOString()] evaluates to during the call. *)
Definition registerAgent (now : string) (m : Schema.MoltAgentManifest)
    (inst : option Provisioner.VpsInstance) (fm : FleetManager) : FleetManager :=
  let existing := agents fm !! Schema.identity_id (Schema.identity m) in
  let record :=
    {| manifest := m;
       instance := inst;
       connection := unknown;
       remoteAddress := EmptyString;
       lastStatus := None;
       deployedAt := default now (deployedAt <$> existing);
       lastHeartbeat := None;
       uptimeSec := 0;
       recentActions := default [] (recentActions <$> existing);
       recentErrors := default [] (recentErrors <$> existing);
       totalActions := default 0 (totalActions <$> existing);
       totalSpend := default 0%float (totalSpend <$> existing) |} in
  markDirty {| agents := <[Schema.identity_id (Schema.identity m) := record]> (agents fm);
               dirty := dirty fm |}.

Definition removeAgent (agentId : string) (fm : FleetManager) : bool * FleetManager :=
  match agents fm !! agentId with
  | Some _ => (true, markDirty {| agents := delete agentId (agents fm); dirty := dirty fm |})
  | None => (false, fm)
  end.

Definition getAgent (agentId : string) (fm : FleetManager) : option AgentRecord :=
  agents fm !! agentId.

(** The methods below mutate the record found under [agentId] in place
    and do nothing when there is none. *)
Definition update_record (agentId : string) (f : AgentRecord -> AgentRecord)
    (fm : FleetManager) : FleetManager :=
  match agents fm !! agentId with
  | None => fm
  | Some record => markDirty {| agents := <[agentId := f record]> (agents fm);
                                dirty := dirty fm |}
  end.

Definition updateAgentConnection (agentId : string) (c : Connection)
    (remote : option string) (fm : FleetManager) : FleetManager :=
  update_record agentId (fun record =>
    {| manifest := manifest record;
       instance := instance record;
       connection := c;
       remoteAddress :=
         match remote with
         | Some a => if Js.truthy_str a then a else remoteAddress record
         | None => remoteAddress record
         end;
       lastStatus := lastStatus record;
       deployedAt := deployedAt record;
       lastHeartbeat := lastHeartbeat record;
       uptimeSec := uptimeSec record;
       recentActions := recentActions record;
       recentErrors := recentErrors record;
       totalActions := totalActions record;
       totalSpend := totalSpend record |}) fm.

Definition updateHeartbeat (now : string) (agentId : string) (up : Z)
    (fm : FleetManager) : FleetManager :=
  update_record agentId (fun record =>
    {| manifest := manifest record;
       instance := instance record;
       connection := connection record;
       remoteAddress := remoteAddress record;
       lastStatus := lastStatus record;
       deployedAt := deployedAt record;
       lastHeartbeat := Some now;
       uptimeSec := up;
       recentActions := recentActions record;
       recentErrors := recentErrors record;
       totalActions := totalActions record;
       totalSpend := totalSpend record |}) fm.

Definition updateAgentStatus (agentId : string) (st : Wire.AgentStatusReport)
    (fm : FleetManager) : FleetManager :=
  update_record agentId (fun record =>
    {| manifest := manifest record;
       instance := instance record;
       connection := connection record;
       remoteAddress := remoteAddress record;
       lastStatus := Some st;
       deployedAt := deployedAt record;
       lastHeartbeat := lastHeartbeat record;
       uptimeSec := uptimeSec record;
       recentActions := recentActions record;
       recentErrors := recentErrors record;
       totalActions := totalActions record;
       totalSpend := totalSpend record |}) fm.

(** [xs.unshift(x); if (xs.length > cap) xs.length = cap]. *)
Definition unshift_capped {A} (cap : nat) (x : A) (xs : list A) : list A :=
  take cap (x :: xs).

Definition is_spend (c : Wire.ActionCategory) : bool :=
  match c with Wire.spend => true | _ => false end.

Section RecordAction.

Variable StringToNumber : string -> float.

(** The spend-tracking statement of [recordAction]:
    [if (action.category === "spend" && action.details?.amount)
       record.totalSpend += Number(action.details.amount) || 0]. *)
Definition track_spend (a : Wire.ActionLogEntry) (total : float) : float :=
  if is_spend (Wire.category a) && Js.truthy (Wire.details_amount a)
  then PrimFloat.add total (Js.or_zero (Js.Number StringToNumber (Wire.details_amount a)))
  else total.

Definition recordAction (agentId : string) (a : Wire.ActionLogEntry)
    (fm : FleetManager) : FleetManager :=
  update_record agentId (fun record =>
    {| manifest := manifest record;
       instance := instance record;
       connection := connection record;
       remoteAddress := remoteAddress record;
       lastStatus := lastStatus record;
       deployedAt := deployedAt record;
       lastHeartbeat := lastHeartbeat record;
       uptimeSec := uptimeSec record;
       recentActions := unshift_capped MAX_RECENT_ACTIONS a (recentActions record);
       recentErrors := recentErrors record;
       totalActions := Js.increment (totalActions record);
       totalSpend := track_spend a (totalSpend record) |}) fm.

End RecordAction.

Definition recordError (now : string) (agentId : string) (msg : string)
    (fm : FleetManager) : FleetManager :=
  update_record agentId (fun record =>
    {| manifest := manifest record;
       instance := instance record;
       connection := connection record;
       remoteAddress := remoteAddress record;
       lastStatus := lastStatus record;
       deployedAt := deployedAt record;
       lastHeartbeat := lastHeartbeat record;
       uptimeSec := uptimeSec record;
       recentActions := recentActions record;
       recentErrors := unshift_capped MAX_RECENT_ERRORS (now, msg) (recentErrors record);
       totalActions := totalActions record;
       totalSpend := totalSpend record |}) fm.

(** [getAgentActions(agentId, limit = 50, offset = 0)]; an argument left
    out is [None]. *)
Definition getAgentActions (agentId : string) (limit offset : option Z)
    (fm : FleetManager) : list Wire.ActionLogEntry :=
  let limit := default 50 limit in
  let offset := default 0 offset in
  match agents fm !! agentId with
  | None => []
  | Some record => Js.slice offset (offset + limit) (recentActions record)
  end.

(** The snapshot file once parsed.  [version] is whatever the file
    holds; [snapshot_agents] is the object keyed by agent id. *)
Record FleetSnapshot := {
  version : Js.Value;
  updatedAt : string;
  snapshot_agents : gmap string AgentRecord
}.

(** [snapshot.version === 1]. *)
Definition is_version_1 (v : Js.Value) : bool :=
  match v with
  | Js.Num f => PrimFloat.eqb f 1%float
  | _ => false
  end.

Definition offline_on_load (record : AgentRecord) : AgentRecord :=
  {| manifest := manifest record;
     instance := instance record;
     connection := offline;
     remoteAddress := remoteAddress record;
     lastStatus := lastStatus record;
     deployedAt := deployedAt record;
     lastHeartbeat := lastHeartbeat record;
     uptimeSec := uptimeSec record;
     recentActions := recentActions record;
     recentErrors := recentErrors record;
     totalActions := totalActions record;
     totalSpend := totalSpend record |}.

(** The constructor with its call of [load()]: [file] is the parsed
    snapshot, or [None] when the file is missing or does not parse (the
    [catch] branch).  The fleet starts clean. *)
Definition load (file : option FleetSnapshot) : FleetManager :=
  match file with
  | Some snapshot =>
      if is_version_1 (version snapshot)
      then {| agents := offline_on_load <$> snapshot_agents snapshot; dirty := false |}
      else {| agents := ∅; dirty := false |}
  | None => {| agents := ∅; dirty := false |}
  end.

(** The mutating methods of the manager, as operations. *)
Inductive Op :=
| RegisterAgent (now : string) (m : Schema.MoltAgentManifest)
    (inst : option Provisioner.VpsInstance)
| RemoveAgent (agentId : string)
| UpdateAgentConnection (agentId : string) (c : Connection) (remote : option string)
| UpdateHeartbeat (now : string) (agentId : string) (up : Z)
| UpdateAgentStatus (agentId : string) (st : Wire.AgentStatusReport)
| RecordAction (agentId : string) (a : Wire.ActionLogEntry)
| RecordError (now : string) (agentId : string) (msg : string).

(** The agent id an operation is about. *)
Definition target (op : Op) : string :=
  match op with
  | RegisterAgent _ m _ => Schema.identity_id (Schema.identity m)
  | RemoveAgent agentId
  | UpdateAgentConnection agentId _ _
  | UpdateHeartbeat _ agentId _
  | UpdateAgentStatus agentId _
  | RecordAction agentId _
  | RecordError _ agentId _ => agentId
  end.

Definition is_register (op : Op) : bool :=
  match op with RegisterAgent _ _ _ => true | _ => false end.

Definition is_remove (op : Op) : bool :=
  match op with RemoveAgent _ => true | _ => false end.

Definition is_recordAction (op : Op) : bool :=
  match op with RecordAction _ _ => true | _ => false end.

(** Both ring buffers of every record are within their caps. *)
Definition bounded (fm : FleetManager) : Prop :=
  forall agentId record, agents fm !! agentId = Some record ->
    (length (recentActions record) <= MAX_RECENT_ACTIONS)%nat /\
    (length (recentErrors record) <= MAX_RECENT_ERRORS)%nat.

(** The [recordAction] calls for [agentId] among [ops]. *)
Definition recorded (agentId : string) (ops : list Op) : list Op :=
  List.filter (fun op => is_recordAction op && String.eqb (target op) agentId) ops.

(** No [removeAgent] call for [agentId] among [ops]. *)
Definition kept (agentId : string) (ops : list Op) : Prop :=
  Forall (fun op => is_remove op && String.eqb (target op) agentId = false) ops.

Section Replay.

Variable StringToNumber : string -> float.

Definition apply (fm : FleetManager) (op : Op) : FleetManager :=
  match op with
  | RegisterAgent now m inst => registerAgent now m inst fm
  | RemoveAgent agentId => (removeAgent agentId fm).2
  | UpdateAgentConnection agentId c remote => updateAgentConnection agentId c remote fm
  | UpdateHeartbeat now agentId up => updateHeartbeat now agentId up fm
  | UpdateAgentStatus agentId st => updateAgentStatus agentId st fm
  | RecordAction agentId a => recordAction StringToNumber agentId a fm
  | RecordError now agentId msg => recordError now agentId msg fm
  end.

Definition run (fm : FleetManager) (ops : list Op) : FleetManager :=
  fold_left apply ops fm.


End Replay.



End Fleet.

(* ===================================================================== *)
(** ** approvals.ts: the approval manager *)
(* ===================================================================== *)

Module Approvals.

Inductive ApprovalState := pending | approved | denied | expired.

Definition is_pending (s : ApprovalState) : bool :=
  match s with pending => true | _ => false end.

Record PendingApproval := {
  id : string;
  agentId : string;
  category : Wire.ApprovalCategory;
  description : string;
  amount : option float;
  currency : option string;
  createdAt : string;
  expiresAt : string;
  state : ApprovalState;
  respondedBy : option string;
  reason : option string;
  respondedAt : option string
}.

(** A JavaScript [Map<string, V>]: keys are unique and iteration follows
    insertion order; [set] on a key already present keeps its position. *)
Definition map_get {V} (k : string) (m : list (string * V)) : option V :=
  snd <$> List.find (fun e => String.eqb (fst e) k) m.

Fixpoint map_set {V} (k : string) (v : V) (m : list (string * V)) : list (string * V) :=
  match m with
  | [] => [(k, v)]
  | (k', v') :: rest =>
      if String.eqb k' k then (k, v) :: rest else (k', v') :: map_set k v rest
  end.

Definition map_delete {V} (k : string) (m : list (string * V)) : list (string * V) :=
  List.filter (fun e => negb (String.eqb (fst e) k)) m.

(** The calls made on the [ApprovalCallbacks] object, each with the
    contents of the approval at the time of the call. *)
Inductive Callback :=
| onNewApproval (a : PendingApproval)
| onResolved (a : PendingApproval).

(** Approval objects are shared by reference between the queue, the
    history, the callbacks and the callers: [heap] holds the objects,
    [queue] and [history] hold their addresses, [next] is the address of
    the next object allocated and [calls] the callback invocations so
    far, oldest first. *)
Record ApprovalManager := {
  heap : gmap nat PendingApproval;
  next : nat;
  queue : list (string * nat);
  history : list nat;
  calls : list Callback
}.

Definition maxHistory : nat := 1000.

Definition empty : ApprovalManager :=
  {| heap := ∅; next := O; queue := []; history := []; calls := [] |}.

Definition addToHistory (a : nat) (h : list nat) : list nat :=
  take maxHistory (a :: h).

(** [addRequest(agentId, request)]; [now] is [new Date().toISOString()].
    Returns the address of the new approval object. *)
Definition addRequest (now : string) (agent : string) (request : Wire.ApprovalRequest)
    (am : ApprovalManager) : nat * ApprovalManager :=
  let approval :=
    {| id := Wire.request_id request;
       agentId := agent;
       category := Wire.request_category request;
       description := Wire.request_description request;
       amount := Wire.request_amount request;
       currency := Wire.request_currency request;
       createdAt := now;
       expiresAt := Wire.request_expiresAt request;
       state := pending;
       respondedBy := None;
       reason := None;
       respondedAt := None |} in
  (next am,
   {| heap := <[next am := approval]> (heap am);
      next := S (next am);
      queue := map_set (Wire.request_id request) (next am) (queue am);
      history := history am;
      calls := calls am ++ [onNewApproval approval] |}).

Definition resolved (now : string) (ok : bool) (by_ : string) (why : option string)
    (approval : PendingApproval) : PendingApproval :=
  {| id := id approval;
     agentId := agentId approval;
     category := category approval;
     description := description approval;
     amount := amount approval;
     currency := currency approval;
     createdAt := createdAt approval;
     expiresAt := expiresAt approval;
     state := if ok then approved else denied;
     respondedBy := Some by_;
     reason := why;
     respondedAt := Some now |}.

(** [resolve(requestId, approved, respondedBy, reason?)]; returns the
    address of the resolved object, or [None] for [null]. *)
Definition resolve (now : string) (requestId : string) (ok : bool) (by_ : string)
    (why : option string) (am : ApprovalManager) : option nat * ApprovalManager :=
  match map_get requestId (queue am) with
  | None => (None, am)
  | Some a =>
      match heap am !! a with
      | None => (None, am)
      | Some approval =>
          if is_pending (state approval) then
            let approval' := resolved now ok by_ why approval in
            (Some a,
             {| heap := <[a := approval']> (heap am);
                next := next am;
                queue := map_delete requestId (queue am);
                history := addToHistory a (history am);
                calls := calls am ++ [onResolved approval'] |})
          else (None, am)
      end
  end.

Definition getApproval (requestId : string) (am : ApprovalManager) : option nat :=
  map_get requestId (queue am).

Definition with_state (s : ApprovalState) (approval : PendingApproval) : PendingApproval :=
  {| id := id approval;
     agentId := agentId approval;
     category := category approval;
     description := description approval;
     amount := amount approval;
     currency := currency approval;
     createdAt := createdAt approval;
     expiresAt := expiresAt approval;
     state := s;
     respondedBy := respondedBy approval;
     reason := reason approval;
     respondedAt := respondedAt approval |}.

Section Expiry.

(** [new Date(text).getTime()]: the epoch milliseconds the text denotes,
    [None] for [NaN] when it denotes no date. *)
Variable getTime : string -> option Z.

(** [new Date(approval.expiresAt).getTime() < now]; a comparison with
    [NaN] is false. *)
Definition is_past (now : Z) (approval : PendingApproval) : bool :=
  match getTime (expiresAt approval) with
  | Some t => t <? now
  | None => false
  end.

(** The body of the loop of [expireStale] on one entry of the queue. *)
Definition expire_entry (now : Z) (am : ApprovalManager) (entry : string * nat)
    : ApprovalManager :=
  match heap am !! entry.2 with
  | None => am
  | Some approval =>
      if is_pending (state approval) && is_past now approval then
        let approval' := with_state expired approval in
        {| heap := <[entry.2 := approval']> (heap am);
           next := next am;
           queue := map_delete entry.1 (queue am);
           history := addToHistory entry.2 (history am);
           calls := calls am ++ [onResolved approval'] |}
      else am
  end.

(** [expireStale()]; [now] is [Date.now()].  The loop visits the entries
    the queue holds when it starts, in insertion order; deleting the entry
    being visited does not disturb the iteration. *)
Definition expireStale (now : Z) (am : ApprovalManager) : ApprovalManager :=
  fold_left (expire_entry now) (queue am) am.

End Expiry.

(** [getPending(agentId?)], as addresses. *)
Definition getPending (agent : option string) (am : ApprovalManager) : list nat :=
  let all :=
    List.filter (fun a => match heap am !! a with
                          | Some approval => is_pending (state approval)
                          | None => false
                          end) (snd <$> queue am) in
  match agent with
  | Some g =>
      if Js.truthy_str g
      then List.filter (fun a => match heap am !! a with
                                 | Some approval => String.eqb (agentId approval) g
                                 | None => false
                                 end) all
      else all
  | None => all
  end.

(** What holds of the manager in every state it can reach: the queue has
    one entry per key and per object, every queued object exists and is
    pending, objects live below [next], and the history is within its
    bound. *)
Definition wf (am : ApprovalManager) : Prop :=
  NoDup (fst <$> queue am)
  /\ NoDup (snd <$> queue am)
  /\ (forall e, e ∈ queue am ->
        exists approval, heap am !! e.2 = Some approval /\ state approval = pending)
  /\ (forall a, is_Some (heap am !! a) -> (a < next am)%nat)
  /\ (length (history am) <= maxHistory)%nat.

(** The operations of the manager: the three methods that change it. *)
Inductive Op :=
| AddRequest (now : string) (agent : string) (request : Wire.ApprovalRequest)
| Resolve (now : string) (requestId : string) (ok : bool) (by_ : string)
    (why : option string)
| ExpireStale (now : Z).

Section Run.

Variable getTime : string -> option Z.

Definition apply (am : ApprovalManager) (op : Op) : ApprovalManager :=
  match op with
  | AddRequest now agent request => (addRequest now agent request am).2
  | Resolve now requestId ok by_ why => (resolve now requestId ok by_ why am).2
  | ExpireStale now => expireStale getTime now am
  end.

Definition run (am : ApprovalManager) (ops : list Op) : ApprovalManager :=
  fold_left apply ops am.

(** An entry of the queue the scan at time [now] expires. *)
Definition stale (now : Z) (am : ApprovalManager) (entry : string * nat) : bool :=
  match heap am !! entry.2 with
  | Some approval => is_pending (state approval) && is_past getTime now approval
  | None => false
  end.

End Run.

(** [getHistory(limit = 50, offset = 0)], as addresses. *)
Definition getHistory (limit offset : option Z) (am : ApprovalManager) : list nat :=
  let limit := default 50 limit in
  let offset := default 0 offset in
  Js.slice offset (offset + limit) (history am).

(** The summary [getSummary()] returns. *)
Record Summary := {
  summary_pending : nat;
  approvedToday : nat;
  deniedToday : nat;
  expiredToday : nat;
  totalSpendApprovedToday : float
}.

Definition state_eqb (s1 s2 : ApprovalState) : bool :=
  match s1, s2 with
  | pending, pending | approved, approved | denied, denied | expired, expired => true
  | _, _ => false
  end.

Definition is_spend_request (c : Wire.ApprovalCategory) : bool :=
  match c with Wire.spend_request => true | _ => false end.

(** [a.respondedAt?.startsWith(today) || a.createdAt.startsWith(today)]. *)
Definition of_today (today : string) (approval : PendingApproval) : bool :=
  match respondedAt approval with
  | Some t => Js.startsWith t today
  | None => false
  end || Js.startsWith (createdAt approval) today.

(** The [todayHistory] of [getSummary()]; [now] is
    [new Date().toISOString()], of which [slice(0, 10)] keeps the first
    ten characters.  The objects of the history are read through the
    heap. *)
Definition todayHistory (now : string) (am : ApprovalManager) : list PendingApproval :=
  let today := String.substring 0 10 now in
  List.filter (of_today today) (omap (fun a => heap am !! a) (history am)).

Definition count_state (s : ApprovalState) (l : list PendingApproval) : nat :=
  length (List.filter (fun a => state_eqb (state a) s) l).

Definition getSummary (now : string) (am : ApprovalManager) : Summary :=
  {| summary_pending := length (queue am);
     approvedToday := count_state approved (todayHistory now am);
     deniedToday := count_state denied (todayHistory now am);
     expiredToday := count_state expired (todayHistory now am);
     totalSpendApprovedToday :=
       fold_left (fun sum a => PrimFloat.add sum (default 0%float (amount a)))
         (List.filter (fun a => state_eqb (state a) approved
                                && is_spend_request (category a)) (todayHistory now am))
         0%float |}.

(** What holds of the history in every state the manager can reach: no
    approval is recorded twice, every recorded approval exists and has
    left the pending state, and every queued approval sits under its own
    id. *)
Definition settled (am : ApprovalManager) : Prop :=
  NoDup (history am)
  /\ (forall a, a ∈ history am ->
        exists approval, heap am !! a = Some approval /\ state approval <> pending)
  /\ (forall e, e ∈ queue am ->
        exists approval, heap am !! e.2 = Some approval /\ id approval = e.1).

(** An approval object the manager no longer refers to. *)
Definition unreferenced (am : ApprovalManager) (a : nat) : Prop :=
  (a < next am)%nat /\ (a ∉ snd <$> queue am) /\ (a ∉ history am).

End Approvals.

(* ===================================================================== *)
(** ** control-plane.ts: the control-plane server *)
(* ===================================================================== *)

Module ControlPlane.

Record ControlPlaneConfig := {
  wsPath : string;
  authToken : string
}.

(** What the handlers read of an incoming request: the path and the query
    parameters of [new URL(req.url, ...)], the [Authorization] header and
    the peer address of the underlying socket. *)
Record IncomingMessage := {
  pathname : string;
  searchParams : list (string * string);
  authorization : option string;
  socket_remoteAddress : option string
}.

(** [url.searchParams.get(name)]: the first value given for [name]. *)
Definition searchParams_get (name : string) (req : IncomingMessage) : option string :=
  snd <$> List.find (fun p => String.eqb (fst p) name) (searchParams req).

(** [!agentId] on a value that is a string or [null]. *)
Definition falsy (s : option string) : bool :=
  match s with
  | None => true
  | Some v => negb (Js.truthy_str v)
  end.

(** Outcome of the ["upgrade"] listener installed by [attach]. *)
Inductive UpgradeOutcome :=
| NotHandled
| HttpRejected (response : string)
| Upgraded (agentId : string).

Definition CRLF : string :=
  String (Ascii.ascii_of_nat 13) (String (Ascii.ascii_of_nat 10) EmptyString).

(** The [token] the listener of [attach] compares:
    [url.searchParams.get("token") ??
     req.headers.authorization?.replace("Bearer ", "")]. *)
Definition upgrade_token (req : IncomingMessage) : option string :=
  match searchParams_get "token" req with
  | Some t => Some t
  | None => Js.replace "Bearer " EmptyString <$> authorization req
  end.

(** The ["upgrade"] listener of [attach]. *)
Definition attach_upgrade (config : ControlPlaneConfig) (req : IncomingMessage)
    : UpgradeOutcome :=
  if negb (Js.startsWith (pathname req) (wsPath config)) then NotHandled
  else
    let token := upgrade_token req in
    if negb (bool_decide (token = Some (authToken config)))
    then HttpRejected ("HTTP/1.1 401 Unauthorized" +:+ CRLF +:+ CRLF)
    else
      let agentId := searchParams_get "agentId" req in
      if falsy agentId
      then HttpRejected ("HTTP/1.1 400 Bad Request" +:+ CRLF +:+ CRLF)
      else Upgraded (default EmptyString agentId).

(** Outcome of the ["connection"] listener installed by
    [startStandalone]: the WebSocket is already established when it
    runs. *)
Inductive StandaloneOutcome :=
| Closed (code : Z) (reason : string)
| Connected (agentId : string).

(** The ["connection"] listener of [startStandalone]. *)
Definition standalone_connection (config : ControlPlaneConfig) (req : IncomingMessage)
    : StandaloneOutcome :=
  let agentId := default EmptyString (searchParams_get "agentId" req) in
  let token := default EmptyString (searchParams_get "token" req) in
  if negb (String.eqb token (authToken config)) || negb (Js.truthy_str agentId)
  then Closed 4001 "Unauthorized"
  else Connected agentId.

Inductive ReadyState := CONNECTING | OPEN | CLOSING | CLOSED.

Definition is_open (r : ReadyState) : bool :=
  match r with OPEN => true | _ => false end.

(** A server-side WebSocket: its state, the code and reason of the close
    frame the server sent on it, the messages written to it (oldest
    first), and the agent id captured by the listeners [handleConnection]
    registered on it. *)
Record Socket := {
  readyState : ReadyState;
  closeFrame : option (Z * string);
  sent : list Wire.ControlMessage;
  listener : option string
}.

(** [ws.close(code, reason)]: starts the closing handshake of an open
    socket; on a socket that is closing or closed it does nothing. *)
Definition ws_close (code : Z) (why : string) (sock : Socket) : Socket :=
  match readyState sock with
  | OPEN | CONNECTING =>
      {| readyState := CLOSING; closeFrame := Some (code, why);
         sent := sent sock; listener := listener sock |}
  | CLOSING | CLOSED => sock
  end.

Record ConnectedAgent := {
  agentId : string;
  ws : nat;
  connectedAt : string;
  lastHeartbeat : string;
  remoteAddress : string
}.

(** The server, with the two managers its constructor receives by
    reference and the sockets it has been handed, by identity. *)
Record Server := {
  config : ControlPlaneConfig;
  agents : gmap string ConnectedAgent;
  sockets : gmap nat Socket;
  fleet : Fleet.FleetManager;
  approvals : Approvals.ApprovalManager
}.

Definition set_agents (f : gmap string ConnectedAgent -> gmap string ConnectedAgent)
    (s : Server) : Server :=
  {| config := config s; agents := f (agents s); sockets := sockets s;
     fleet := fleet s; approvals := approvals s |}.

Definition set_sockets (f : gmap nat Socket -> gmap nat Socket) (s : Server) : Server :=
  {| config := config s; agents := agents s; sockets := f (sockets s);
     fleet := fleet s; approvals := approvals s |}.

Definition set_fleet (f : Fleet.FleetManager -> Fleet.FleetManager) (s : Server) : Server :=
  {| config := config s; agents := agents s; sockets := sockets s;
     fleet := f (fleet s); approvals := approvals s |}.

Definition set_approvals (f : Approvals.ApprovalManager -> Approvals.ApprovalManager)
    (s : Server) : Server :=
  {| config := config s; agents := agents s; sockets := sockets s;
     fleet := fleet s; approvals := f (approvals s) |}.

(** [ws.on("message", ...)], [ws.on("close", ...)] and
    [ws.on("error", ...)] in [handleConnection]: the listeners close over
    the agent id. *)
Definition with_listener (agent : string) (sock : Socket) : Socket :=
  {| readyState := readyState sock; closeFrame := closeFrame sock;
     sent := sent sock; listener := Some agent |}.

(** [handleConnection(ws, agentId, req)] on the socket at address [w];
    [now] is [new Date()]. *)
Definition handleConnection (now : string) (w : nat) (agent : string)
    (remote : option string) (s : Server) : Server :=
  let remoteAddress := default "unknown" remote in
  let conn :=
    {| agentId := agent; ws := w; connectedAt := now; lastHeartbeat := now;
       remoteAddress := remoteAddress |} in
  let s1 :=
    match agents s !! agent with
    | Some existing =>
        set_sockets (alter (ws_close 4000 "Replaced by new connection") (ws existing)) s
    | None => s
    end in
  let s2 := set_agents (insert agent conn) s1 in
  let s3 := set_fleet (Fleet.updateAgentConnection agent Fleet.online (Some remoteAddress)) s2 in
  set_sockets (alter (with_listener agent) w) s3.

(** The ["close"] listener registered by [handleConnection] on the socket
    at address [w] for [agent]. *)
Definition on_close (w : nat) (agent : string) (s : Server) : Server :=
  if bool_decide (ws <$> agents s !! agent = Some w)
  then set_fleet (Fleet.updateAgentConnection agent Fleet.offline None)
         (set_agents (delete agent) s)
  else s.

Section Messages.

Variable StringToNumber : string -> float.

(** [handleAgentMessage(agentId, msg)]; [now] is [new Date()]. *)
Definition handleAgentMessage (now : string) (agent : string) (msg : Wire.AgentMessage)
    (s : Server) : Server :=
  match msg with
  | Wire.heartbeat _ _ up =>
      set_fleet (Fleet.updateHeartbeat now agent up)
        (set_agents (alter (fun conn =>
           {| agentId := agentId conn; ws := ws conn; connectedAt := connectedAt conn;
              lastHeartbeat := now; remoteAddress := remoteAddress conn |}) agent) s)
  | Wire.status _ report => set_fleet (Fleet.updateAgentStatus agent report) s
  | Wire.action _ entry => set_fleet (Fleet.recordAction StringToNumber agent entry) s
  | Wire.approval_request _ request =>
      set_approvals (fun am => (Approvals.addRequest now agent request am).2) s
  | Wire.error _ message => set_fleet (Fleet.recordError now agent message) s
  end.

(** [sendToAgent(agentId, msg)]. *)
Definition sendToAgent (agent : string) (msg : Wire.ControlMessage) (s : Server)
    : bool * Server :=
  match agents s !! agent with
  | None => (false, s)
  | Some conn =>
      match sockets s !! ws conn with
      | None => (false, s)
      | Some sock =>
          if is_open (readyState sock)
          then (true, set_sockets (insert (ws conn)
                  {| readyState := readyState sock; closeFrame := closeFrame sock;
                     sent := sent sock ++ [msg]; listener := listener sock |}) s)
          else (false, s)
      end
  end.

Definition isAgentOnline (agent : string) (s : Server) : bool :=
  match agents s !! agent with
  | None => false
  | Some conn =>
      match sockets s !! ws conn with
      | Some sock => is_open (readyState sock)
      | None => false
      end
  end.

(** [close()]: every indexed socket is closed with code 1001 and the
    index is cleared. *)
Definition close (s : Server) : Server :=
  set_agents (fun _ => ∅)
    (set_sockets (fun socks =>
       map_fold (fun _ conn acc => alter (ws_close 1001 "Control plane shutting down") (ws conn) acc)
                socks (agents s)) s).

(** What happens to a running server.  [Accept] is a new socket passing
    admission and reaching [handleConnection]; it is a fresh object, and
    its address is the first one not yet in the store.  [Message] is a
    frame that parses as JSON arriving on a socket that is not closed
    yet (a frame that does not parse is dropped); [SocketClose] is the
    ["close"] event of a socket: the socket is closed from then on.  In
    both cases the listener registered on the socket, if any, runs. *)
Inductive Event :=
| Accept (now : string) (agent : string) (remote : option string)
| Message (now : string) (w : nat) (msg : Wire.AgentMessage)
| SocketClose (w : nat)
| Shutdown.

Definition fresh_socket : Socket :=
  {| readyState := OPEN; closeFrame := None; sent := []; listener := None |}.

Definition next_socket (s : Server) : nat := fresh (dom (sockets s)).

Definition step (s : Server) (e : Event) : Server :=
  match e with
  | Accept now agent remote =>
      let w := next_socket s in
      handleConnection now w agent remote (set_sockets (insert w fresh_socket) s)
  | Message now w msg =>
      match sockets s !! w with
      | None => s
      | Some sock =>
          match readyState sock with
          | CLOSED => s
          | _ =>
              match listener sock with
              | Some agent => handleAgentMessage now agent msg s
              | None => s
              end
          end
      end
  | SocketClose w =>
      match sockets s !! w with
      | None => s
      | Some sock =>
          let s' := set_sockets (insert w
                      {| readyState := CLOSED; closeFrame := closeFrame sock;
                         sent := sent sock; listener := listener sock |}) s in
          match listener sock with
          | Some agent => on_close w agent s'
          | None => s'
          end
      end
  | Shutdown => close s
  end.

Definition run (s : Server) (es : list Event) : Server := fold_left step es s.

End Messages.

(** A live session of [agent]: an open socket carrying the listeners of
    [handleConnection] for [agent]. *)
Definition live (s : Server) (agent : string) (w : nat) : Prop :=
  exists sock, sockets s !! w = Some sock
            /\ readyState sock = OPEN /\ listener sock = Some agent.

(** What holds in every state a server reaches: a live session is the
    indexed one, and an indexed session has its socket in the store,
    carrying its listeners. *)
Definition indexed (s : Server) : Prop :=
  (forall agent w, live s agent w -> ws <$> agents s !! agent = Some w)
  /\ (forall agent conn, agents s !! agent = Some conn ->
        exists sock, sockets s !! ws conn = Some sock /\ listener sock = Some agent).

(** [new ControlPlaneServer(config, fleet, approvals)]. *)
Definition create (c : ControlPlaneConfig) (fm : Fleet.FleetManager)
    (am : Approvals.ApprovalManager) : Server :=
  {| config := c; agents := ∅; sockets := ∅; fleet := fm; approvals := am |}.

(** [sendApprovalResponse(agentId, requestId, approved, reason?)]. *)
Definition sendApprovalResponse (agent : string) (requestId : string) (ok : bool)
    (why : option string) (s : Server) : bool * Server :=
  sendToAgent agent (Wire.approval_response requestId ok why) s.

(** The socket [sock] with one more message written to it. *)
Definition written (msg : Wire.ControlMessage) (sock : Socket) : Socket :=
  {| readyState := readyState sock; closeFrame := closeFrame sock;
     sent := sent sock ++ [msg]; listener := listener sock |}.


End ControlPlane.

(* ===================================================================== *)
(** ** bridge.ts: the agent's bridge to the control plane *)
(* ===================================================================== *)

Module Bridge.

Inductive ReadyState := CONNECTING | OPEN | CLOSING | CLOSED.

Definition is_open (r : ReadyState) : bool :=
  match r with OPEN => true | _ => false end.

(** A client WebSocket created by [connect]: where it dials, the
    [Authorization] header it presents, its state and the frames written
    to it, oldest first. *)
Record Socket := {
  socket_url : string;
  socket_authorization : string;
  readyState : ReadyState;
  sent : list Wire.AgentMessage
}.

(** What a pending timer does when it fires: the callbacks given to
    [setTimeout] in [scheduleReconnect] and [requestApproval], and to
    [setInterval] in [startHeartbeat]. *)
Inductive TimerAction :=
| Reconnect
| Heartbeat
| ApprovalTimeout (requestId : string) (promise : nat).

Record Timer := {
  delay : Z;
  action : TimerAction
}.

(** The closure stored in [pendingApprovals] by [requestApproval]: it
    captures the request id, the timeout and the promise to settle. *)
Record Handler := {
  handler_requestId : string;
  handler_timeout : nat;
  handler_promise : nat
}.

Inductive Callback :=
| onCommand (msg : Wire.ControlMessage)
| onConnected
| onDisconnected (reason : string).

(** The bridge object with the part of the runtime it acts on: the
    sockets it created, the timers pending in the event loop, the
    promises returned by [requestApproval] that have settled (with their
    value), and the calls made on [BridgeCallbacks], oldest first.
    [next] numbers the sockets, timers and promises created. *)
Record MoltAgentBridge := {
  agentId : string;
  controlPlane : Schema.ControlPlane;
  ws : option nat;
  reconnectAttempt : nat;
  heartbeatTimer : option nat;
  startTime : Z;
  closed : bool;
  pendingApprovals : gmap string Handler;
  sockets : gmap nat Socket;
  timers : gmap nat Timer;
  promises : gmap nat bool;
  callbacks : list Callback;
  next : nat
}.

Definition maxReconnectDelay : Z := 60000.

Definition create (agent : string) (cp : Schema.ControlPlane) (now : Z) : MoltAgentBridge :=
  {| agentId := agent; controlPlane := cp; ws := None; reconnectAttempt := O;
     heartbeatTimer := None; startTime := now; closed := false;
     pendingApprovals := ∅; sockets := ∅; timers := ∅; promises := ∅;
     callbacks := []; next := O |}.

Definition callback (c : Callback) (b : MoltAgentBridge) : MoltAgentBridge :=
  {| agentId := agentId b; controlPlane := controlPlane b; ws := ws b;
     reconnectAttempt := reconnectAttempt b; heartbeatTimer := heartbeatTimer b;
     startTime := startTime b; closed := closed b;
     pendingApprovals := pendingApprovals b; sockets := sockets b;
     timers := timers b; promises := promises b;
     callbacks := callbacks b ++ [c]; next := next b |}.

(** [setTimeout(f, delay)] and [setInterval(f, delay)]: the new timer
    gets the next free number. *)
Definition set_timer (t : Timer) (b : MoltAgentBridge) : nat * MoltAgentBridge :=
  (next b,
   {| agentId := agentId b; controlPlane := controlPlane b; ws := ws b;
      reconnectAttempt := reconnectAttempt b; heartbeatTimer := heartbeatTimer b;
      startTime := startTime b; closed := closed b;
      pendingApprovals := pendingApprovals b; sockets := sockets b;
      timers := <[next b := t]> (timers b); promises := promises b;
      callbacks := callbacks b; next := S (next b) |}).

(** [clearTimeout(t)] and [clearInterval(t)]. *)
Definition clear_timer (t : nat) (b : MoltAgentBridge) : MoltAgentBridge :=
  {| agentId := agentId b; controlPlane := controlPlane b; ws := ws b;
     reconnectAttempt := reconnectAttempt b; heartbeatTimer := heartbeatTimer b;
     startTime := startTime b; closed := closed b;
     pendingApprovals := pendingApprovals b; sockets := sockets b;
     timers := delete t (timers b); promises := promises b;
     callbacks := callbacks b; next := next b |}.

Definition set_heartbeatTimer (h : option nat) (b : MoltAgentBridge) : MoltAgentBridge :=
  {| agentId := agentId b; controlPlane := controlPlane b; ws := ws b;
     reconnectAttempt := reconnectAttempt b; heartbeatTimer := h;
     startTime := startTime b; closed := closed b;
     pendingApprovals := pendingApprovals b; sockets := sockets b;
     timers := timers b; promises := promises b;
     callbacks := callbacks b; next := next b |}.

Definition set_reconnectAttempt (n : nat) (b : MoltAgentBridge) : MoltAgentBridge :=
  {| agentId := agentId b; controlPlane := controlPlane b; ws := ws b;
     reconnectAttempt := n; heartbeatTimer := heartbeatTimer b;
     startTime := startTime b; closed := closed b;
     pendingApprovals := pendingApprovals b; sockets := sockets b;
     timers := timers b; promises := promises b;
     callbacks := callbacks b; next := next b |}.

Definition set_sockets (f : gmap nat Socket -> gmap nat Socket) (b : MoltAgentBridge)
    : MoltAgentBridge :=
  {| agentId := agentId b; controlPlane := controlPlane b; ws := ws b;
     reconnectAttempt := reconnectAttempt b; heartbeatTimer := heartbeatTimer b;
     startTime := startTime b; closed := closed b;
     pendingApprovals := pendingApprovals b; sockets := f (sockets b);
     timers := timers b; promises := promises b;
     callbacks := callbacks b; next := next b |}.

Definition set_pendingApprovals (f : gmap string Handler -> gmap string Handler)
    (b : MoltAgentBridge) : MoltAgentBridge :=
  {| agentId := agentId b; controlPlane := controlPlane b; ws := ws b;
     reconnectAttempt := reconnectAttempt b; heartbeatTimer := heartbeatTimer b;
     startTime := startTime b; closed := closed b;
     pendingApprovals := f (pendingApprovals b); sockets := sockets b;
     timers := timers b; promises := promises b;
     callbacks := callbacks b; next := next b |}.

(** Settling a promise: only the first [resolve] has an effect. *)
Definition settle (p : nat) (v : bool) (b : MoltAgentBridge) : MoltAgentBridge :=
  {| agentId := agentId b; controlPlane := controlPlane b; ws := ws b;
     reconnectAttempt := reconnectAttempt b; heartbeatTimer := heartbeatTimer b;
     startTime := startTime b; closed := closed b;
     pendingApprovals := pendingApprovals b; sockets := sockets b;
     timers := timers b;
     promises := match promises b !! p with
                 | Some _ => promises b
                 | None => <[p := v]> (promises b)
                 end;
     callbacks := callbacks b; next := next b |}.

(** [connect()]. *)
Definition connect (b : MoltAgentBridge) : MoltAgentBridge :=
  if closed b then b
  else
    let sock :=
      {| socket_url := Schema.url (controlPlane b) +:+ "?agentId=" +:+ agentId b;
         socket_authorization := "Bearer " +:+ Schema.token (controlPlane b);
         readyState := CONNECTING;
         sent := [] |} in
    {| agentId := agentId b; controlPlane := controlPlane b; ws := Some (next b);
       reconnectAttempt := reconnectAttempt b; heartbeatTimer := heartbeatTimer b;
       startTime := startTime b; closed := closed b;
       pendingApprovals := pendingApprovals b;
       sockets := <[next b := sock]> (sockets b);
       timers := timers b; promises := promises b;
       callbacks := callbacks b; next := S (next b) |}.

(** [send(msg)]. *)
Definition send (msg : Wire.AgentMessage) (b : MoltAgentBridge) : MoltAgentBridge :=
  match ws b with
  | None => b
  | Some w =>
      match sockets b !! w with
      | None => b
      | Some sock =>
          if is_open (readyState sock)
          then set_sockets (insert w
                 {| socket_url := socket_url sock;
                    socket_authorization := socket_authorization sock;
                    readyState := readyState sock;
                    sent := sent sock ++ [msg] |}) b
          else b
      end
  end.

(** [sendHeartbeat()]; [iso] is [new Date().toISOString()] and [now] is
    [Date.now()]. *)
Definition sendHeartbeat (iso : string) (now : Z) (b : MoltAgentBridge) : MoltAgentBridge :=
  send (Wire.heartbeat (agentId b) iso ((now - startTime b) / 1000)) b.

Definition sendStatus (report : Wire.AgentStatusReport) (b : MoltAgentBridge)
    : MoltAgentBridge :=
  send (Wire.status (agentId b) report) b.

Definition sendAction (entry : Wire.ActionLogEntry) (b : MoltAgentBridge)
    : MoltAgentBridge :=
  send (Wire.action (agentId b) entry) b.

(** [requestApproval(request)]: returns the number of the promise. *)
Definition requestApproval (request : Wire.ApprovalRequest) (b : MoltAgentBridge)
    : nat * MoltAgentBridge :=
  let p := next b in
  let b0 :=
    {| agentId := agentId b; controlPlane := controlPlane b; ws := ws b;
       reconnectAttempt := reconnectAttempt b; heartbeatTimer := heartbeatTimer b;
       startTime := startTime b; closed := closed b;
       pendingApprovals := pendingApprovals b; sockets := sockets b;
       timers := timers b; promises := promises b;
       callbacks := callbacks b; next := S (next b) |} in
  let '(t, b1) :=
    set_timer {| delay := 5 * 60 * 1000;
                 action := ApprovalTimeout (Wire.request_id request) p |} b0 in
  let handler :=
    {| handler_requestId := Wire.request_id request;
       handler_timeout := t;
       handler_promise := p |} in
  let b2 := set_pendingApprovals (insert (Wire.request_id request) handler) b1 in
  (p, send (Wire.approval_request (agentId b) request) b2).

(** The [cleanup] closure of [requestApproval]. *)
Definition cleanup (requestId : string) (timeout : nat) (b : MoltAgentBridge)
    : MoltAgentBridge :=
  set_pendingApprovals (delete requestId) (clear_timer timeout b).

(** [handleMessage(msg)]. *)
Definition handleMessage (msg : Wire.ControlMessage) (b : MoltAgentBridge)
    : MoltAgentBridge :=
  match msg with
  | Wire.approval_response requestId ok _ =>
      match pendingApprovals b !! requestId with
      | Some h =>
          if String.eqb requestId (handler_requestId h)
          then settle (handler_promise h) ok
                 (cleanup (handler_requestId h) (handler_timeout h) b)
          else b
      | None => b
      end
  | _ => b
  end.

Definition stopHeartbeat (b : MoltAgentBridge) : MoltAgentBridge :=
  match heartbeatTimer b with
  | Some t => set_heartbeatTimer None (clear_timer t b)
  | None => b
  end.

Definition startHeartbeat (b : MoltAgentBridge) : MoltAgentBridge :=
  let '(t, b1) :=
    set_timer {| delay := Schema.heartbeatIntervalSec (controlPlane b) * 1000;
                 action := Heartbeat |} (stopHeartbeat b) in
  set_heartbeatTimer (Some t) b1.

(** The delay computed by [scheduleReconnect] once the attempt counter
    has been incremented to [n]. *)
Definition reconnect_delay (n : nat) : Z :=
  Z.min (1000 * 2 ^ (Z.of_nat n - 1)) maxReconnectDelay.

(** [scheduleReconnect()]. *)
Definition scheduleReconnect (b : MoltAgentBridge) : MoltAgentBridge :=
  if closed b then b
  else
    let b1 := set_reconnectAttempt (S (reconnectAttempt b)) b in
    (set_timer {| delay := reconnect_delay (reconnectAttempt b1);
                  action := Reconnect |} b1).2.

(** [ws.close()] on a client socket. *)
Definition ws_close (sock : Socket) : Socket :=
  match readyState sock with
  | OPEN | CONNECTING =>
      {| socket_url := socket_url sock;
         socket_authorization := socket_authorization sock;
         readyState := CLOSING;
         sent := sent sock |}
  | CLOSING | CLOSED => sock
  end.

(** [close()]. *)
Definition close (b : MoltAgentBridge) : MoltAgentBridge :=
  let b1 :=
    stopHeartbeat
      {| agentId := agentId b; controlPlane := controlPlane b; ws := ws b;
         reconnectAttempt := reconnectAttempt b; heartbeatTimer := heartbeatTimer b;
         startTime := startTime b; closed := true;
         pendingApprovals := pendingApprovals b; sockets := sockets b;
         timers := timers b; promises := promises b;
         callbacks := callbacks b; next := next b |} in
  let b2 :=
    match ws b1 with
    | Some w => set_sockets (alter ws_close w) b1
    | None => b1
    end in
  {| agentId := agentId b2; controlPlane := controlPlane b2; ws := None;
     reconnectAttempt := reconnectAttempt b2; heartbeatTimer := heartbeatTimer b2;
     startTime := startTime b2; closed := closed b2;
     pendingApprovals := pendingApprovals b2; sockets := sockets b2;
     timers := timers b2; promises := promises b2;
     callbacks := callbacks b2; next := next b2 |}.

(** The listeners [connect] registers on the socket it creates. *)
Definition on_open (b : MoltAgentBridge) : MoltAgentBridge :=
  callback onConnected (startHeartbeat (set_reconnectAttempt O b)).

Definition on_message (msg : option Wire.ControlMessage) (b : MoltAgentBridge)
    : MoltAgentBridge :=
  match msg with
  | Some m => callback (onCommand m) b
  | None => b
  end.

Definition on_close (code reason : string) (b : MoltAgentBridge) : MoltAgentBridge :=
  scheduleReconnect
    (callback (onDisconnected ("code=" +:+ code +:+ " reason=" +:+ reason))
       (stopHeartbeat b)).

Definition on_error (message : string) (b : MoltAgentBridge) : MoltAgentBridge :=
  callback (onDisconnected ("error: " +:+ message)) b.

Definition set_readyState (r : ReadyState) (sock : Socket) : Socket :=
  {| socket_url := socket_url sock;
     socket_authorization := socket_authorization sock;
     readyState := r;
     sent := sent sock |}.

(** What can happen to a bridge: a call of one of its public methods, an
    event on one of the sockets it created (a frame that does not parse
    as JSON arrives as [None]; a close code comes as its decimal text),
    or a pending timer firing.  Timers set by [setTimeout] fire once; the
    heartbeat interval stays armed. *)
Inductive Event :=
| CallConnect
| CallClose
| CallSendHeartbeat (iso : string) (now : Z)
| CallSendStatus (report : Wire.AgentStatusReport)
| CallSendAction (entry : Wire.ActionLogEntry)
| CallRequestApproval (request : Wire.ApprovalRequest)
| CallHandleMessage (msg : Wire.ControlMessage)
| SocketOpen (w : nat)
| SocketMessage (w : nat) (msg : option Wire.ControlMessage)
| SocketClose (w : nat) (code reason : string)
| SocketError (w : nat) (message : string)
| TimerFired (t : nat) (iso : string) (now : Z).

Definition step (b : MoltAgentBridge) (e : Event) : MoltAgentBridge :=
  match e with
  | CallConnect => connect b
  | CallClose => close b
  | CallSendHeartbeat iso now => sendHeartbeat iso now b
  | CallSendStatus report => sendStatus report b
  | CallSendAction entry => sendAction entry b
  | CallRequestApproval request => (requestApproval request b).2
  | CallHandleMessage msg => handleMessage msg b
  | SocketOpen w =>
      match sockets b !! w with
      | Some sock =>
          match readyState sock with
          | CONNECTING => on_open (set_sockets (insert w (set_readyState OPEN sock)) b)
          | _ => b
          end
      | None => b
      end
  | SocketMessage w msg =>
      match sockets b !! w with
      | Some sock => if is_open (readyState sock) then on_message msg b else b
      | None => b
      end
  | SocketClose w code reason =>
      match sockets b !! w with
      | Some sock =>
          match readyState sock with
          | CLOSED => b
          | _ => on_close code reason (set_sockets (insert w (set_readyState CLOSED sock)) b)
          end
      | None => b
      end
  | SocketError w message =>
      match sockets b !! w with
      | Some _ => on_error message b
      | None => b
      end
  | TimerFired t iso now =>
      match timers b !! t with
      | None => b
      | Some timer =>
          match action timer with
          | Reconnect => connect (clear_timer t b)
          | Heartbeat => sendHeartbeat iso now b
          | ApprovalTimeout requestId p =>
              settle p false (cleanup requestId t (clear_timer t b))
          end
      end
  end.

Definition run (b : MoltAgentBridge) (es : list Event) : MoltAgentBridge :=
  fold_left step es b.

(** A pending reconnect: a timer that will call [connect] when it fires. *)
Definition reconnect_pending (b : MoltAgentBridge) (t : nat) (d : Z) : Prop :=
  timers b !! t = Some {| delay := d; action := Reconnect |}.

(** [b] is a state of the bridge after [close()] left it in [b0]: the
    sink flag is set, every pending reconnect was already pending in
    [b0], and every socket already existed in [b0]. *)
Definition after_close (b0 b : MoltAgentBridge) : Prop :=
  closed b = true
  /\ (forall t d, reconnect_pending b t d -> reconnect_pending b0 t d)
  /\ (forall w, is_Some (sockets b !! w) -> is_Some (sockets b0 !! w)).

(** [this.ws?.readyState === WebSocket.OPEN]. *)
Definition connected (b : MoltAgentBridge) : bool :=
  match ws b with
  | None => false
  | Some w =>
      match sockets b !! w with
      | Some sock => is_open (readyState sock)
      | None => false
      end
  end.

(** Every frame written so far, on whichever socket. *)
Definition frames (b : MoltAgentBridge) : gmap nat (list Wire.AgentMessage) :=
  sent <$> sockets b.

(** Numbers are handed out once: those from [next] on name no socket,
    timer or promise yet, and the promises that handlers and timeouts
    will settle have been handed out. *)
Definition numbered (b : MoltAgentBridge) : Prop :=
  (forall n, (next b <= n)%nat ->
     sockets b !! n = None /\ timers b !! n = None /\ promises b !! n = None)
  /\ (forall k h, pendingApprovals b !! k = Some h -> (handler_promise h < next b)%nat)
  /\ (forall t timer requestId p,
        timers b !! t = Some timer -> action timer = ApprovalTimeout requestId p ->
        (p < next b)%nat).

(** [b'] comes after [b]: the counter has not gone back, and whatever
    socket, timer, promise or handler [b'] has either was in [b] or got
    its number since. *)
Definition grows (b b' : MoltAgentBridge) : Prop :=
  (next b <= next b')%nat
  /\ (forall n, is_Some (sockets b' !! n) -> is_Some (sockets b !! n) \/ (n < next b')%nat)
  /\ (forall t timer, timers b' !! t = Some timer ->
        timers b !! t = Some timer
        \/ ((t < next b')%nat
            /\ forall requestId p, action timer = ApprovalTimeout requestId p ->
                                   (p < next b')%nat))
  /\ (forall n, is_Some (promises b' !! n) -> is_Some (promises b !! n) \/ (n < next b')%nat)
  /\ (forall k h, pendingApprovals b' !! k = Some h ->
        pendingApprovals b !! k = Some h \/ (handler_promise h < next b')%nat).

(** Every heartbeat interval that is armed is the one the bridge keeps
    in [heartbeatTimer], with the period of the manifest. *)
Definition one_heartbeat (b : MoltAgentBridge) : Prop :=
  forall t timer,
    timers b !! t = Some timer -> action timer = Heartbeat ->
    heartbeatTimer b = Some t
    /\ delay timer = Schema.heartbeatIntervalSec (controlPlane b) * 1000.

End Bridge.

(* ===================================================================== *)
(** ** cloud-init.ts: the bootstrap-script generator *)
(* ===================================================================== *)

Module CloudInit.

Section Generator.

(** [JSON.stringify] on a manifest and [Buffer.from(s).toString("base64")],
    which the generator calls and which read the whole manifest. *)
Variable JSON_stringify : Schema.MoltAgentManifest -> string.
Variable base64 : string -> string.




Definition nonempty {A} (xs : list A) : bool :=
  match xs with [] => false | _ => true end.


Definition npmGlobals (manifest : Schema.MoltAgentManifest) : string :=
  if nonempty (Schema.npmGlobals (Schema.capabilities manifest))
  then "npm install -g "
         +:+ Js.join " " (Schema.npmGlobals (Schema.capabilities manifest))
  else EmptyString.





(** Line 166 of the source ends the chain
    [url.replace("wss://", "https://").replace("ws://", "http://")] with
    a third [replace], whose pattern it spells with the backslash
    doubled.  Inside the substitution of a template that text is code,
    and there it is no regular expression followed by a second argument:
    the literal ends at its second slash and [ws$] is read as its flags.
    The module is therefore refused when it is loaded, and no call of
    [generateCloudInit] returns, until that pattern is corrected.  The
    third call is given no meaning here: it is some function of the text
    it is applied to.  With the pattern written with one backslash, the
    removal of a trailing [/ws], it is
    [Js.replace_suffix "/ws" EmptyString]. *)
Variable replace_line_166 : string -> string.



End Generator.

End CloudInit.

(* ===================================================================== *)
(** ** dashboard-api.ts: the route that destroys an agent *)
(* ===================================================================== *)

Module Dashboard.

(** The dependencies of [createDashboardApi].  [deps.fleet] and
    [deps.approvals] are the very objects the control-plane server was
    constructed with, so they are reached through it. *)
Record DashboardDeps := {
  controlPlane : ControlPlane.Server;
  provisioner : Provisioner.State;
  authToken : string
}.

Definition fleet (deps : DashboardDeps) : Fleet.FleetManager :=
  ControlPlane.fleet (controlPlane deps).

(** A request, with the two spellings of the header [checkAuth] reads. *)
Record Req := {
  method : string;
  path : string;
  headers_authorization : option string;
  headers_Authorization : option string
}.

Inductive Body :=
| ErrorBody (error : string)
| DestroyBody (ok : bool) (destroyResult : Provisioner.DestroyResult).

Record Res := {
  status : Z;
  body : Body
}.

Definition checkAuth (deps : DashboardDeps) (req : Req) : bool :=
  let auth :=
    match headers_authorization req with
    | Some a => a
    | None => default EmptyString (headers_Authorization req)
    end in
  String.eqb auth ("Bearer " +:+ authToken deps).

(** [s.toUpperCase()] on the ASCII letters a method name is made of. *)
Definition upper (c : Ascii.ascii) : Ascii.ascii :=
  let n := Ascii.nat_of_ascii c in
  if (97 <=? n)%nat && (n <=? 122)%nat then Ascii.ascii_of_nat (n - 32) else c.

Fixpoint toUpperCase (s : string) : string :=
  match s with
  | EmptyString => EmptyString
  | String c r => String (upper c) (toUpperCase r)
  end.

(** One pair of the query string:
    [const [k, v] = pair.split("=", 2);
     if (k) query[decodeURIComponent(k)] = decodeURIComponent(v ?? "")].
    The result is the assignment made, if any; it is [None] when one of
    the two calls throws. *)
Definition parse_pair (item : string) : option (option (list N * list N)) :=
  let '(k, v) := Js.split2 "="%char item in
  if Js.truthy_str k then
    match Js.decodeURIComponent k, Js.decodeURIComponent (default EmptyString v) with
    | Some key, Some value => Some (Some (key, value))
    | _, _ => None
    end
  else Some None.

(** The loop of [parseQuery] over [qs.split("&")]. *)
Fixpoint parse_pairs (pairs : list string) : option (list (list N * list N)) :=
  match pairs with
  | [] => Some []
  | item :: rest =>
      match parse_pair item with
      | None => None
      | Some assignment =>
          match parse_pairs rest with
          | None => None
          | Some query =>
              Some (match assignment with Some kv => kv :: query | None => query end)
          end
      end
  end.

(** [parseQuery(path)]: the clean path and the assignments made to
    [query], in order (a later one to the same key replaces an earlier
    one).  It is [None] when [decodeURIComponent] throws [URIError],
    which [parseQuery] does not catch. *)
Definition parseQuery (p : string) : option (string * list (list N * list N)) :=
  let '(clean, qs) := Js.split2 "?"%char p in
  match qs with
  | Some q =>
      if Js.truthy_str q then pair clean <$> parse_pairs (Js.split "&"%char q)
      else Some (clean, [])
  | None => Some (clean, [])
  end.

(** The argument of [parseQuery] in the handler:
    [req.path.replace(/^\/moltagent\/dashboard/, "") || "/"]. *)
Definition request_path (req : Req) : string :=
  let stripped := Js.replace_prefix "/moltagent/dashboard" EmptyString (path req) in
  if Js.truthy_str stripped then stripped else "/".

Fixpoint no_slash (s : string) : bool :=
  match s with
  | EmptyString => true
  | String c r => negb (Ascii.eqb c "/"%char) && no_slash r
  end.

(** [path.match(/^\/agents\/[^/]+$/)]. *)
Definition is_agent_path (p : string) : bool :=
  String.prefix "/agents/" p
  && Js.truthy_str (Js.skip 8 p) && no_slash (Js.skip 8 p).

(** What the [DELETE /agents/:id] route does once [provisioner.destroy]
    has answered with [result]: the fleet record is removed and the
    response built. *)
Definition delete_agent_finish (agentId : string) (result : Provisioner.DestroyResult)
    (deps : DashboardDeps) : Res * DashboardDeps :=
  ({| status := 200; body := DestroyBody true result |},
   {| controlPlane :=
        ControlPlane.set_fleet (fun fm => (Fleet.removeAgent agentId fm).2)
          (controlPlane deps);
      provisioner := provisioner deps;
      authToken := authToken deps |}).

(** The [DELETE /agents/:id] route. *)
Definition delete_agent (agentId : string) (deps : DashboardDeps) : Res * DashboardDeps :=
  let '(_, cp) := ControlPlane.sendToAgent agentId Wire.shutdown (controlPlane deps) in
  let '(result, prov) := Provisioner.destroy agentId (provisioner deps) in
  delete_agent_finish agentId result
    {| controlPlane := cp; provisioner := prov; authToken := authToken deps |}.

(** How a call of the handler ends: with a response, or with the
    [URIError] of [parseQuery], which the handler does not catch either
    (the promise it returns is rejected, and nothing has been changed by
    then). *)
Inductive Outcome :=
| Responded (res : Res) (deps : DashboardDeps)
| Threw (error : string).

(** The handler returned by [createDashboardApi], on the requests it
    answers with 401, on those whose query string makes [parseQuery]
    throw, and on those that reach the [DELETE /agents/:id] route.  The
    path is parsed before any route is tested; the routes tested before
    that one all require the method [GET] or [POST]; a request answered
    by another route gives [None]. *)
Definition handle (req : Req) (deps : DashboardDeps) : option Outcome :=
  if negb (checkAuth deps req)
  then Some (Responded {| status := 401; body := ErrorBody "Unauthorized" |} deps)
  else
    match parseQuery (request_path req) with
    | None => Some (Threw "URIError")
    | Some (p, _) =>
        if String.eqb (toUpperCase (method req)) "DELETE" && is_agent_path p
        then
          let '(res, deps') := delete_agent (Js.replace "/agents/" EmptyString p) deps in
          Some (Responded res deps')
        else None
    end.

(** The bodies of the command and approval routes. *)
Inductive Reply :=
| ErrorReply (error : string)
| SentReply (sent : bool) (agentOnline : option bool)
| ApprovalReply (approval : nat).

Record Answer := {
  answer_status : Z;
  answer_body : Reply
}.

Definition with_controlPlane (cp : ControlPlane.Server) (deps : DashboardDeps)
    : DashboardDeps :=
  {| controlPlane := cp; provisioner := provisioner deps; authToken := authToken deps |}.






Section Respond.

(** What the [onResolved] callback the approval manager was constructed
    with does to the control plane. *)
Variable onResolved : Approvals.PendingApproval -> ControlPlane.Server -> ControlPlane.Server.

(** The [POST /approvals/:id/respond] route, once the path has given
    [requestId]; [approved] is [None] when the field of the body is not
    a boolean, and [now] is the clock reading of [approvals.resolve].
    The callback runs inside [resolve], before the route relays the
    answer itself. *)
Definition post_respond (now : string) (requestId : string) (approved : option bool)
    (reason respondedBy : option string) (deps : DashboardDeps) : Answer * DashboardDeps :=
  match approved with
  | None =>
      ({| answer_status := 400;
          answer_body := ErrorReply "approved (boolean) is required" |}, deps)
  | Some ok =>
      let cp := controlPlane deps in
      let '(r, am) :=
        Approvals.resolve now requestId ok (default "dashboard" respondedBy) reason
          (ControlPlane.approvals cp) in
      match r, r ≫= (fun a => Approvals.heap am !! a) with
      | Some a, Some approval =>
          let cp1 := onResolved approval (ControlPlane.set_approvals (fun _ => am) cp) in
          let cp2 :=
            (ControlPlane.sendApprovalResponse (Approvals.agentId approval) requestId ok
               reason cp1).2 in
          ({| answer_status := 200; answer_body := ApprovalReply a |},
           with_controlPlane cp2 deps)
      | _, _ =>
          ({| answer_status := 404;
              answer_body := ErrorReply "Approval not found or already resolved" |}, deps)
      end
  end.

End Respond.

End Dashboard.

Module Orchestrator.

(** The [onResolved] callback the plugin constructs the approval manager
    with, once the control plane exists: the answer is relayed to the
    agent. *)
Definition onResolved (approval : Approvals.PendingApproval) (cp : ControlPlane.Server)
    : ControlPlane.Server :=
  (ControlPlane.sendApprovalResponse (Approvals.agentId approval) (Approvals.id approval)
     (Approvals.state_eqb (Approvals.state approval) Approvals.approved)
     (Approvals.reason approval) cp).2.

End Orchestrator.

Module Api.

(** The dependencies of [createApiHandler] the provisioning routes read. *)
Record ApiDeps := {
  provisioner : Provisioner.State;
  authToken : string
}.

Record ApiRequest := {
  method : string;
  path : string;
  headers_authorization : option string;
  headers_Authorization : option string
}.

Inductive Body :=
| ErrorBody (error : option string)
| OkBody
| InstancesBody (instances : list Provisioner.VpsInstance)
| InstanceBody (instance : Provisioner.VpsInstance).

Record ApiResponse := {
  status : Z;
  body : Body
}.

Definition checkAuth (req : ApiRequest) (token : string) : bool :=
  let auth :=
    match headers_authorization req with
    | Some a => a
    | None => default EmptyString (headers_Authorization req)
    end in
  String.eqb auth ("Bearer " +:+ token).

Section Handler.

Variable provider_status : string -> string -> option Provisioner.VpsInstance.

(** The handler returned by [createApiHandler], on the requests it
    answers with 401 or through the routes [DELETE /agents/:id],
    [GET /agents] and [GET /agents/:id]; a request answered by another
    route gives [None].  The only route tested before these is
    [POST /agents]. *)
Definition handle (req : ApiRequest) (deps : ApiDeps) : option (ApiResponse * ApiDeps) :=
  if negb (checkAuth req (authToken deps))
  then Some ({| status := 401; body := ErrorBody (Some "Unauthorized") |}, deps)
  else if String.eqb (method req) "POST" && String.eqb (path req) "/agents" then None
  else if String.eqb (method req) "DELETE" && Js.startsWith (path req) "/agents/" then
    let agentId := Js.replace "/agents/" EmptyString (path req) in
    let '(result, prov) := Provisioner.destroy agentId (provisioner deps) in
    let deps' := {| provisioner := prov; authToken := authToken deps |} in
    if negb (Provisioner.success result)
    then Some ({| status := 500; body := ErrorBody (Provisioner.destroy_error result) |}, deps')
    else Some ({| status := 200; body := OkBody |}, deps')
  else if String.eqb (method req) "GET" && String.eqb (path req) "/agents" then
    Some ({| status := 200;
             body := InstancesBody (Provisioner.listInstances (provisioner deps)) |}, deps)
  else if String.eqb (method req) "GET" && Js.startsWith (path req) "/agents/" then
    let agentId := Js.replace "/agents/" EmptyString (path req) in
    let '(instance, prov) :=
      Provisioner.getStatus provider_status agentId (provisioner deps) in
    let deps' := {| provisioner := prov; authToken := authToken deps |} in
    match instance with
    | None => Some ({| status := 404; body := ErrorBody (Some "Agent not found") |}, deps')
    | Some i => Some ({| status := 200; body := InstanceBody i |}, deps')
    end
  else None.

End Handler.

End Api.

Module LobeHub.

(** The table [pluginToSkill] of [mapPluginsToSkills], as its own
    properties. *)
Definition pluginToSkill_own (plugin : string) : option string :=
  if String.eqb plugin "web-browsing" then Some "coding-agent"
  else if String.eqb plugin "search-engine" then Some "coding-agent"
  else if String.eqb plugin "web-crawler" then Some "coding-agent"
  else if String.eqb plugin "github" then Some "github"
  else if String.eqb plugin "dalle-3" then Some "openai-image-gen"
  else if String.eqb plugin "stable-diffusion" then Some "openai-image-gen"
  else if String.eqb plugin "arxiv" then Some "coding-agent"
  else if String.eqb plugin "realtime-weather" then Some "weather"
  else None.

(** What the set of skills can hold: a name of the table, or, the table
    being a plain object, the function or object that [Object.prototype]
    holds under the name looked up (such as [constructor] or
    [toString]); two different names give two different values. *)
Inductive Skill :=
| Named (skill : string)
| Foreign (name : string).

Definition skill_eqb (x y : Skill) : bool :=
  match x, y with
  | Named a, Named b | Foreign a, Foreign b => String.eqb a b
  | _, _ => false
  end.

Section Lookup.

(** The names [Object.prototype] has a property for. *)
Variable inherited : string -> bool.

(** [pluginToSkill[plugin]], kept when it is truthy: every name of the
    table is a non-empty string and the inherited values are functions
    or objects. *)
Definition pluginToSkill (plugin : string) : option Skill :=
  match pluginToSkill_own plugin with
  | Some skill => Some (Named skill)
  | None => if inherited plugin then Some (Foreign plugin) else None
  end.

(** [skills.add(skill)] on a [Set], which keeps the order of first
    insertion. *)
Definition set_add (skill : Skill) (skills : list Skill) : list Skill :=
  if existsb (skill_eqb skill) skills then skills else skills ++ [skill].

Definition mapPluginsToSkills (plugins : list string) : list Skill :=
  fold_left (fun skills plugin =>
               match pluginToSkill plugin with
               | Some skill => set_add skill skills
               | None => skills
               end) plugins [].

End Lookup.

End LobeHub.

(* ===================================================================== *)
(** ** Sample data, used to instantiate the properties below *)
(* ===================================================================== *)

Module Samples.

Definition manifest1 : Schema.MoltAgentManifest :=
  {| Schema.identity :=
       {| Schema.identity_id := "agent-1"; Schema.identity_name := "a1";
          Schema.identity_ownerId := "owner" |};
     Schema.capabilities :=
       {| Schema.webBrowsing := false; Schema.repos := [];
          Schema.systemPackages := []; Schema.npmGlobals := [];
          Schema.pipPackages := [] |};
     Schema.resources :=
       {| Schema.serverType := "cpx21"; Schema.region := "nbg1";
          Schema.provider := "docker-local" |};
     Schema.controlPlane :=
       {| Schema.url := "ws://localhost:18790"; Schema.token := "T";
          Schema.heartbeatIntervalSec := 30 |};
     Schema.other := "{}" |}.

(** The same agent id with another name. *)
Definition manifest2 : Schema.MoltAgentManifest :=
  {| Schema.identity :=
       {| Schema.identity_id := "agent-1"; Schema.identity_name := "renamed";
          Schema.identity_ownerId := "owner" |};
     Schema.capabilities := Schema.capabilities manifest1;
     Schema.resources := Schema.resources manifest1;
     Schema.controlPlane := Schema.controlPlane manifest1;
     Schema.other := "{}" |}.

Definition noon : string := "2026-01-01T12:00:00.000Z".
Definition later : string := "2026-01-01T12:00:00.001Z".

Definition no_fleet : Fleet.FleetManager :=
  {| Fleet.agents := ∅; Fleet.dirty := false |}.

(** A fleet holding a fresh record for [agent-1]. *)
Definition fleet1 : Fleet.FleetManager :=
  Fleet.registerAgent noon manifest1 None no_fleet.

Definition entry (c : Wire.ActionCategory) (amount : Js.Value) : Wire.ActionLogEntry :=
  {| Wire.action_id := "act"; Wire.action_timestamp := noon; Wire.category := c;
     Wire.summary := "paid"; Wire.details := Some {[ "amount" := amount ]};
     Wire.durationMs := None |}.


(** A spend entry of 12.5 and a browse entry carrying the same amount. *)
Definition spend_12_5 : Wire.ActionLogEntry := entry Wire.spend (Js.Num 12.5%float).
Definition browse_12_5 : Wire.ActionLogEntry := entry Wire.browse (Js.Num 12.5%float).

(** A StringToNumber that reads no text as a number. *)
Definition no_numerals (s : string) : float := nan.

(** An approval request expiring one second after the epoch, and a
    [getTime] that reads that one date. *)
Definition second_one : string := "1970-01-01T00:00:01.000Z".

Definition request1 : Wire.ApprovalRequest :=
  {| Wire.request_id := "R1"; Wire.request_category := Wire.spend_request;
     Wire.request_description := "buy"; Wire.request_amount := Some 12.5%float;
     Wire.request_currency := Some "USD"; Wire.request_expiresAt := second_one |}.

Definition getTime (text : string) : option Z :=
  if String.eqb text second_one then Some 1000 else None.

(** A manager holding [request1], pending. *)
Definition approvals1 : Approvals.ApprovalManager :=
  (Approvals.addRequest noon "agent-1" request1 Approvals.empty).2.

(** A control plane at [/moltagent/ws] with token [T], and four requests
    for [agent-1]: the one the bridge of [manifest1] sends (token in the
    [Authorization] header), one with the token in the query, one with
    no token at all, and one with the token but no agent id. *)
Definition config1 : ControlPlane.ControlPlaneConfig :=
  {| ControlPlane.wsPath := "/moltagent/ws"; ControlPlane.authToken := "T" |}.

Definition request_header : ControlPlane.IncomingMessage :=
  {| ControlPlane.pathname := "/moltagent/ws";
     ControlPlane.searchParams := [("agentId", "agent-1")];
     ControlPlane.authorization := Some "Bearer T";
     ControlPlane.socket_remoteAddress := Some "10.0.0.7" |}.




(** A server that knows [agent-1] and has no session yet. *)
Definition server1 : ControlPlane.Server :=
  ControlPlane.create config1 fleet1 Approvals.empty.

(** The bridge of [manifest1], created at time 0: before it connects,
    while it is connecting, and once its first socket has opened. *)
Definition bridge_new : Bridge.MoltAgentBridge :=
  Bridge.create "agent-1" (Schema.controlPlane manifest1) 0.

Definition bridge_connecting : Bridge.MoltAgentBridge :=
  Bridge.run bridge_new [Bridge.CallConnect].

Definition bridge_open : Bridge.MoltAgentBridge :=
  Bridge.run bridge_new [Bridge.CallConnect; Bridge.SocketOpen O].

Definition report1 : Wire.AgentStatusReport :=
  {| Wire.state := Wire.idle; Wire.activeTask := None; Wire.channelsConnected := [];
     Wire.report_uptimeSec := 1%float; Wire.memoryUsageMb := 64%float;
     Wire.cpuPercent := 0%float; Wire.actionsToday := 0%float;
     Wire.spendToday := 0%float; Wire.goalProgress := [] |}.



(** A dashboard over [server1] with no instance indexed, and the request
    to delete [agent-1]. *)
Definition dashboard1 : Dashboard.DashboardDeps :=
  {| Dashboard.controlPlane := server1;
     Dashboard.provisioner :=
       {| Provisioner.providers := ∅; Provisioner.instances := ∅ |};
     Dashboard.authToken := "T" |}.

(** The same dashboard with an instance indexed for [agent-1] at a
    provider whose API answers every destroy with an error. *)
Definition failing_provider : Provisioner.VpsProvider :=
  {| Provisioner.provider_name := "hetzner";
     Provisioner.provider_destroy := fun _ =>
       {| Provisioner.success := false;
          Provisioner.destroy_error := Some "Hetzner API 500: " |} |}.

Definition instance1 : Provisioner.VpsInstance :=
  {| Provisioner.instance_id := "4711"; Provisioner.instance_provider := "hetzner";
     Provisioner.instance_status := Provisioner.running;
     Provisioner.ipv4 := "203.0.113.7"; Provisioner.ipv6 := EmptyString;
     Provisioner.instance_serverType := "cpx21"; Provisioner.instance_region := "nbg1";
     Provisioner.createdAt := noon; Provisioner.instance_agentId := "agent-1";
     Provisioner.providerMeta := ∅ |}.

Definition dashboard2 : Dashboard.DashboardDeps :=
  {| Dashboard.controlPlane := server1;
     Dashboard.provisioner :=
       {| Provisioner.providers := {[ "hetzner" := failing_provider ]};
          Provisioner.instances := {[ "agent-1" := instance1 ]} |};
     Dashboard.authToken := "T" |}.


(** The same request with a query string that is no escape. *)
Definition delete_request_malformed : Dashboard.Req :=
  {| Dashboard.method := "delete";
     Dashboard.path := "/moltagent/dashboard/agents/agent-1?%";
     Dashboard.headers_authorization := Some "Bearer T";
     Dashboard.headers_Authorization := None |}.

(** [server1] once [agent-1] has connected and has asked for the
    approval of [request1], with a dashboard over it. *)
Definition server_asking : ControlPlane.Server :=
  ControlPlane.run no_numerals server1
    [ControlPlane.Accept noon "agent-1" None;
     ControlPlane.Message later O (Wire.approval_request "agent-1" request1)].

Definition dashboard_asking : Dashboard.DashboardDeps :=
  {| Dashboard.controlPlane := server_asking;
     Dashboard.provisioner :=
       {| Provisioner.providers := ∅; Provisioner.instances := ∅ |};
     Dashboard.authToken := "T" |}.

(** A provider whose API carries out every request, and a provisioner
    that knows it and holds [instance1] for [agent-1]. *)
Definition working_provider : Provisioner.VpsProvider :=
  {| Provisioner.provider_name := "hetzner";
     Provisioner.provider_destroy := fun _ =>
       {| Provisioner.success := true; Provisioner.destroy_error := None |} |}.

Definition provisioner1 : Provisioner.State :=
  {| Provisioner.providers := {[ "hetzner" := working_provider ]};
     Provisioner.instances := {[ "agent-1" := instance1 ]} |}.

Definition creates_instance1 (name : string) (m : Schema.MoltAgentManifest)
    (cloudInit : string) : Provisioner.ProvisionResult :=
  {| Provisioner.provision_success := true;
     Provisioner.provision_instance := Some instance1;
     Provisioner.provision_error := None |}.

Definition status_unknown (name instanceId : string) : option Provisioner.VpsInstance :=
  None.

Definition api_delete_request : Api.ApiRequest :=
  {| Api.method := "DELETE"; Api.path := "/agents/agent-1";
     Api.headers_authorization := Some "Bearer T";
     Api.headers_Authorization := None |}.

End Samples.

(* ===================================================================== *)
(** * Properties *)
(* ===================================================================== *)

(** ** Fleet manager *)

Module FleetProps.
Import Fleet.

Lemma update_record_lookup agentId f fm record :
  agents fm !! agentId = Some record ->
  agents (update_record agentId f fm) !! agentId = Some (f record).
Proof.
  intros Hrec. unfold update_record. rewrite Hrec. simpl.
  apply lookup_insert_eq.
Qed.

Lemma update_record_absent agentId f fm :
  agents fm !! agentId = None -> update_record agentId f fm = fm.
Proof. intros Hrec. unfold update_record. now rewrite Hrec. Qed.

Lemma update_record_other agentId other f fm :
  agentId <> other ->
  agents (update_record agentId f fm) !! other = agents fm !! other.
Proof.
  intros Hne. unfold update_record.
  destruct (agents fm !! agentId); [simpl; now apply lookup_insert_ne | reflexivity].
Qed.

Lemma unshift_capped_length {A} cap (x : A) xs :
  (length (unshift_capped cap x xs) <= cap)%nat.
Proof. unfold unshift_capped. rewrite length_take. lia. Qed.

Section Spend.

Variable StringToNumber : string -> float.





Lemma increment_exact (n : Z) : - 2 ^ 53 <= n < 2 ^ 53 -> Js.increment n = n + 1.
Proof.
  intros [Hlo Hhi]. unfold Js.increment.
  destruct (Z.leb_spec (- 2 ^ 53) n); [|lia].
  destruct (Z.ltb_spec n (2 ^ 53)); [reflexivity | lia].
Qed.


End Spend.

End FleetProps.

Module FleetClaims.
Import Fleet FleetProps.




(** C6: [registerAgent] for an agent id that already has a record keeps
    that record's [totalActions], [totalSpend], recent actions, recent
    errors and [deployedAt], and replaces the manifest and the instance;
    [deployedAt] is the time of the call only when there was no record.
    Hence a second registration of the same id leaves the counters, the
    rings and [deployedAt] as the first one left them. *)
Theorem registerAgent_preserves (now : string) (m : Schema.MoltAgentManifest)
    (inst : option Provisioner.VpsInstance) (fm : FleetManager) :
  let agentId := Schema.identity_id (Schema.identity m) in
  exists record,
    agents (registerAgent now m inst fm) !! agentId = Some record
    /\ manifest record = m
    /\ instance record = inst
    /\ match agents fm !! agentId with
       | Some old =>
           totalActions record = totalActions old
           /\ totalSpend record = totalSpend old
           /\ recentActions record = recentActions old
           /\ recentErrors record = recentErrors old
           /\ deployedAt record = deployedAt old
       | None =>
           totalActions record = 0
           /\ totalSpend record = 0%float
           /\ recentActions record = []
           /\ recentErrors record = []
           /\ deployedAt record = now
       end
    /\ forall now2 m2 inst2,
         Schema.identity_id (Schema.identity m2) = agentId ->
         exists record2,
           agents (registerAgent now2 m2 inst2 (registerAgent now m inst fm)) !! agentId
             = Some record2
           /\ manifest record2 = m2
           /\ instance record2 = inst2
           /\ totalActions record2 = totalActions record
           /\ totalSpend record2 = totalSpend record
           /\ recentActions record2 = recentActions record
           /\ recentErrors record2 = recentErrors record
           /\ deployedAt record2 = deployedAt record.
Proof.
  intros agentId. eexists. split.
  { unfold registerAgent. cbn [agents markDirty]. apply lookup_insert_eq. }
  split; [reflexivity|]. split; [reflexivity|]. split.
  - cbn [totalActions totalSpend recentActions recentErrors deployedAt].
    fold agentId. destruct (agents fm !! agentId); cbn; repeat split.
  - intros now2 m2 inst2 Hid. eexists. split.
    { unfold registerAgent at 1. cbn [agents markDirty]. rewrite Hid.
      apply lookup_insert_eq. }
    unfold registerAgent. cbn [agents markDirty]. fold agentId.
    rewrite lookup_insert_eq. cbn. repeat split.
Qed.

(** C6, witness: [agent-1] has spent 12.5 in one action when it is
    registered again under a new manifest. *)
Lemma registerAgent_preserves_witness :
  exists record,
    agents (registerAgent Samples.later Samples.manifest2 None
              (recordAction Samples.no_numerals "agent-1" Samples.spend_12_5 Samples.fleet1))
      !! "agent-1" = Some record
    /\ manifest record = Samples.manifest2
    /\ totalActions record = 1
    /\ totalSpend record = 12.5%float
    /\ recentActions record = [Samples.spend_12_5]
    /\ deployedAt record = Samples.noon.
Proof.
  destruct (registerAgent_preserves Samples.later Samples.manifest2 None
              (recordAction Samples.no_numerals "agent-1" Samples.spend_12_5 Samples.fleet1))
    as (r & Hr & Hm & _ & Hold & _).
  exists r. split; [exact Hr|]. split; [exact Hm|].
  vm_compute in Hold. destruct Hold as (Ha & Hs & Hra & _ & Hd).
  split; [exact Ha|]. split; [exact Hs|]. split; [exact Hra | exact Hd].
Defined.

End FleetClaims.

(** ** Approval manager *)

Module ApprovalProps.
Import Approvals.

Section Maps.
Context {V : Type}.
Implicit Types (m pre l : list (string * V)) (e x : string * V).

Lemma map_get_elem k v m : map_get k m = Some v -> (k, v) ∈ m.
Proof.
  unfold map_get. destruct (List.find _ m) as [[k' v']|] eqn:Hf; [|discriminate].
  intros [= <-]. apply find_some in Hf as [Hin Hk].
  apply String.eqb_eq in Hk. simpl in Hk. subst k'. now apply list_elem_of_In.
Qed.

Lemma map_get_delete k m : map_get k (map_delete k m) = None.
Proof.
  unfold map_get, map_delete.
  destruct (List.find _ _) as [[k' v']|] eqn:Hf; [|reflexivity].
  apply find_some in Hf as [Hin Hk]. apply filter_In in Hin as [_ Hne].
  simpl in *. now rewrite Hk in Hne.
Qed.

Lemma map_delete_elem e k m : e ∈ map_delete k m <-> e ∈ m /\ e.1 <> k.
Proof.
  unfold map_delete. rewrite !list_elem_of_In, filter_In.
  rewrite negb_true_iff. split; intros [H1 H2]; split; try assumption.
  - intros Heq. apply String.eqb_eq in Heq. congruence.
  - destruct (String.eqb e.1 k) eqn:E; [|reflexivity].
    apply String.eqb_eq in E. contradiction.
Qed.

Lemma NoDup_fmap_filter {B} (f : string * V -> B) p m :
  NoDup (f <$> m) -> NoDup (f <$> List.filter p m).
Proof.
  induction m as [|e m IH]; simpl; [trivial|].
  intros Hnd. apply NoDup_cons in Hnd as [Hni Hnd].
  destruct (p e); simpl; [|now apply IH].
  apply NoDup_cons. split; [|now apply IH].
  intros Hin. apply Hni. apply list_elem_of_fmap in Hin as (e' & -> & Hin).
  apply list_elem_of_fmap. exists e'. split; [reflexivity|].
  apply list_elem_of_In in Hin. apply filter_In in Hin as [Hin _]. now apply list_elem_of_In.
Qed.

Lemma NoDup_snd_inj m e e' :
  NoDup (snd <$> m) -> e ∈ m -> e' ∈ m -> e.2 = e'.2 -> e = e'.
Proof.
  induction m as [|x m IH]; intros Hnd He He' Heq.
  - now apply elem_of_nil in He.
  - simpl in Hnd. apply NoDup_cons in Hnd as [Hni Hnd].
    apply elem_of_cons in He as [->|He]; apply elem_of_cons in He' as [->|He'].
    + reflexivity.
    + exfalso. apply Hni. rewrite Heq. apply list_elem_of_fmap. eauto.
    + exfalso. apply Hni. rewrite <- Heq. apply list_elem_of_fmap. eauto.
    + now apply IH.
Qed.

Lemma NoDup_fst_inj m e e' :
  NoDup (fst <$> m) -> e ∈ m -> e' ∈ m -> e.1 = e'.1 -> e = e'.
Proof.
  induction m as [|x m IH]; intros Hnd He He' Heq.
  - now apply elem_of_nil in He.
  - simpl in Hnd. apply NoDup_cons in Hnd as [Hni Hnd].
    apply elem_of_cons in He as [->|He]; apply elem_of_cons in He' as [->|He'].
    + reflexivity.
    + exfalso. apply Hni. rewrite Heq. apply list_elem_of_fmap. eauto.
    + exfalso. apply Hni. rewrite <- Heq. apply list_elem_of_fmap. eauto.
    + now apply IH.
Qed.

Lemma map_get_delete_ne k k' m :
  k <> k' -> map_get k' (map_delete k m) = map_get k' m.
Proof.
  intros Hne. unfold map_get, map_delete. f_equal.
  induction m as [|[k0 v0] m IH]; simpl; [reflexivity|].
  destruct (String.eqb k0 k) eqn:E; simpl.
  - apply String.eqb_eq in E. subst k0.
    destruct (String.eqb k k') eqn:E'; [|exact IH].
    apply String.eqb_eq in E'. contradiction.
  - destruct (String.eqb k0 k'); [reflexivity | exact IH].
Qed.

Lemma map_get_filter_none p k m :
  NoDup (fst <$> m) ->
  (forall e, e ∈ m -> e.1 = k -> p e = false) ->
  map_get k (List.filter p m) = None.
Proof.
  intros Hnd Hp. unfold map_get.
  destruct (List.find _ _) as [e|] eqn:Hf; [|reflexivity].
  apply find_some in Hf as [Hin Hk]. apply filter_In in Hin as [Hin Hpe].
  apply String.eqb_eq in Hk. rewrite (Hp e) in Hpe; [discriminate| |assumption].
  now apply list_elem_of_In.
Qed.

Lemma map_delete_middle pre e l :
  NoDup (fst <$> (pre ++ e :: l)) -> map_delete e.1 (pre ++ e :: l) = pre ++ l.
Proof.
  intros Hnd. unfold map_delete. rewrite List.filter_app. simpl.
  rewrite String.eqb_refl. simpl.
  rewrite fmap_app in Hnd. simpl in Hnd.
  apply NoDup_app in Hnd as (_ & Hdisj & Hnd).
  apply NoDup_cons in Hnd as [Hni _].
  f_equal.
  - apply forallb_filter_id. apply forallb_forall. intros x Hx.
    apply negb_true_iff. destruct (String.eqb x.1 e.1) eqn:E; [|reflexivity].
    apply String.eqb_eq in E. exfalso.
    apply (Hdisj e.1); [apply list_elem_of_fmap; exists x; split; [congruence|now apply list_elem_of_In] | left].
  - apply forallb_filter_id. apply forallb_forall. intros x Hx.
    apply negb_true_iff. destruct (String.eqb x.1 e.1) eqn:E; [|reflexivity].
    apply String.eqb_eq in E. exfalso. apply Hni.
    apply list_elem_of_fmap. exists x. split; [congruence | now apply list_elem_of_In].
Qed.

Lemma map_set_elem k v m e : e ∈ map_set k v m -> e = (k, v) \/ e ∈ m.
Proof.
  induction m as [|[k' v'] m IH]; simpl.
  - intros H. apply list_elem_of_singleton in H. now left.
  - destruct (String.eqb k' k) eqn:E.
    + intros H. apply elem_of_cons in H as [->|H]; [now left|].
      right. now apply elem_of_cons; right.
    + intros H. apply elem_of_cons in H as [->|H].
      * right. apply elem_of_cons; now left.
      * destruct (IH H) as [->|H']; [now left|]. right. apply elem_of_cons; now right.
Qed.

Lemma map_set_keys k v m :
  NoDup (fst <$> m) -> NoDup (fst <$> map_set k v m).
Proof.
  induction m as [|[k' v'] m IH]; simpl; intros Hnd.
  - apply NoDup_singleton.
  - apply NoDup_cons in Hnd as [Hni Hnd].
    destruct (String.eqb k' k) eqn:E; simpl.
    + apply String.eqb_eq in E. subst k'. apply NoDup_cons. now split.
    + apply NoDup_cons. split; [|now apply IH].
      intros Hin. apply list_elem_of_fmap in Hin as (e & He1 & He).
      apply map_set_elem in He as [->|He].
      * simpl in He1. subst k'. now rewrite String.eqb_refl in E.
      * apply Hni. apply list_elem_of_fmap. eauto.
Qed.

Lemma map_set_values k v m :
  NoDup (snd <$> m) -> v ∉ snd <$> m -> NoDup (snd <$> map_set k v m).
Proof.
  induction m as [|[k' v'] m IH]; simpl; intros Hnd Hv.
  - apply NoDup_singleton.
  - apply NoDup_cons in Hnd as [Hni Hnd].
    apply not_elem_of_cons in Hv as [Hne Hv].
    destruct (String.eqb k' k) eqn:E; simpl.
    + apply NoDup_cons. now split.
    + apply NoDup_cons. split; [|now apply IH].
      intros Hin. apply list_elem_of_fmap in Hin as (e & He1 & He).
      apply map_set_elem in He as [->|He].
      * simpl in He1. congruence.
      * apply Hni. apply list_elem_of_fmap. eauto.
Qed.

End Maps.

Lemma take_app_take {A} (xs ys : list A) (n : nat) : forall m,
  (m <= n)%nat -> take m (xs ++ take n ys) = take m (xs ++ ys).
Proof.
  induction xs as [|x xs IH]; intros m Hm; simpl.
  - rewrite take_take. f_equal. lia.
  - destruct m as [|m]; [reflexivity|]. simpl. f_equal. apply IH. lia.
Qed.

Lemma addToHistory_length a h : (length (addToHistory a h) <= maxHistory)%nat.
Proof. unfold addToHistory. rewrite length_take. lia. Qed.

Section Scan.

Variable getTime : string -> option Z.
Variable now : Z.

Lemma expire_entry_stale am e :
  stale getTime now am e = true ->
  exists approval,
    heap am !! e.2 = Some approval
    /\ state approval = pending
    /\ is_past getTime now approval = true
    /\ expire_entry getTime now am e =
         {| heap := <[e.2 := with_state expired approval]> (heap am);
            next := next am;
            queue := map_delete e.1 (queue am);
            history := addToHistory e.2 (history am);
            calls := calls am ++ [onResolved (with_state expired approval)] |}.
Proof.
  unfold stale, expire_entry. destruct (heap am !! e.2) as [approval|]; [|discriminate].
  intros Hs. exists approval. rewrite Hs.
  apply andb_true_iff in Hs as [Hp Ht].
  repeat split; try assumption. now destruct (state approval).
Qed.

Lemma expire_entry_fresh am e :
  stale getTime now am e = false -> expire_entry getTime now am e = am.
Proof.
  unfold stale, expire_entry. destruct (heap am !! e.2); [|reflexivity].
  now intros ->.
Qed.

Lemma stale_ext am am' e :
  heap am' !! e.2 = heap am !! e.2 -> stale getTime now am' e = stale getTime now am e.
Proof. unfold stale. now intros ->. Qed.

Lemma expire_fold l : forall am pre,
  queue am = pre ++ l ->
  NoDup (fst <$> (pre ++ l)) ->
  NoDup (snd <$> (pre ++ l)) ->
  (length (history am) <= maxHistory)%nat ->
  let am' := fold_left (expire_entry getTime now) l am in
  queue am' = pre ++ List.filter (fun e => negb (stale getTime now am e)) l
  /\ history am' =
       take maxHistory (rev (snd <$> List.filter (stale getTime now am) l) ++ history am)
  /\ next am' = next am
  /\ forall a, heap am' !! a =
       if decide (a ∈ snd <$> List.filter (stale getTime now am) l)
       then with_state expired <$> heap am !! a
       else heap am !! a.
Proof.
  induction l as [|e l IH]; intros am pre Hq Hk Hv Hh; simpl.
  - split; [now rewrite Hq|]. split; [now rewrite take_ge|]. split; [reflexivity|].
    intros a. reflexivity.
  - assert (Hothers : forall x, In x l -> x.2 <> e.2).
    { intros x Hx Heq. rewrite fmap_app in Hv. apply NoDup_app in Hv as (_ & _ & Hv).
      simpl in Hv. apply NoDup_cons in Hv as [Hni _]. apply Hni.
      rewrite <- Heq. apply list_elem_of_fmap. exists x.
      split; [reflexivity | now apply list_elem_of_In]. }
    destruct (stale getTime now am e) eqn:Hs; simpl.
    + destruct (expire_entry_stale am e Hs) as (approval & Hheap & Hpend & Hpast & ->).
      set (am1 := {| heap := _ |}).
      assert (Hsame : forall x, In x l -> stale getTime now am1 x = stale getTime now am x).
      { intros x Hx. apply stale_ext. unfold am1; simpl.
        apply lookup_insert_ne. intros Heq. now apply (Hothers x Hx). }
      destruct (IH am1 pre) as (Hq' & Hh' & Hn' & Hheap').
      * unfold am1; simpl. rewrite Hq. now apply map_delete_middle.
      * rewrite fmap_app in Hk |- *. simpl in Hk.
        apply NoDup_app in Hk as (H1 & H2 & H3). apply NoDup_cons in H3 as [_ H3].
        apply NoDup_app. repeat split; try assumption.
        intros x Hx Hx'. apply (H2 x Hx). now right.
      * rewrite fmap_app in Hv |- *. simpl in Hv.
        apply NoDup_app in Hv as (H1 & H2 & H3). apply NoDup_cons in H3 as [_ H3].
        apply NoDup_app. repeat split; try assumption.
        intros x Hx Hx'. apply (H2 x Hx). now right.
      * unfold am1; cbn [history]. apply addToHistory_length.
      * assert (Hf1 : List.filter (fun x => negb (stale getTime now am1 x)) l
                      = List.filter (fun x => negb (stale getTime now am x)) l).
        { apply List.filter_ext_in. intros x Hx. now rewrite Hsame. }
        assert (Hf2 : List.filter (stale getTime now am1) l
                      = List.filter (stale getTime now am) l).
        { apply List.filter_ext_in. exact Hsame. }
        rewrite Hf1 in Hq'. rewrite Hf2 in Hh'.
        assert (Hheap'' : forall a, heap (fold_left (expire_entry getTime now) l am1) !! a =
                  if decide (a ∈ snd <$> List.filter (stale getTime now am) l)
                  then with_state expired <$> heap am1 !! a else heap am1 !! a).
        { intros a. rewrite <- Hf2. apply Hheap'. }
        clear Hheap'. rename Hheap'' into Hheap'.
        split; [exact Hq'|]. split; [|split; [exact Hn'|]].
        -- rewrite Hh'. unfold am1; simpl. unfold addToHistory.
           rewrite take_app_take by lia. now rewrite <- app_assoc.
        -- intros a. rewrite Hheap'. unfold am1; cbn [heap].
           assert (Hnot : e.2 ∉ snd <$> List.filter (stale getTime now am) l).
           { intros Hin. apply list_elem_of_fmap in Hin as (x & Hx2 & Hx).
             apply list_elem_of_In, filter_In in Hx as [Hx _].
             now apply (Hothers x Hx). }
           destruct (decide (a = e.2)) as [->|Hne].
           ++ rewrite lookup_insert_eq, Hheap.
              destruct (decide (e.2 ∈ snd <$> List.filter _ l)); [contradiction|].
              destruct (decide (e.2 ∈ e.2 :: _)) as [_|Hn]; [reflexivity|].
              exfalso. apply Hn. now left.
           ++ rewrite lookup_insert_ne by congruence.
              destruct (decide (a ∈ snd <$> List.filter _ l)) as [Hin|Hnin];
                destruct (decide (a ∈ e.2 :: _)) as [Hin'|Hnin']; try reflexivity.
              ** exfalso. apply Hnin'. now right.
              ** exfalso. apply elem_of_cons in Hin' as [?|?]; contradiction.
    + rewrite (expire_entry_fresh am e Hs).
      destruct (IH am (pre ++ [e])) as (Hq' & Hh' & Hn' & Hheap').
      * now rewrite <- app_assoc.
      * now rewrite <- app_assoc.
      * now rewrite <- app_assoc.
      * exact Hh.
      * rewrite <- app_assoc in Hq'. now repeat split.
Qed.

Lemma expireStale_spec am :
  wf am ->
  let am' := expireStale getTime now am in
  queue am' = List.filter (fun e => negb (stale getTime now am e)) (queue am)
  /\ history am' =
       take maxHistory (rev (snd <$> List.filter (stale getTime now am) (queue am))
                        ++ history am)
  /\ next am' = next am
  /\ forall a, heap am' !! a =
       if decide (a ∈ snd <$> List.filter (stale getTime now am) (queue am))
       then with_state expired <$> heap am !! a
       else heap am !! a.
Proof.
  intros (Hk & Hv & _ & _ & Hh). apply (expire_fold (queue am) am []); [reflexivity | exact Hk | exact Hv | exact Hh].
Qed.

Lemma stale_elem am e :
  e ∈ List.filter (stale getTime now am) (queue am) <->
  e ∈ queue am /\ stale getTime now am e = true.
Proof. rewrite !list_elem_of_In. apply filter_In. Qed.

Lemma stale_address am a :
  a ∈ snd <$> List.filter (stale getTime now am) (queue am) ->
  exists approval,
    heap am !! a = Some approval /\ state approval = pending
    /\ is_past getTime now approval = true.
Proof.
  intros Hin. apply list_elem_of_fmap in Hin as (e & -> & He).
  apply stale_elem in He as [_ Hs].
  destruct (expire_entry_stale am e Hs) as (approval & H1 & H2 & H3 & _). eauto.
Qed.

Lemma wf_expireStale am : wf am -> wf (expireStale getTime now am).
Proof.
  intros Hwf. destruct (expireStale_spec am Hwf) as (Hq & Hh & Hn & Hheap).
  destruct Hwf as (Hk & Hv & Hpend & Hdom & Hlen).
  unfold wf. rewrite Hq, Hh, Hn. repeat split.
  - now apply NoDup_fmap_filter.
  - now apply NoDup_fmap_filter.
  - intros e He. apply list_elem_of_In, filter_In in He as [He Hs].
    apply list_elem_of_In in He. apply negb_true_iff in Hs.
    rewrite Hheap. rewrite decide_False; [now apply Hpend|].
    intros Hin. apply list_elem_of_fmap in Hin as (e' & Heq & He').
    apply stale_elem in He' as [He' Hs'].
    rewrite (NoDup_snd_inj (queue am) e e' Hv He He' Heq) in Hs. congruence.
  - intros a. rewrite Hheap. intros Hsome. apply Hdom.
    case_decide; [|assumption].
    destruct (heap am !! a); [eauto | now destruct Hsome].
  - rewrite length_take. lia.
Qed.

End Scan.

Lemma wf_empty : wf empty.
Proof.
  unfold wf, empty; simpl. repeat split; try apply NoDup_nil_2.
  - intros e He. now apply elem_of_nil in He.
  - intros a [x Hx]. now rewrite lookup_empty in Hx.
  - unfold maxHistory. lia.
Qed.

Lemma queue_below_next am e : wf am -> e ∈ queue am -> (e.2 < next am)%nat.
Proof.
  intros (_ & _ & Hpend & Hdom & _) He. apply Hdom.
  destruct (Hpend e He) as (approval & H & _). eauto.
Qed.

Lemma wf_addRequest iso agent request am :
  wf am -> wf (addRequest iso agent request am).2.
Proof.
  intros Hwf. pose proof Hwf as (Hk & Hv & Hpend & Hdom & Hlen).
  unfold addRequest, wf; cbn [snd heap next queue history]. repeat split.
  - now apply map_set_keys.
  - apply map_set_values; [assumption|].
    intros Hin. apply list_elem_of_fmap in Hin as (e & Heq & He).
    pose proof (queue_below_next am e Hwf He). lia.
  - intros e He. apply map_set_elem in He as [->|He]; cbn [snd].
    + rewrite lookup_insert_eq. eauto.
    + pose proof (queue_below_next am e Hwf He).
      rewrite lookup_insert_ne by lia. now apply Hpend.
  - intros a Hsome. destruct (decide (a = next am)) as [->|Hne]; [lia|].
    rewrite lookup_insert_ne in Hsome by congruence.
    pose proof (Hdom a Hsome). lia.
  - assumption.
Qed.

Lemma wf_resolve iso requestId ok by_ why am :
  wf am -> wf (resolve iso requestId ok by_ why am).2.
Proof.
  intros Hwf. pose proof Hwf as (Hk & Hv & Hpend & Hdom & Hlen).
  unfold resolve.
  destruct (map_get requestId (queue am)) as [a|] eqn:Hget; [|assumption].
  destruct (heap am !! a) as [approval|] eqn:Hheap; [|assumption].
  destruct (is_pending (state approval)); [|assumption].
  apply map_get_elem in Hget.
  unfold wf; cbn [snd heap next queue history]. repeat split.
  - now apply NoDup_fmap_filter.
  - now apply NoDup_fmap_filter.
  - intros e He. apply map_delete_elem in He as [He Hne].
    rewrite lookup_insert_ne; [now apply Hpend|].
    intros Heq. apply Hne.
    now rewrite <- (NoDup_snd_inj (queue am) (requestId, a) e Hv Hget He Heq).
  - intros a' Hsome. apply Hdom. destruct (decide (a' = a)) as [->|Hne]; [eauto|].
    now rewrite lookup_insert_ne in Hsome by congruence.
  - apply addToHistory_length.
Qed.

Section Reach.

Variable getTime : string -> option Z.

Lemma wf_apply am op : wf am -> wf (apply getTime am op).
Proof.
  destruct op; simpl; [apply wf_addRequest | apply wf_resolve | apply wf_expireStale].
Qed.

Lemma wf_run ops : forall am, wf am -> wf (run getTime am ops).
Proof.
  induction ops as [|op ops IH]; intros am Hwf; simpl; [assumption|].
  apply IH. now apply wf_apply.
Qed.

(** An approval that is not pending is left as it is by every operation. *)
Lemma terminal_kept am op a approval :
  wf am -> heap am !! a = Some approval -> state approval <> pending ->
  heap (apply getTime am op) !! a = Some approval.
Proof.
  intros Hwf Ha Hterm. destruct op as [iso agent request|iso requestId ok by_ why|now]; simpl.
  - destruct Hwf as (_ & _ & _ & Hdom & _).
    assert (a < next am)%nat by (apply Hdom; eauto).
    rewrite lookup_insert_ne by lia. assumption.
  - unfold resolve.
    destruct (map_get requestId (queue am)) as [a'|]; [|assumption].
    destruct (heap am !! a') as [approval'|] eqn:Hheap; [|assumption].
    destruct (is_pending (state approval')) eqn:Hp; [|assumption].
    cbn [snd heap]. rewrite lookup_insert_ne; [assumption|].
    intros ->. rewrite Ha in Hheap. injection Hheap as ->.
    destruct (state approval'); try discriminate. now apply Hterm.
  - destruct (expireStale_spec getTime now am Hwf) as (_ & _ & _ & Hheap).
    rewrite Hheap. case_decide as Hin; [|assumption].
    destruct (stale_address getTime now am a Hin) as (approval' & H1 & H2 & _).
    rewrite Ha in H1. injection H1 as ->. contradiction.
Qed.

(** An approval found expired after an operation either was so before, or
    was pending and has been expired by a scan run after its [expiresAt]. *)
Lemma expired_origin am op a approval' :
  wf am -> heap (apply getTime am op) !! a = Some approval' -> state approval' = expired ->
  heap am !! a = Some approval'
  \/ exists now t approval,
       op = ExpireStale now
       /\ heap am !! a = Some approval
       /\ state approval = pending
       /\ approval' = with_state expired approval
       /\ getTime (expiresAt approval) = Some t
       /\ t < now.
Proof.
  intros Hwf Ha Hexp. destruct op as [iso agent request|iso requestId ok by_ why|now]; simpl in Ha.
  - destruct (decide (a = next am)) as [->|Hne].
    + rewrite lookup_insert_eq in Ha. injection Ha as <-. discriminate.
    + rewrite lookup_insert_ne in Ha by congruence. now left.
  - unfold resolve in Ha.
    destruct (map_get requestId (queue am)) as [a'|]; [|now left].
    destruct (heap am !! a') as [approval0|] eqn:Hheap; [|now left].
    destruct (is_pending (state approval0)) eqn:Hp; [|now left].
    cbn [snd heap] in Ha. destruct (decide (a = a')) as [->|Hne].
    + rewrite lookup_insert_eq in Ha. injection Ha as <-.
      simpl in Hexp. now destruct ok.
    + rewrite lookup_insert_ne in Ha by congruence. now left.
  - destruct (expireStale_spec getTime now am Hwf) as (_ & _ & _ & Hheap).
    rewrite Hheap in Ha. case_decide as Hin; [|now left].
    destruct (stale_address getTime now am a Hin) as (approval & H1 & H2 & H3).
    right. rewrite H1 in Ha. injection Ha as <-.
    unfold is_past in H3. destruct (getTime (expiresAt approval)) as [t|] eqn:Ht; [|discriminate].
    exists now, t, approval. repeat split; try assumption. lia.
Qed.

Lemma terminal_final ops : forall am a approval,
  wf am -> heap am !! a = Some approval -> state approval <> pending ->
  heap (run getTime am ops) !! a = Some approval.
Proof.
  induction ops as [|op ops IH]; intros am a approval Hwf Ha Hterm; simpl; [assumption|].
  apply IH; [now apply wf_apply | now apply terminal_kept | assumption].
Qed.

End Reach.

End ApprovalProps.

Module ApprovalClaims.
Import Approvals ApprovalProps.

(** C3: [resolve] returns [null] and changes nothing when the id is not
    in the queue or its entry is not pending; on a pending entry it sets
    the state to [approved] or [denied] as asked, stamps the responder,
    the reason and the time of the response, takes the entry out of the
    queue, puts it at the head of the history, calls [onResolved] with it
    and returns it.  Resolving the same id again returns [null] and
    changes nothing. *)
Theorem resolve_outcome (iso requestId : string) (ok : bool) (by_ : string)
    (why : option string) (am : ApprovalManager) :
  (getApproval requestId am = None ->
   resolve iso requestId ok by_ why am = (None, am))
  /\ (forall a approval,
        getApproval requestId am = Some a -> heap am !! a = Some approval ->
        state approval <> pending ->
        resolve iso requestId ok by_ why am = (None, am))
  /\ (forall a approval,
        getApproval requestId am = Some a -> heap am !! a = Some approval ->
        state approval = pending ->
        exists am' approval',
          resolve iso requestId ok by_ why am = (Some a, am')
          /\ heap am' !! a = Some approval'
          /\ state approval' = (if ok then approved else denied)
          /\ respondedBy approval' = Some by_
          /\ reason approval' = why
          /\ respondedAt approval' = Some iso
          /\ (id approval', agentId approval', category approval', description approval',
              amount approval', currency approval', createdAt approval', expiresAt approval')
             = (id approval, agentId approval, category approval, description approval,
                amount approval, currency approval, createdAt approval, expiresAt approval)
          /\ (forall a', a' <> a -> heap am' !! a' = heap am !! a')
          /\ getApproval requestId am' = None
          /\ (forall k, k <> requestId -> getApproval k am' = getApproval k am)
          /\ history am' = take 1000 (a :: history am)
          /\ calls am' = calls am ++ [onResolved approval'])
  /\ (forall iso2 ok2 by2 why2,
        resolve iso2 requestId ok2 by2 why2 (resolve iso requestId ok by_ why am).2
        = (None, (resolve iso requestId ok by_ why am).2)).
Proof.
  unfold getApproval. split; [|split; [|split]].
  - intros Hget. unfold resolve. now rewrite Hget.
  - intros a approval Hget Hheap Hstate. unfold resolve. rewrite Hget, Hheap.
    destruct (state approval); try reflexivity. now contradiction Hstate.
  - intros a approval Hget Hheap Hstate. unfold resolve. rewrite Hget, Hheap, Hstate.
    cbn [is_pending]. eexists. exists (resolved iso ok by_ why approval).
    split; [reflexivity|]. cbn [heap queue history calls].
    split; [apply lookup_insert_eq|].
    repeat (split; [reflexivity|]).
    split; [intros a' Hne; now apply lookup_insert_ne|].
    split; [apply map_get_delete|].
    split; [intros k Hne; apply map_get_delete_ne; congruence | split; reflexivity].
  - intros iso2 ok2 by2 why2. unfold resolve at 2 3.
    destruct (map_get requestId (queue am)) as [a|] eqn:Hget.
    + destruct (heap am !! a) as [approval|] eqn:Hheap.
      * destruct (is_pending (state approval)) eqn:Hp.
        -- cbn [snd]. unfold resolve. cbn [queue]. now rewrite map_get_delete.
        -- cbn [snd]. unfold resolve. now rewrite Hget, Hheap, Hp.
      * cbn [snd]. unfold resolve. now rewrite Hget, Hheap.
    + cbn [snd]. unfold resolve. now rewrite Hget.
Qed.

(** C3, witness: [R1] is approved by [op]; a second response to [R1] is
    turned down and changes nothing. *)
Lemma resolve_outcome_witness :
  exists am' approval',
    resolve Samples.later "R1" true "op" None Samples.approvals1 = (Some O, am')
    /\ heap am' !! O = Some approval'
    /\ state approval' = approved
    /\ respondedBy approval' = Some "op"
    /\ getApproval "R1" am' = None
    /\ history am' = [O]
    /\ resolve Samples.later "R1" false "op2" None am' = (None, am').
Proof.
  destruct (resolve_outcome Samples.later "R1" true "op" None Samples.approvals1)
    as (_ & _ & Hpending & Hagain).
  edestruct (Hpending O)
    as (am' & approval' & Hres & Hheap & Hstate & Hby & _ & _ & _ & _ & Hgone & _ & Hhist & _);
    [vm_compute; reflexivity | vm_compute; reflexivity | reflexivity |].
  exists am', approval'.
  split; [exact Hres|]. split; [exact Hheap|]. split; [exact Hstate|].
  split; [exact Hby|]. split; [exact Hgone|]. split; [exact Hhist|].
  specialize (Hagain Samples.later false "op2" None). rewrite Hres in Hagain. exact Hagain.
Defined.

(** C4: in every state the manager can reach, an approval that has left
    the pending state is never changed again by any operation, expiry
    scan included; an approval is found expired after an operation only
    if it already was, or if the operation is an expiry scan whose clock
    reading exceeds the time its [expiresAt] denotes; and a scan removes
    from the queue exactly the entries it expires and pushes them, in
    queue order, on the history, which it cuts at 1000 entries. *)
Theorem approval_states_terminal (getTime : string -> option Z) (ops : list Op) (op : Op) :
  let am := run getTime empty ops in
  let am' := apply getTime am op in
  (forall later a approval,
     heap am !! a = Some approval -> state approval <> pending ->
     heap (run getTime am later) !! a = Some approval)
  /\ (forall a approval',
        heap am' !! a = Some approval' -> state approval' = expired ->
        heap am !! a = Some approval'
        \/ exists now t approval,
             op = ExpireStale now
             /\ heap am !! a = Some approval
             /\ state approval = pending
             /\ approval' = with_state expired approval
             /\ getTime (expiresAt approval) = Some t
             /\ t < now)
  /\ (forall now, op = ExpireStale now ->
        queue am' = List.filter (fun e => negb (stale getTime now am e)) (queue am)
        /\ history am' =
             take 1000 (rev (snd <$> List.filter (stale getTime now am) (queue am))
                        ++ history am)
        /\ (length (history am') <= 1000)%nat
        /\ forall e, e ∈ queue am -> stale getTime now am e = true ->
             (exists approval,
                heap am !! e.2 = Some approval
                /\ heap am' !! e.2 = Some (with_state expired approval))
             /\ (e.2 ∉ snd <$> queue am')
             /\ getApproval e.1 am' = None).
Proof.
  intros am am'.
  assert (Hwf : wf am) by (apply wf_run, wf_empty).
  split; [|split].
  - intros later a approval. now apply terminal_final.
  - intros a approval'. now apply expired_origin.
  - intros now ->. subst am'. cbn [apply].
    destruct (expireStale_spec getTime now am Hwf) as (Hq & Hh & _ & Hheap).
    pose proof Hwf as (Hk & Hv & _).
    split; [exact Hq|]. split; [exact Hh|].
    split; [rewrite Hh, length_take; unfold maxHistory; lia|].
    intros e He Hs. split; [|split].
    + destruct (expire_entry_stale getTime now am e Hs) as (approval & H1 & _).
      exists approval. split; [exact H1|]. rewrite Hheap, H1.
      rewrite decide_True; [reflexivity|].
      apply list_elem_of_fmap. exists e. split; [reflexivity|]. now apply stale_elem.
    + rewrite Hq. intros Hin. apply list_elem_of_fmap in Hin as (e' & Heq & He').
      apply list_elem_of_In, filter_In in He' as [He' Hs'].
      apply list_elem_of_In in He'.
      rewrite <- (NoDup_snd_inj (queue am) e e' Hv He He' Heq) in Hs'.
      rewrite Hs in Hs'. discriminate.
    + unfold getApproval. rewrite Hq. apply map_get_filter_none; [exact Hk|].
      intros e' He' Heq.
      rewrite (NoDup_fst_inj (queue am) e' e Hk He' He Heq). now rewrite Hs.
Qed.

(** C4, witness: [R1] expires at 1000 ms.  A scan at 1000 ms leaves it
    pending; a scan at 1001 ms expires it, empties the queue and puts it
    in the history; approving it afterwards is refused and leaves it
    expired. *)
Lemma approval_states_terminal_witness :
  state <$> heap (expireStale Samples.getTime 1000 Samples.approvals1) !! O = Some pending
  /\ state <$> heap (expireStale Samples.getTime 1001 Samples.approvals1) !! O = Some expired
  /\ queue (expireStale Samples.getTime 1001 Samples.approvals1) = []
  /\ history (expireStale Samples.getTime 1001 Samples.approvals1) = [O]
  /\ state <$> heap (run Samples.getTime Samples.approvals1
                       [ExpireStale 1001; Resolve Samples.later "R1" true "op" None]) !! O
     = Some expired.
Proof.
  split; [vm_compute; reflexivity|].
  destruct (approval_states_terminal Samples.getTime
              [AddRequest Samples.noon "agent-1" Samples.request1] (ExpireStale 1001))
    as (_ & _ & Hscan).
  destruct (Hscan 1001 eq_refl) as (Hq & Hh & _ & Hentry).
  destruct (Hentry ("R1", O)) as ((approval & Hbefore & Hafter) & _ & _);
    [vm_compute; left | reflexivity |].
  split; [|split; [exact Hq | split; [exact Hh|]]].
  - change (heap (expireStale Samples.getTime 1001 Samples.approvals1) !! O
            = Some (with_state expired approval)) in Hafter.
    rewrite Hafter. reflexivity.
  - vm_compute. reflexivity.
Defined.

End ApprovalClaims.

(** ** Control-plane server *)

Module ControlPlaneProps.
Import ControlPlane.



Lemma ws_close_not_open code why sock : readyState (ws_close code why sock) <> OPEN.
Proof. unfold ws_close. destruct (readyState sock) eqn:E; simpl; congruence. Qed.

Lemma ws_close_listener code why sock : listener (ws_close code why sock) = listener sock.
Proof. unfold ws_close. destruct (readyState sock); reflexivity. Qed.

(** The sockets after [close()]: a socket still open afterwards is
    untouched and belongs to no indexed session. *)
Lemma close_sockets (index : gmap string ConnectedAgent) (socks : gmap nat Socket) :
  let socks' :=
    map_fold (fun _ conn acc => alter (ws_close 1001 "Control plane shutting down") (ws conn) acc)
             socks index in
  forall w sock, socks' !! w = Some sock -> readyState sock = OPEN ->
    socks !! w = Some sock /\ forall agent conn, index !! agent = Some conn -> ws conn <> w.
Proof.
  cbv zeta. apply (map_fold_weak_ind (fun r (m : gmap string ConnectedAgent) =>
    forall w sock, r !! w = Some sock -> readyState sock = OPEN ->
      socks !! w = Some sock /\ forall agent conn, m !! agent = Some conn -> ws conn <> w)).
  - intros w sock Hw _. split; [assumption|]. intros agent conn H.
    now rewrite lookup_empty in H.
  - intros agent conn m r Hfresh IH w sock Hw Hopen.
    destruct (decide (ws conn = w)) as [Heq|Hne].
    + subst w. rewrite lookup_alter_eq in Hw.
      apply fmap_Some in Hw as (sock0 & _ & ->).
      now apply ws_close_not_open in Hopen.
    + rewrite lookup_alter_ne in Hw by assumption.
      destruct (IH w sock Hw Hopen) as [H1 H2]. split; [assumption|].
      intros agent' conn' H. destruct (decide (agent = agent')) as [->|Hne'].
      * rewrite lookup_insert_eq in H. now injection H as <-.
      * rewrite lookup_insert_ne in H by assumption. eauto.
Qed.

Lemma handleConnection_agents iso w agent remote s :
  agents (handleConnection iso w agent remote s) =
  <[agent := {| agentId := agent; ws := w; connectedAt := iso; lastHeartbeat := iso;
                remoteAddress := default "unknown" remote |}]> (agents s).
Proof. unfold handleConnection. destruct (agents s !! agent); reflexivity. Qed.

Lemma handleConnection_sockets iso w agent remote s :
  sockets (handleConnection iso w agent remote s) =
  alter (with_listener agent) w
    (match agents s !! agent with
     | Some existing =>
         alter (ws_close 4000 "Replaced by new connection") (ws existing) (sockets s)
     | None => sockets s
     end).
Proof. unfold handleConnection. destruct (agents s !! agent); reflexivity. Qed.

Lemma handleConnection_fleet iso w agent remote s :
  fleet (handleConnection iso w agent remote s) =
  Fleet.updateAgentConnection agent Fleet.online (Some (default "unknown" remote)) (fleet s).
Proof. unfold handleConnection. destruct (agents s !! agent); reflexivity. Qed.

Lemma on_close_sockets w agent s : sockets (on_close w agent s) = sockets s.
Proof. unfold on_close. case_bool_decide; reflexivity. Qed.

Lemma next_socket_fresh s : sockets s !! next_socket s = None.
Proof. apply not_elem_of_dom. unfold next_socket. apply is_fresh. Qed.

Lemma indexed_create c fm am : indexed (create c fm am).
Proof.
  split.
  - intros agent w (sock & H & _). simpl in H. now rewrite lookup_empty in H.
  - intros agent conn H. simpl in H. now rewrite lookup_empty in H.
Qed.

Section Steps.

Variable StringToNumber : string -> float.

Lemma handleAgentMessage_sockets iso agent msg s :
  sockets (handleAgentMessage StringToNumber iso agent msg s) = sockets s.
Proof. destruct msg; reflexivity. Qed.

Lemma handleAgentMessage_agents iso agent msg s other :
  ws <$> agents (handleAgentMessage StringToNumber iso agent msg s) !! other
  = ws <$> agents s !! other.
Proof.
  destruct msg; try reflexivity. cbn [handleAgentMessage agents set_fleet set_agents].
  destruct (decide (agent = other)) as [->|Hne].
  - rewrite lookup_alter_eq. now destruct (agents s !! other).
  - now rewrite lookup_alter_ne.
Qed.

Lemma indexed_message iso w msg s :
  indexed s -> indexed (step StringToNumber s (Message iso w msg)).
Proof.
  intros Hs. cbn [step]. destruct (sockets s !! w) as [sock|]; [|exact Hs].
  assert (H : forall agent, indexed (handleAgentMessage StringToNumber iso agent msg s)).
  { intros agent. destruct Hs as [Hlive Hidx]. split.
    - intros agent' w' (sock' & Hsock & Hopen & Hlis).
      rewrite handleAgentMessage_sockets in Hsock. rewrite handleAgentMessage_agents.
      apply Hlive. exists sock'. auto.
    - intros agent' conn Hconn. rewrite handleAgentMessage_sockets.
      pose proof (handleAgentMessage_agents iso agent msg s agent') as Hws.
      rewrite Hconn in Hws. cbn in Hws.
      destruct (agents s !! agent') as [conn'|] eqn:Hc; [|discriminate].
      injection Hws as Hws. rewrite Hws. now apply Hidx. }
  destruct (readyState sock); try exact Hs; destruct (listener sock); auto.
Qed.

Lemma indexed_accept iso agent remote s :
  indexed s -> indexed (step StringToNumber s (Accept iso agent remote)).
Proof.
  intros [Hlive Hidx]. cbn [step]. set (w := next_socket s).
  assert (Hfresh : sockets s !! w = None) by apply next_socket_fresh.
  set (s0 := set_sockets (insert w fresh_socket) s).
  assert (Hold : forall existing, agents s !! agent = Some existing -> ws existing <> w).
  { intros existing He Heq. destruct (Hidx _ _ He) as (sock & Hs & _). congruence. }
  split.
  - intros agent' w' (sock & Hsock & Hopen & Hlis).
    rewrite handleConnection_sockets in Hsock. rewrite handleConnection_agents.
    change (agents s0) with (agents s) in *. change (sockets s0) with (<[w := fresh_socket]> (sockets s)) in Hsock.
    destruct (decide (w' = w)) as [->|Hne].
    + rewrite lookup_alter_eq in Hsock.
      apply fmap_Some in Hsock as (sock0 & _ & ->).
      simpl in Hlis. injection Hlis as <-. now rewrite lookup_insert_eq.
    + rewrite lookup_alter_ne in Hsock by congruence.
      destruct (agents s !! agent) as [existing|] eqn:He.
      * destruct (decide (ws existing = w')) as [Heq|Hne'].
        -- subst w'. rewrite lookup_alter_eq in Hsock.
           apply fmap_Some in Hsock as (sock0 & _ & ->).
           now apply ws_close_not_open in Hopen.
        -- rewrite lookup_alter_ne, lookup_insert_ne in Hsock by congruence.
           assert (Hl : live s agent' w') by (exists sock; auto).
           apply Hlive in Hl. destruct (decide (agent = agent')) as [->|Hna].
           ++ rewrite He in Hl. simpl in Hl. congruence.
           ++ now rewrite lookup_insert_ne.
      * rewrite lookup_insert_ne in Hsock by congruence.
        assert (Hl : live s agent' w') by (exists sock; auto).
        apply Hlive in Hl. destruct (decide (agent = agent')) as [->|Hna].
        -- rewrite He in Hl. discriminate.
        -- now rewrite lookup_insert_ne.
  - intros agent' conn. rewrite handleConnection_agents, handleConnection_sockets.
    change (agents s0) with (agents s). change (sockets s0) with (<[w := fresh_socket]> (sockets s)).
    intros Hconn. destruct (decide (agent = agent')) as [->|Hna].
    + rewrite lookup_insert_eq in Hconn. injection Hconn as <-. cbn [ws].
      rewrite lookup_alter_eq.
      destruct (agents s !! agent') as [existing|] eqn:He.
      * rewrite lookup_alter_ne by (now apply Hold). rewrite lookup_insert_eq.
        eexists. split; reflexivity.
      * rewrite lookup_insert_eq. eexists. split; reflexivity.
    + rewrite lookup_insert_ne in Hconn by assumption.
      destruct (Hidx _ _ Hconn) as (sock & Hs & Hl).
      assert (ws conn <> w) by congruence.
      rewrite lookup_alter_ne by congruence.
      destruct (agents s !! agent) as [existing|] eqn:He.
      * destruct (decide (ws existing = ws conn)) as [Heq|Hne'].
        -- rewrite Heq, lookup_alter_eq, lookup_insert_ne, Hs by congruence. simpl.
           eexists. split; [reflexivity|]. now rewrite ws_close_listener.
        -- rewrite lookup_alter_ne, lookup_insert_ne by congruence. eauto.
      * rewrite lookup_insert_ne by congruence. eauto.
Qed.

Lemma indexed_socket_close w s :
  indexed s -> indexed (step StringToNumber s (SocketClose w)).
Proof.
  intros [Hlive Hidx]. cbn [step].
  destruct (sockets s !! w) as [sock|] eqn:Hw; [|now split].
  set (closed := {| readyState := CLOSED; closeFrame := closeFrame sock;
                    sent := sent sock; listener := listener sock |}).
  set (s' := set_sockets (insert w closed) s).
  assert (Hs' : indexed s').
  { split.
    - intros agent' w' (sock' & Hsock & Hopen & Hlis). simpl in Hsock.
      destruct (decide (w = w')) as [->|Hne].
      + rewrite lookup_insert_eq in Hsock. injection Hsock as <-. discriminate.
      + rewrite lookup_insert_ne in Hsock by assumption.
        apply Hlive. exists sock'. auto.
    - intros agent' conn Hconn. simpl in Hconn. destruct (Hidx _ _ Hconn) as (sock' & Hs & Hl).
      simpl. destruct (decide (w = ws conn)) as [->|Hne].
      + rewrite lookup_insert_eq. rewrite Hw in Hs. injection Hs as <-.
        eexists. split; [reflexivity | exact Hl].
      + rewrite lookup_insert_ne by assumption. eauto. }
  destruct (listener sock) as [agent|]; [|exact Hs'].
  destruct Hs' as [Hlive' Hidx']. unfold on_close. case_bool_decide as Hcur; [|now split].
  split.
  - intros agent' w' Hl. assert (Hl' : live s' agent' w') by exact Hl.
    apply Hlive' in Hl'. cbn [agents set_fleet set_agents].
    destruct (decide (agent = agent')) as [->|Hna].
    + rewrite Hcur in Hl'. injection Hl' as <-.
      destruct Hl as (sock' & Hsock & Hopen & _). simpl in Hsock.
      rewrite lookup_insert_eq in Hsock. injection Hsock as <-. discriminate.
    + now rewrite lookup_delete_ne.
  - intros agent' conn. cbn [agents sockets set_fleet set_agents].
    intros Hconn. destruct (decide (agent = agent')) as [->|Hna].
    + now rewrite lookup_delete_eq in Hconn.
    + rewrite lookup_delete_ne in Hconn by assumption. now apply Hidx'.
Qed.

Lemma indexed_shutdown s : indexed s -> indexed (step StringToNumber s Shutdown).
Proof.
  intros [Hlive Hidx]. cbn [step]. split.
  - intros agent w (sock & Hsock & Hopen & Hlis). simpl in Hsock.
    destruct (close_sockets (agents s) (sockets s) w sock Hsock Hopen) as [Hs Hnone].
    assert (Hl : live s agent w) by (exists sock; auto).
    apply Hlive in Hl. destruct (agents s !! agent) as [conn|] eqn:Hc; [|discriminate].
    injection Hl as Hl. now destruct (Hnone agent conn Hc).
  - intros agent conn H. simpl in H. now rewrite lookup_empty in H.
Qed.

Lemma indexed_step s e : indexed s -> indexed (step StringToNumber s e).
Proof.
  destruct e;
    [apply indexed_accept | apply indexed_message | apply indexed_socket_close
    | apply indexed_shutdown].
Qed.

Lemma indexed_run es : forall s, indexed s -> indexed (run StringToNumber s es).
Proof.
  induction es as [|e es IH]; intros s Hs; simpl; [assumption|].
  apply IH. now apply indexed_step.
Qed.

End Steps.

End ControlPlaneProps.

Module ControlPlaneClaims.
Import ControlPlane ControlPlaneProps.


(** The request the bridge itself sends, with the token in the
    [Authorization] header only, is upgraded by the attached server and
    closed by the standalone one. *)
Example standalone_ignores_authorization_header :
  attach_upgrade Samples.config1 Samples.request_header = Upgraded "agent-1"
  /\ standalone_connection Samples.config1 Samples.request_header
     = Closed 4001 "Unauthorized".
Proof. split; vm_compute; reflexivity. Qed.



(** C2: in every state the server reaches, an agent id has at most one
    live session and that session is the indexed one.  When
    [handleConnection] runs for an agent id that has a session, the
    previous socket, if open, is closed with code 4000 and reason
    [Replaced by new connection], the new session takes its place in the
    index, and the later close of the replaced socket changes neither the
    index nor the fleet.  The close listener leaves the server as it is
    unless the closing socket is the indexed one, in which case it
    removes the entry and marks the fleet record offline. *)
Theorem one_session_per_agent (StringToNumber : string -> float)
    (c : ControlPlaneConfig) (fm : Fleet.FleetManager)
    (am : Approvals.ApprovalManager) (es : list Event) :
  let step := step StringToNumber in
  let s := run StringToNumber (create c fm am) es in
  (forall agent w1 w2, live s agent w1 -> live s agent w2 -> w1 = w2)
  /\ (forall agent w, live s agent w -> ws <$> agents s !! agent = Some w)
  /\ (forall iso agent remote existing,
        agents s !! agent = Some existing ->
        let s' := step s (Accept iso agent remote) in
        (forall sock,
           sockets s !! ws existing = Some sock -> readyState sock = OPEN ->
           exists sock',
             sockets s' !! ws existing = Some sock'
             /\ readyState sock' = CLOSING
             /\ closeFrame sock' = Some (4000, "Replaced by new connection"))
        /\ (exists conn,
              agents s' !! agent = Some conn
              /\ ws conn = next_socket s
              /\ ws conn <> ws existing
              /\ live s' agent (ws conn))
        /\ agents (step s' (SocketClose (ws existing))) = agents s'
        /\ fleet (step s' (SocketClose (ws existing))) = fleet s')
  /\ (forall w agent, ws <$> agents s !! agent <> Some w -> on_close w agent s = s)
  /\ (forall w agent,
        ws <$> agents s !! agent = Some w ->
        agents (on_close w agent s) = delete agent (agents s)
        /\ fleet (on_close w agent s)
           = Fleet.updateAgentConnection agent Fleet.offline None (fleet s)
        /\ forall record,
             Fleet.agents (fleet s) !! agent = Some record ->
             Fleet.connection <$> Fleet.agents (fleet (on_close w agent s)) !! agent
             = Some Fleet.offline).
Proof.
  intros step' s. subst step'.
  assert (Hs : indexed s) by (apply indexed_run, indexed_create).
  pose proof Hs as [Hlive Hidx].
  split; [|split; [exact Hlive | split; [|split]]].
  - intros agent w1 w2 H1 H2. apply Hlive in H1, H2. congruence.
  - intros iso agent remote existing He s'.
    destruct (Hidx _ _ He) as (sock_e & Hsock_e & Hlis_e).
    assert (Hne : ws existing <> next_socket s).
    { intros Heq. rewrite Heq, next_socket_fresh in Hsock_e. discriminate. }
    assert (Hsocks : sockets s' =
      alter (with_listener agent) (next_socket s)
        (alter (ws_close 4000 "Replaced by new connection") (ws existing)
           (<[next_socket s := fresh_socket]> (sockets s)))).
    { unfold s'. cbn [step]. rewrite handleConnection_sockets.
      cbn [agents sockets set_sockets]. now rewrite He. }
    assert (Hagents : agents s' !! agent =
      Some {| agentId := agent; ws := next_socket s; connectedAt := iso;
              lastHeartbeat := iso; remoteAddress := default "unknown" remote |}).
    { unfold s'. cbn [step]. rewrite handleConnection_agents. apply lookup_insert_eq. }
    assert (Hold : sockets s' !! ws existing
                   = Some (ws_close 4000 "Replaced by new connection" sock_e)).
    { rewrite Hsocks, lookup_alter_ne, lookup_alter_eq, lookup_insert_ne, Hsock_e
        by congruence. reflexivity. }
    split; [|split].
    + intros sock Hsock Hopen. rewrite Hsock_e in Hsock. injection Hsock as <-.
      eexists. split; [exact Hold|]. unfold ws_close. rewrite Hopen. split; reflexivity.
    + eexists. split; [exact Hagents|]. cbn [ws]. split; [reflexivity|].
      split; [congruence|].
      exists (with_listener agent fresh_socket). split; [|split; reflexivity].
      rewrite Hsocks, lookup_alter_eq, lookup_alter_ne, lookup_insert_eq by congruence.
      reflexivity.
    + cbn [step]. rewrite Hold. rewrite ws_close_listener, Hlis_e.
      unfold on_close. cbn [agents set_sockets].
      rewrite bool_decide_eq_false_2; [split; reflexivity|].
      rewrite Hagents. cbn. congruence.
  - intros w agent Hne. unfold on_close. now rewrite bool_decide_eq_false_2.
  - intros w agent Hcur. unfold on_close. rewrite bool_decide_eq_true_2 by assumption.
    split; [reflexivity|]. split; [reflexivity|].
    intros record Hrec. cbn [fleet set_fleet set_agents].
    unfold Fleet.updateAgentConnection.
    rewrite (FleetProps.update_record_lookup _ _ _ _ Hrec). reflexivity.
Qed.

(** C2, witness: [agent-1] connects, reports an action and connects
    again; the first socket (0) is closed with code 4000, the second (1)
    is the indexed one, and the close of the first leaves the second
    indexed and the fleet record online. *)
Lemma one_session_per_agent_witness :
  let s := run Samples.no_numerals Samples.server1
             [Accept Samples.noon "agent-1" None;
              Message Samples.noon O (Wire.action "agent-1" Samples.spend_12_5);
              Accept Samples.later "agent-1" None;
              SocketClose O] in
  ws <$> agents s !! "agent-1" = Some 1%nat
  /\ closeFrame <$> sockets s !! O = Some (Some (4000, "Replaced by new connection"))
  /\ Fleet.connection <$> Fleet.agents (fleet s) !! "agent-1" = Some Fleet.online
  /\ forall w, live s "agent-1" w -> w = 1%nat.
Proof.
  intros s. split; [vm_compute; reflexivity|]. split; [vm_compute; reflexivity|].
  split; [vm_compute; reflexivity|].
  intros w Hw.
  destruct (one_session_per_agent Samples.no_numerals
              Samples.config1 Samples.fleet1 Approvals.empty
              [Accept Samples.noon "agent-1" None;
               Message Samples.noon O (Wire.action "agent-1" Samples.spend_12_5);
               Accept Samples.later "agent-1" None;
               SocketClose O]) as (_ & Hidx & _).
  apply Hidx in Hw. vm_compute in Hw. congruence.
Defined.

End ControlPlaneClaims.

(** ** Bridge *)

Module BridgeProps.
Import Bridge.

Lemma send_disconnected msg b : connected b = false -> send msg b = b.
Proof.
  unfold connected, send. destruct (ws b) as [w|]; [|reflexivity].
  destruct (sockets b !! w) as [sock|]; [|reflexivity]. now intros ->.
Qed.

Lemma closed_stopHeartbeat b : closed (stopHeartbeat b) = closed b.
Proof. unfold stopHeartbeat. destruct (heartbeatTimer b); reflexivity. Qed.

Lemma next_stopHeartbeat b : next (stopHeartbeat b) = next b.
Proof. unfold stopHeartbeat. destruct (heartbeatTimer b); reflexivity. Qed.

Lemma reconnectAttempt_stopHeartbeat b :
  reconnectAttempt (stopHeartbeat b) = reconnectAttempt b.
Proof. unfold stopHeartbeat. destruct (heartbeatTimer b); reflexivity. Qed.

Lemma timers_stopHeartbeat b :
  timers (stopHeartbeat b) =
  match heartbeatTimer b with Some t => delete t (timers b) | None => timers b end.
Proof. unfold stopHeartbeat. destruct (heartbeatTimer b); reflexivity. Qed.

Lemma sockets_stopHeartbeat b : sockets (stopHeartbeat b) = sockets b.
Proof. unfold stopHeartbeat. destruct (heartbeatTimer b); reflexivity. Qed.

(** [scheduleReconnect] on a bridge that has not been closed. *)
Lemma scheduleReconnect_open b :
  closed b = false ->
  reconnectAttempt (scheduleReconnect b) = S (reconnectAttempt b)
  /\ timers (scheduleReconnect b) =
     <[next b := {| delay := reconnect_delay (S (reconnectAttempt b));
                    action := Reconnect |}]> (timers b)
  /\ closed (scheduleReconnect b) = false.
Proof.
  intros Hc. unfold scheduleReconnect. rewrite Hc.
  split; [reflexivity|]. split; [reflexivity|]. exact Hc.
Qed.

(** Steps that keep a closed bridge quiet. *)
Section Quiet.

Variable b0 : MoltAgentBridge.

Lemma keeps_same f :
  (forall b, closed (f b) = closed b /\ timers (f b) = timers b /\ sockets (f b) = sockets b) ->
  forall b, after_close b0 b -> after_close b0 (f b).
Proof.
  intros Hf b (Hc & Ht & Hs). destruct (Hf b) as (H1 & H2 & H3).
  unfold after_close, reconnect_pending. rewrite H1, H2, H3. auto.
Qed.

Lemma keeps_callback c b : after_close b0 b -> after_close b0 (callback c b).
Proof. revert b. apply keeps_same. intros b. repeat split. Qed.

Lemma keeps_set_heartbeatTimer h b :
  after_close b0 b -> after_close b0 (set_heartbeatTimer h b).
Proof. revert b. apply keeps_same. intros b. repeat split. Qed.

Lemma keeps_set_reconnectAttempt n b :
  after_close b0 b -> after_close b0 (set_reconnectAttempt n b).
Proof. revert b. apply keeps_same. intros b. repeat split. Qed.

Lemma keeps_set_pendingApprovals f b :
  after_close b0 b -> after_close b0 (set_pendingApprovals f b).
Proof. revert b. apply keeps_same. intros b. repeat split. Qed.

Lemma keeps_settle p v b : after_close b0 b -> after_close b0 (settle p v b).
Proof. revert b. apply keeps_same. intros b. repeat split. Qed.

Lemma keeps_clear_timer t b : after_close b0 b -> after_close b0 (clear_timer t b).
Proof.
  intros (Hc & Ht & Hs). split; [exact Hc|]. split; [|exact Hs].
  intros t' d H. unfold reconnect_pending in H. cbn [timers clear_timer] in H.
  apply lookup_delete_Some in H as [_ H]. now apply Ht.
Qed.

Lemma keeps_set_timer timer b :
  action timer <> Reconnect -> after_close b0 b -> after_close b0 (set_timer timer b).2.
Proof.
  intros Hact (Hc & Ht & Hs). split; [exact Hc|]. split; [|exact Hs].
  intros t' d H. unfold reconnect_pending in H. cbn [timers set_timer snd] in H.
  apply lookup_insert_Some in H as [[_ Heq]|[_ H]]; [|now apply Ht].
  rewrite Heq in Hact. now contradiction Hact.
Qed.

Lemma keeps_update_socket w f b :
  after_close b0 b ->
  after_close b0 (match sockets b !! w with
                  | Some sock => set_sockets (insert w (f sock)) b
                  | None => b
                  end).
Proof.
  intros H. destruct (sockets b !! w) as [sock|] eqn:Hw; [|exact H].
  destruct H as (Hc & Ht & Hs). split; [exact Hc|]. split; [exact Ht|].
  intros w' Hsome. cbn [sockets set_sockets] in Hsome.
  apply Hs. destruct (decide (w = w')) as [<-|Hne]; [eauto|].
  now rewrite lookup_insert_ne in Hsome.
Qed.

Lemma keeps_alter_socket w f b :
  after_close b0 b -> after_close b0 (set_sockets (alter f w) b).
Proof.
  intros (Hc & Ht & Hs). split; [exact Hc|]. split; [exact Ht|].
  intros w' Hsome. cbn [sockets set_sockets] in Hsome. apply Hs.
  destruct (decide (w = w')) as [<-|Hne].
  - rewrite lookup_alter_eq in Hsome. now apply fmap_is_Some in Hsome.
  - now rewrite lookup_alter_ne in Hsome.
Qed.

Lemma keeps_stopHeartbeat b : after_close b0 b -> after_close b0 (stopHeartbeat b).
Proof.
  intros H. unfold stopHeartbeat. destruct (heartbeatTimer b) as [t|]; [|exact H].
  now apply keeps_set_heartbeatTimer, keeps_clear_timer.
Qed.

Lemma keeps_startHeartbeat b : after_close b0 b -> after_close b0 (startHeartbeat b).
Proof.
  intros H. unfold startHeartbeat.
  pose proof (keeps_set_timer
    {| delay := Schema.heartbeatIntervalSec (controlPlane b) * 1000; action := Heartbeat |}
    (stopHeartbeat b) ltac:(discriminate) (keeps_stopHeartbeat b H)) as H'.
  destruct (set_timer _ (stopHeartbeat b)) as [t b1].
  now apply keeps_set_heartbeatTimer.
Qed.

Lemma keeps_send msg b : after_close b0 b -> after_close b0 (send msg b).
Proof.
  intros H. unfold send. destruct (ws b) as [w|]; [|exact H].
  destruct (sockets b !! w) as [sock|] eqn:Hw; [|exact H].
  destruct (is_open (readyState sock)); [|exact H].
  pose proof (keeps_update_socket w
    (fun sock => {| socket_url := socket_url sock;
                    socket_authorization := socket_authorization sock;
                    readyState := readyState sock; sent := sent sock ++ [msg] |}) b H) as H'.
  now rewrite Hw in H'.
Qed.

Lemma keeps_connect b : after_close b0 b -> after_close b0 (connect b).
Proof. intros H. unfold connect. destruct H as (Hc & Ht & Hs). rewrite Hc. now split. Qed.

Lemma keeps_scheduleReconnect b :
  after_close b0 b -> after_close b0 (scheduleReconnect b).
Proof.
  intros H. unfold scheduleReconnect. destruct H as (Hc & Ht & Hs). rewrite Hc. now split.
Qed.

Lemma keeps_close b : after_close b0 b -> after_close b0 (close b).
Proof.
  intros (Hc & Ht & Hs). unfold close. set (b1 := stopHeartbeat _).
  assert (H1 : after_close b0 b1).
  { apply keeps_stopHeartbeat. split; [reflexivity | split; assumption]. }
  assert (H2 : after_close b0 (match ws b1 with
                               | Some w => set_sockets (alter ws_close w) b1
                               | None => b1 end)).
  { destruct (ws b1); [now apply keeps_alter_socket | exact H1]. }
  destruct H2 as (Hc2 & Ht2 & Hs2). split; [exact Hc2 | split; assumption].
Qed.

Lemma keeps_requestApproval request b :
  after_close b0 b -> after_close b0 (requestApproval request b).2.
Proof.
  intros (Hc & Ht & Hs). unfold requestApproval.
  cbn [set_timer]. cbn [snd].
  apply keeps_send, keeps_set_pendingApprovals.
  split; [exact Hc|]. split; [|exact Hs].
  intros t d H. unfold reconnect_pending in H. cbn [timers] in H.
  apply lookup_insert_Some in H as [[_ Heq]|[_ H]]; [discriminate | now apply Ht].
Qed.

Lemma keeps_handleMessage msg b :
  after_close b0 b -> after_close b0 (handleMessage msg b).
Proof.
  intros H. unfold handleMessage. destruct msg; try exact H.
  destruct (pendingApprovals b !! requestId) as [h|]; [|exact H].
  destruct (String.eqb _ _); [|exact H].
  now apply keeps_settle, keeps_set_pendingApprovals, keeps_clear_timer.
Qed.

Lemma keeps_step e b : after_close b0 b -> after_close b0 (step b e).
Proof.
  intros H. destruct e; cbn [step].
  - now apply keeps_connect.
  - now apply keeps_close.
  - now apply keeps_send.
  - now apply keeps_send.
  - now apply keeps_send.
  - now apply keeps_requestApproval.
  - now apply keeps_handleMessage.
  - destruct (sockets b !! w) as [sock|] eqn:Hw; [|exact H].
    destruct (readyState sock); try exact H.
    unfold on_open. apply keeps_callback, keeps_startHeartbeat, keeps_set_reconnectAttempt.
    pose proof (keeps_update_socket w (set_readyState OPEN) b H) as H'.
    now rewrite Hw in H'.
  - destruct (sockets b !! w) as [sock|]; [|exact H].
    destruct (is_open (readyState sock)); [|exact H].
    unfold on_message. destruct msg; [now apply keeps_callback | exact H].
  - destruct (sockets b !! w) as [sock|] eqn:Hw; [|exact H].
    pose proof (keeps_update_socket w (set_readyState CLOSED) b H) as H'.
    rewrite Hw in H'.
    destruct (readyState sock); try exact H;
      unfold on_close; now apply keeps_scheduleReconnect, keeps_callback, keeps_stopHeartbeat.
  - destruct (sockets b !! w); [|exact H]. now apply keeps_callback.
  - destruct (timers b !! t) as [timer|]; [|exact H].
    destruct (action timer).
    + now apply keeps_connect, keeps_clear_timer.
    + now apply keeps_send.
    + unfold cleanup.
      now apply keeps_settle, keeps_set_pendingApprovals, keeps_clear_timer, keeps_clear_timer.
Qed.

Lemma keeps_run es : forall b, after_close b0 b -> after_close b0 (run b es).
Proof.
  induction es as [|e es IH]; intros b H; simpl; [exact H|].
  apply IH. now apply keeps_step.
Qed.

End Quiet.

Lemma after_close_refl b : closed b = true -> after_close b b.
Proof. intros H. split; [exact H|]. split; auto. Qed.

Lemma closed_close b : closed (close b) = true.
Proof.
  unfold close. cbn [closed]. destruct (ws (stopHeartbeat _)); cbn [closed set_sockets];
    now rewrite closed_stopHeartbeat.
Qed.

Lemma reconnect_delay_bounds n : 0 <= reconnect_delay n <= 60000.
Proof.
  unfold reconnect_delay, maxReconnectDelay.
  pose proof (Z.pow_nonneg 2 (Z.of_nat n - 1) ltac:(lia)). lia.
Qed.

Lemma reconnect_delay_capped n : (7 <= n)%nat -> reconnect_delay n = 60000.
Proof.
  intros Hn. unfold reconnect_delay, maxReconnectDelay.
  assert (2 ^ 6 <= 2 ^ (Z.of_nat n - 1)) by (apply Z.pow_le_mono_r; lia).
  change (2 ^ 6) with 64 in *. lia.
Qed.

End BridgeProps.

Module BridgeClaims.
Import Bridge BridgeProps.

(** C7: when a socket of a bridge that has not been closed goes down,
    the attempt counter becomes [n], one more than it was, and exactly
    one reconnect is scheduled, after [min(1000 * 2^(n-1), 60000)]
    milliseconds, which is at most 60 s and is 60 s from the seventh
    attempt on; the counter is 0 after a successful open; and from
    [close()] on, whatever happens, the sink flag stays set, [connect()]
    and [scheduleReconnect()] do nothing, no reconnect is pending that
    was not already pending at the time of [close()], and no socket is
    created. *)
Theorem reconnect_backoff (b : MoltAgentBridge) (code reason : string) (es : list Event) :
  (closed b = false ->
     let n := S (reconnectAttempt b) in
     let b' := on_close code reason b in
     reconnectAttempt b' = n
     /\ reconnect_pending b' (next b) (Z.min (1000 * 2 ^ (Z.of_nat n - 1)) 60000)
     /\ (forall t d, reconnect_pending b' t d -> t <> next b -> reconnect_pending b t d)
     /\ Z.min (1000 * 2 ^ (Z.of_nat n - 1)) 60000 <= 60000
     /\ ((7 <= n)%nat -> Z.min (1000 * 2 ^ (Z.of_nat n - 1)) 60000 = 60000))
  /\ reconnectAttempt (on_open b) = O
  /\ (let b0 := close b in
      let b' := run b0 es in
      closed b' = true
      /\ connect b' = b'
      /\ scheduleReconnect b' = b'
      /\ (forall t d, reconnect_pending b' t d -> reconnect_pending b0 t d)
      /\ (forall t d, reconnect_pending (on_close code reason b') t d ->
                      reconnect_pending b0 t d)
      /\ (forall w, is_Some (sockets b' !! w) -> is_Some (sockets b0 !! w))).
Proof.
  split; [|split].
  - intros Hc n b'. unfold b', on_close.
    set (b1 := callback _ (stopHeartbeat b)).
    assert (Hc1 : closed b1 = false) by (unfold b1; cbn [closed callback]; now rewrite closed_stopHeartbeat).
    assert (Hn1 : next b1 = next b) by (unfold b1; cbn [next callback]; apply next_stopHeartbeat).
    assert (Ha1 : reconnectAttempt b1 = reconnectAttempt b)
      by (unfold b1; cbn [reconnectAttempt callback]; apply reconnectAttempt_stopHeartbeat).
    destruct (scheduleReconnect_open b1 Hc1) as (Hattempt & Htimers & _).
    pose proof (reconnect_delay_bounds n) as Hbound.
    pose proof (reconnect_delay_capped n) as Hcap.
    unfold reconnect_delay, maxReconnectDelay in Hbound, Hcap.
    split; [now rewrite Hattempt, Ha1|]. split; [|split; [|split; [lia | exact Hcap]]].
    + unfold reconnect_pending. rewrite Htimers, Hn1, Ha1. apply lookup_insert_eq.
    + intros t d Hp Hne. unfold reconnect_pending in *. rewrite Htimers, Hn1 in Hp.
      rewrite lookup_insert_ne in Hp by congruence.
      unfold b1 in Hp. cbn [timers callback] in Hp. rewrite timers_stopHeartbeat in Hp.
      destruct (heartbeatTimer b); [|exact Hp].
      now apply lookup_delete_Some in Hp as [_ Hp].
  - unfold on_open, startHeartbeat, stopHeartbeat. cbn [heartbeatTimer set_reconnectAttempt].
    destruct (heartbeatTimer b); reflexivity.
  - intros b0 b'.
    assert (H : after_close b0 b').
    { apply keeps_run, after_close_refl, closed_close. }
    pose proof H as (Hc & Ht & Hs).
    split; [exact Hc|]. split; [unfold connect; now rewrite Hc|].
    split; [unfold scheduleReconnect; now rewrite Hc|].
    split; [exact Ht|]. split; [|exact Hs].
    assert (H' : after_close b0 (on_close code reason b')).
    { unfold on_close.
      now apply keeps_scheduleReconnect, keeps_callback, keeps_stopHeartbeat. }
    now destruct H' as (_ & Ht' & _).
Qed.

(** C7, witness: the first disconnect of the bridge of [manifest1]
    schedules a reconnect after one second and makes the attempt counter
    1; once closed, the bridge ignores the disconnect and a later
    [connect()]. *)
Lemma reconnect_backoff_witness :
  reconnect_pending (on_close "1006" EmptyString Samples.bridge_open) 2%nat 1000
  /\ reconnectAttempt (on_close "1006" EmptyString Samples.bridge_open) = 1%nat
  /\ timers (run (close Samples.bridge_open)
               [SocketClose O "1005" EmptyString; CallConnect]) = ∅.
Proof.
  destruct (reconnect_backoff Samples.bridge_open "1006" EmptyString
              [SocketClose O "1005" EmptyString; CallConnect])
    as (Hopen & _ & Hclosed).
  destruct (Hopen eq_refl) as (Hn & Hp & _).
  split; [exact Hp|]. split; [exact Hn|].
  vm_compute. reflexivity.
Defined.

(** C9: while the bridge has no socket or its socket is not open, [send]
    returns the bridge unchanged, so that nothing is written, queued or
    reported and what follows does not depend on the message; the same
    holds of [sendHeartbeat], [sendStatus] and [sendAction];
    [requestApproval] registers its handler and its five-minute timeout
    but writes no frame, and its promise settles to [false] when the
    timeout fires. *)
Theorem send_dropped_when_disconnected (b : MoltAgentBridge) :
  connected b = false ->
  (forall msg, send msg b = b)
  /\ (forall msg es, run (send msg b) es = run b es)
  /\ (forall iso now, sendHeartbeat iso now b = b)
  /\ (forall report, sendStatus report b = b)
  /\ (forall entry, sendAction entry b = b)
  /\ (forall request,
        let b' := (requestApproval request b).2 in
        let p := (requestApproval request b).1 in
        frames b' = frames b
        /\ sockets b' = sockets b
        /\ callbacks b' = callbacks b
        /\ promises b' = promises b
        /\ timers b' = <[S (next b) := {| delay := 300000;
                                          action := ApprovalTimeout (Wire.request_id request) p |}]>
                         (timers b)
        /\ (promises b !! p = None ->
            forall iso now,
              promises (step b' (TimerFired (S (next b)) iso now)) !! p = Some false)).
Proof.
  intros Hd.
  assert (Hsend : forall msg, send msg b = b) by (intros; now apply send_disconnected).
  split; [exact Hsend|]. split; [intros msg es; now rewrite Hsend|].
  split; [intros; apply Hsend|]. split; [intros; apply Hsend|]. split; [intros; apply Hsend|].
  intros request b' p. unfold b', p, requestApproval. cbn [set_timer fst snd].
  rewrite send_disconnected by exact Hd.
  cbn [frames sockets callbacks promises timers set_pendingApprovals].
  repeat (split; [reflexivity|]).
  intros Hp iso now. cbn [step timers set_pendingApprovals].
  rewrite lookup_insert_eq. cbn [action]. unfold settle, cleanup.
  cbn [promises set_pendingApprovals clear_timer]. rewrite Hp. apply lookup_insert_eq.
Qed.

(** C9, witness: a status report sent while the first socket is still
    connecting is written nowhere. *)
Lemma send_dropped_when_disconnected_witness :
  sendStatus Samples.report1 Samples.bridge_connecting = Samples.bridge_connecting
  /\ frames (sendStatus Samples.report1 Samples.bridge_connecting) = {[ O := [] ]}
  /\ frames (run Samples.bridge_connecting
               [CallSendStatus Samples.report1; SocketOpen O]) = {[ O := [] ]}.
Proof.
  destruct (send_dropped_when_disconnected Samples.bridge_connecting eq_refl)
    as (_ & _ & _ & Hstatus & _).
  split; [apply Hstatus|]. split; vm_compute; reflexivity.
Defined.

End BridgeClaims.

(** ** Bootstrap-script generator *)

Module CloudInitProps.
Import CloudInit.






End CloudInitProps.

Module CloudInitClaims.
Import CloudInit CloudInitProps.



End CloudInitClaims.

(** ** Dashboard *)

Module DashboardProps.
Import Dashboard.






End DashboardProps.

Module DashboardClaims.
Import Dashboard DashboardProps.



(** The path is parsed before any route is tested, and a query string
    that [decodeURIComponent] refuses ends the call there: the
    authorised request to delete [agent-1] with the query string [%] is
    not answered at all, and the record stays. *)
Example delete_with_malformed_query_throws :
  handle Samples.delete_request_malformed Samples.dashboard1 = Some (Threw "URIError")
  /\ Js.decodeURIComponent "%" = None.
Proof. split; reflexivity. Qed.

End DashboardClaims.

(* ===================================================================== *)
(** * Further properties of the fleet manager *)
(* ===================================================================== *)

Module JsProps.

Lemma slice_nonneg {A} (start count : Z) (xs : list A) :
  0 <= start -> 0 <= count ->
  Js.slice start (start + count) xs = take (Z.to_nat count) (drop (Z.to_nat start) xs).
Proof.
  intros Hs Hc. unfold Js.slice.
  destruct (Z.ltb_spec start 0) as [|_]; [lia|].
  destruct (Z.ltb_spec (start + count) 0) as [|_]; [lia|].
  set (len := Z.of_nat (length xs)).
  assert (Hlen : 0 <= len) by (unfold len; lia).
  destruct (Z.le_gt_cases len start) as [Hfar|Hnear].
  - rewrite (drop_ge xs (Z.to_nat (Z.min start len))) by (fold len; lia).
    rewrite (drop_ge xs (Z.to_nat start)) by (fold len; lia).
    now rewrite !take_nil.
  - rewrite (Z.min_l start len) by lia.
    destruct (Z.le_gt_cases (start + count) len) as [Hin|Hout].
    + rewrite Z.min_l by lia. f_equal. lia.
    + rewrite Z.min_r by lia.
      rewrite !take_ge; [reflexivity | |]; rewrite length_drop; fold len; lia.
Qed.

End JsProps.

Module FleetExtras.
Import Fleet FleetProps.

Section Ops.

Variable StringToNumber : string -> float.

Lemma apply_other fm op agentId :
  agentId <> target op ->
  agents (apply StringToNumber fm op) !! agentId = agents fm !! agentId.
Proof.
  intros Hne. destruct op; cbn [apply target] in *;
    try (unfold updateAgentConnection, updateHeartbeat, updateAgentStatus,
           recordAction, recordError;
         apply update_record_other; congruence).
  - unfold registerAgent. cbn [markDirty agents]. now apply lookup_insert_ne.
  - unfold removeAgent. destruct (agents fm !! agentId0) eqn:E; cbn; [|reflexivity].
    now apply lookup_delete_ne.
Qed.

Lemma apply_absent fm op :
  is_register op = false ->
  agents fm !! target op = None ->
  apply StringToNumber fm op = fm.
Proof.
  intros Hreg Hnone. destruct op; cbn [apply target is_register] in *;
    try discriminate;
    try (unfold updateAgentConnection, updateHeartbeat, updateAgentStatus,
           recordAction, recordError;
         now apply update_record_absent).
  unfold removeAgent. now rewrite Hnone.
Qed.

Lemma bounded_update agentId f fm :
  (forall record,
     (length (recentActions record) <= MAX_RECENT_ACTIONS)%nat /\
     (length (recentErrors record) <= MAX_RECENT_ERRORS)%nat ->
     (length (recentActions (f record)) <= MAX_RECENT_ACTIONS)%nat /\
     (length (recentErrors (f record)) <= MAX_RECENT_ERRORS)%nat) ->
  bounded fm -> bounded (update_record agentId f fm).
Proof.
  intros Hf Hb other record' Hlook.
  destruct (decide (agentId = other)) as [<-|Hne].
  - destruct (agents fm !! agentId) as [record|] eqn:Hrec.
    + rewrite (update_record_lookup _ _ _ _ Hrec) in Hlook.
      injection Hlook as <-. apply Hf. exact (Hb _ _ Hrec).
    + rewrite (update_record_absent _ _ _ Hrec) in Hlook. congruence.
  - rewrite update_record_other in Hlook by exact Hne. exact (Hb _ _ Hlook).
Qed.

Lemma bounded_apply fm op : bounded fm -> bounded (apply StringToNumber fm op).
Proof.
  intros Hb. destruct op; cbn [apply].
  - intros other record' Hlook. unfold registerAgent in Hlook. cbn [markDirty agents] in Hlook.
    apply lookup_insert_Some in Hlook as [[_ <-]|[_ Hlook]]; [|exact (Hb _ _ Hlook)].
    cbn [recentActions recentErrors].
    destruct (agents fm !! Schema.identity_id (Schema.identity m)) as [existing|] eqn:Hex.
    + exact (Hb _ _ Hex).
    + cbn. unfold MAX_RECENT_ACTIONS, MAX_RECENT_ERRORS. lia.
  - intros other record' Hlook. unfold removeAgent in Hlook.
    destruct (agents fm !! agentId) eqn:Hex; cbn in Hlook.
    + apply lookup_delete_Some in Hlook as [_ Hlook]. exact (Hb _ _ Hlook).
    + exact (Hb _ _ Hlook).
  - apply bounded_update; [|exact Hb]. intros record Hr. exact Hr.
  - apply bounded_update; [|exact Hb]. intros record Hr. exact Hr.
  - apply bounded_update; [|exact Hb]. intros record Hr. exact Hr.
  - apply bounded_update; [|exact Hb]. intros record [_ Hr].
    cbn [recentActions recentErrors]. split; [apply unshift_capped_length | exact Hr].
  - apply bounded_update; [|exact Hb]. intros record [Hr _].
    cbn [recentActions recentErrors]. split; [exact Hr | apply unshift_capped_length].
Qed.

(** X1: whatever the manager is asked to do, and in whatever order, no
    record ever holds more than 200 recent actions or more than 50
    recent errors, provided none did at the start (as in a fleet that
    starts empty). *)
Theorem rings_stay_bounded (fm : FleetManager) (ops : list Op) :
  bounded fm -> bounded (run StringToNumber fm ops).
Proof.
  revert fm. induction ops as [|op ops IH]; intros fm Hb; [exact Hb|].
  cbn. apply IH. now apply bounded_apply.
Qed.

(** X2: a call about one agent leaves the records of all other agents
    as they are. *)
Theorem other_agents_untouched (fm : FleetManager) (op : Op) (agentId : string) :
  agentId <> target op ->
  getAgent agentId (apply StringToNumber fm op) = getAgent agentId fm.
Proof. apply apply_other. Qed.

(** X3: every call other than [registerAgent] about an agent the fleet
    does not hold changes nothing at all: no record appears, and the
    fleet is not even marked dirty. *)
Theorem unregistered_agent_ignored (fm : FleetManager) (op : Op) :
  is_register op = false ->
  getAgent (target op) fm = None ->
  apply StringToNumber fm op = fm.
Proof. apply apply_absent. Qed.

Lemma recorded_cons agentId op ops :
  recorded agentId (op :: ops) =
    if is_recordAction op && String.eqb (target op) agentId
    then op :: recorded agentId ops else recorded agentId ops.
Proof. reflexivity. Qed.

(** X4: as long as an agent is not removed and its counter, a double,
    stays within 2^53, its [totalActions] grows by exactly the number of
    [recordAction] calls made for it, whatever else happens in between
    (heartbeats, status reports, errors, calls for other agents, even
    registering it again), and its [deployedAt] stays what it was. *)
Theorem totalActions_counts_calls (ops : list Op) : forall (fm : FleetManager)
    (agentId : string) (record : AgentRecord),
  getAgent agentId fm = Some record ->
  kept agentId ops ->
  - 2 ^ 53 <= totalActions record ->
  totalActions record + Z.of_nat (length (recorded agentId ops)) <= 2 ^ 53 ->
  exists record',
    getAgent agentId (run StringToNumber fm ops) = Some record'
    /\ totalActions record' = totalActions record + Z.of_nat (length (recorded agentId ops))
    /\ deployedAt record' = deployedAt record.
Proof.
  unfold getAgent.
  induction ops as [|op ops IH]; intros fm agentId record Hrec Hkept Hlo Hhi.
  - exists record. cbn. repeat split; [exact Hrec | lia].
  - apply Forall_cons in Hkept as [Hop Hkept].
    rewrite recorded_cons in Hhi.
    assert (Hstep : exists record1,
              agents (apply StringToNumber fm op) !! agentId = Some record1
              /\ totalActions record1 = totalActions record
                   + (if is_recordAction op && String.eqb (target op) agentId then 1 else 0)
              /\ deployedAt record1 = deployedAt record).
    { destruct (String.eqb_spec (target op) agentId) as [Heq|Hne].
      - subst agentId. rewrite andb_true_r in *.
        destruct op; cbn [apply target is_recordAction is_remove] in *; try discriminate;
          try (eexists; split;
               [unfold updateAgentConnection, updateHeartbeat, updateAgentStatus,
                  recordError;
                apply update_record_lookup; exact Hrec
               | cbn [totalActions deployedAt]; split; [lia | reflexivity]]).
        + eexists. split.
          * unfold registerAgent. cbn [markDirty agents]. apply lookup_insert_eq.
          * cbn [totalActions deployedAt]. rewrite Hrec. cbn. split; [lia | reflexivity].
        + eexists. split.
          * unfold recordAction. apply update_record_lookup. exact Hrec.
          * cbn [totalActions deployedAt]. split; [|reflexivity].
            apply increment_exact. cbn [length] in Hhi. lia.
      - rewrite andb_false_r. exists record.
        rewrite apply_other by congruence. repeat split; [exact Hrec | lia]. }
    destruct Hstep as (record1 & Hrec1 & Hcount1 & Hdep1).
    destruct (IH _ _ _ Hrec1 Hkept) as (record' & Hrec' & Hcount & Hdep).
    { rewrite Hcount1. destruct (is_recordAction op && String.eqb (target op) agentId); lia. }
    { rewrite Hcount1.
      destruct (is_recordAction op && String.eqb (target op) agentId);
        cbn [length] in Hhi; lia. }
    exists record'. split; [exact Hrec'|]. split; [|congruence].
    rewrite Hcount, Hcount1, recorded_cons.
    destruct (is_recordAction op && String.eqb (target op) agentId); cbn [length]; lia.
Qed.

End Ops.

Lemma rings_stay_bounded_witness :
  bounded (load None)
  /\ bounded (run Samples.no_numerals (load None)
       [RegisterAgent Samples.noon Samples.manifest1 None;
        RecordAction "agent-1" Samples.spend_12_5;
        RecordError Samples.later "agent-1" "boom"]).
Proof.
  assert (H : bounded (load None)).
  { intros agentId record Hrec. cbn in Hrec. rewrite lookup_empty in Hrec. discriminate. }
  split; [exact H | exact (rings_stay_bounded _ _ _ H)].
Defined.

Lemma other_agents_untouched_witness :
  String.eqb "agent-2" (target (RecordAction "agent-1" Samples.spend_12_5)) = false
  /\ getAgent "agent-2"
       (apply Samples.no_numerals Samples.fleet1 (RecordAction "agent-1" Samples.spend_12_5))
     = getAgent "agent-2" Samples.fleet1.
Proof.
  split; [reflexivity|].
  apply (other_agents_untouched Samples.no_numerals). discriminate.
Defined.

Lemma unregistered_agent_ignored_witness :
  getAgent "agent-2" Samples.fleet1 = None
  /\ apply Samples.no_numerals Samples.fleet1 (RecordAction "agent-2" Samples.spend_12_5)
     = Samples.fleet1.
Proof.
  split; [reflexivity|].
  apply (unregistered_agent_ignored Samples.no_numerals); reflexivity.
Defined.

Lemma totalActions_counts_calls_witness :
  exists record record',
    getAgent "agent-1" Samples.fleet1 = Some record
    /\ getAgent "agent-1"
         (run Samples.no_numerals Samples.fleet1
            [RecordAction "agent-1" Samples.spend_12_5;
             RecordAction "agent-2" Samples.spend_12_5;
             RegisterAgent Samples.later Samples.manifest2 None;
             RecordAction "agent-1" Samples.browse_12_5]) = Some record'
    /\ totalActions record' = totalActions record + 2
    /\ deployedAt record' = Samples.noon.
Proof.
  destruct (getAgent "agent-1" Samples.fleet1) as [record|] eqn:Hrec;
    [|vm_compute in Hrec; discriminate].
  assert (Hzero : totalActions record = 0).
  { vm_compute in Hrec. injection Hrec as <-. reflexivity. }
  destruct (totalActions_counts_calls Samples.no_numerals
              [RecordAction "agent-1" Samples.spend_12_5;
               RecordAction "agent-2" Samples.spend_12_5;
               RegisterAgent Samples.later Samples.manifest2 None;
               RecordAction "agent-1" Samples.browse_12_5]
              Samples.fleet1 "agent-1" record Hrec)
    as (record' & Hrec' & Hcount & Hdep).
  { repeat constructor. }
  { rewrite Hzero. discriminate. }
  { rewrite Hzero. discriminate. }
  exists record, record'. split; [reflexivity|]. split; [exact Hrec'|].
  split; [exact Hcount|]. rewrite Hdep.
  vm_compute in Hrec. injection Hrec as <-. reflexivity.
Defined.

(** X5: a page of the action log.  For an offset and a limit that are
    not negative, [getAgentActions] returns the [limit] entries that
    follow the first [offset] ones, newest first, so never more than
    [limit]; consecutive pages put together are the larger page; and an
    agent the fleet does not hold has an empty log. *)
Theorem getAgentActions_pages (fm : FleetManager) (agentId : string)
    (limit more offset : Z) :
  0 <= offset -> 0 <= limit -> 0 <= more ->
  getAgentActions agentId (Some limit) (Some offset) fm =
    take (Z.to_nat limit) (drop (Z.to_nat offset)
      (default [] (recentActions <$> getAgent agentId fm)))
  /\ (length (getAgentActions agentId (Some limit) (Some offset) fm) <= Z.to_nat limit)%nat
  /\ getAgentActions agentId (Some limit) (Some offset) fm
       ++ getAgentActions agentId (Some more) (Some (offset + limit)) fm
     = getAgentActions agentId (Some (limit + more)) (Some offset) fm.
Proof.
  intros Ho Hl Hm. unfold getAgentActions, getAgent. cbn [default].
  destruct (agents fm !! agentId) as [record|]; cbn [fmap option_fmap option_map default].
  - rewrite (JsProps.slice_nonneg offset limit) by lia.
    rewrite (JsProps.slice_nonneg (offset + limit) more) by lia.
    rewrite (JsProps.slice_nonneg offset (limit + more)) by lia.
    split; [reflexivity|]. split; [rewrite length_take; lia|].
    rewrite Z2Nat.inj_add by lia.
    rewrite <- drop_drop.
    rewrite (Z2Nat.inj_add limit) by lia.
    apply take_take_drop.
  - rewrite drop_nil, take_nil. repeat split; cbn; lia.
Qed.

Lemma getAgentActions_pages_witness :
  getAgentActions "agent-1" (Some 1) (Some 0)
    (recordAction Samples.no_numerals "agent-1" Samples.spend_12_5
       (recordAction Samples.no_numerals "agent-1" Samples.browse_12_5 Samples.fleet1))
  ++ getAgentActions "agent-1" (Some 5) (Some 1)
    (recordAction Samples.no_numerals "agent-1" Samples.spend_12_5
       (recordAction Samples.no_numerals "agent-1" Samples.browse_12_5 Samples.fleet1))
  = [Samples.spend_12_5; Samples.browse_12_5].
Proof.
  destruct (getAgentActions_pages
              (recordAction Samples.no_numerals "agent-1" Samples.spend_12_5
                 (recordAction Samples.no_numerals "agent-1" Samples.browse_12_5 Samples.fleet1))
              "agent-1" 1 5 0) as (_ & _ & Hpages); [lia | lia | lia |].
  change (0 + 1) with 1 in Hpages. rewrite Hpages. reflexivity.
Defined.

(** X6: when the manager starts, no record it has read from the
    snapshot is online or unknown: every one is offline, with the rest
    of the record as the snapshot has it.  A snapshot whose version is
    not the number 1, like a missing or unreadable file, gives an empty
    fleet. *)
Theorem load_marks_all_offline (file : option FleetSnapshot) (agentId : string) :
  getAgent agentId (load file) =
    match file with
    | Some snapshot =>
        if is_version_1 (version snapshot)
        then offline_on_load <$> snapshot_agents snapshot !! agentId
        else None
    | None => None
    end
  /\ (forall record, getAgent agentId (load file) = Some record ->
        connection record = offline)
  /\ dirty (load file) = false.
Proof.
  unfold getAgent, load.
  destruct file as [snapshot|]; [destruct (is_version_1 (version snapshot))|];
    cbn [agents dirty]; rewrite ?lookup_fmap, ?lookup_empty;
    (split; [reflexivity | split; [|reflexivity]]); intros record Hrec; try discriminate.
  apply fmap_Some in Hrec as (r & _ & ->). reflexivity.
Qed.

End FleetExtras.

(* ===================================================================== *)
(** * Further properties of the approval manager *)
(* ===================================================================== *)

Module ApprovalExtras.
Import Approvals ApprovalProps.

Lemma NoDup_take_of {A} (n : nat) (l : list A) : NoDup l -> NoDup (take n l).
Proof.
  intros Hnd. rewrite <- (take_drop n l) in Hnd.
  now apply NoDup_app in Hnd as (H & _ & _).
Qed.

Lemma elem_of_take_of {A} (n : nat) (l : list A) x : x ∈ take n l -> x ∈ l.
Proof. intros H. rewrite <- (take_drop n l). apply elem_of_app. now left. Qed.

Lemma map_set_elem_strict {V} (k : string) (v : V) (m : list (string * V)) e :
  NoDup (fst <$> m) -> e ∈ map_set k v m -> e = (k, v) \/ (e ∈ m /\ e.1 <> k).
Proof.
  induction m as [|[k' v'] m IH]; cbn [map_set]; intros Hnd He.
  - apply list_elem_of_singleton in He. now left.
  - cbn in Hnd. apply NoDup_cons in Hnd as [Hni Hnd].
    destruct (String.eqb_spec k' k) as [->|Hne].
    + apply elem_of_cons in He as [->|He]; [now left|]. right.
      split; [apply elem_of_cons; now right|].
      intros <-. apply Hni. apply list_elem_of_fmap. eauto.
    + apply elem_of_cons in He as [->|He].
      * right. split; [apply elem_of_cons; now left | exact Hne].
      * destruct (IH Hnd He) as [->|[Hin Hk]]; [now left|].
        right. split; [apply elem_of_cons; now right | exact Hk].
Qed.

Lemma map_get_set {V} (k : string) (v : V) (m : list (string * V)) :
  map_get k (map_set k v m) = Some v.
Proof.
  unfold map_get. induction m as [|[k' v'] m IH]; cbn.
  - now rewrite String.eqb_refl.
  - destruct (String.eqb k' k) eqn:E; cbn.
    + now rewrite String.eqb_refl.
    + rewrite E. exact IH.
Qed.

Lemma map_get_set_ne {V} (k k' : string) (v : V) (m : list (string * V)) :
  k <> k' -> map_get k' (map_set k v m) = map_get k' m.
Proof.
  intros Hne. unfold map_get. induction m as [|[k0 v0] m IH]; cbn.
  - destruct (String.eqb_spec k k'); [contradiction | reflexivity].
  - destruct (String.eqb_spec k0 k) as [->|Hk]; cbn.
    + destruct (String.eqb_spec k k'); [contradiction | reflexivity].
    + destruct (String.eqb k0 k'); [reflexivity | exact IH].
Qed.

Lemma map_set_length {V} (k : string) (v : V) (m : list (string * V)) :
  length (map_set k v m) =
    match map_get k m with Some _ => length m | None => S (length m) end.
Proof.
  unfold map_get. induction m as [|[k0 v0] m IH]; cbn; [reflexivity|].
  destruct (String.eqb k0 k); cbn; [reflexivity|].
  rewrite IH. now destruct (List.find _ m).
Qed.

Lemma settled_empty : settled empty.
Proof.
  unfold settled, empty; cbn. split; [apply NoDup_nil_2|].
  split; intros x Hx; now apply elem_of_nil in Hx.
Qed.

Lemma settled_addRequest iso agent request am :
  wf am -> settled am -> settled (addRequest iso agent request am).2.
Proof.
  intros Hwf (Hnd & Hhist & Hids). pose proof Hwf as (_ & _ & _ & Hdom & _).
  unfold addRequest, settled; cbn [snd heap next queue history].
  split; [exact Hnd|]. split.
  - intros a Ha. destruct (Hhist a Ha) as (approval & Hheap & Hst).
    exists approval. split; [|exact Hst].
    assert (a < next am)%nat by (apply Hdom; eauto).
    rewrite lookup_insert_ne by lia. exact Hheap.
  - intros e He. apply map_set_elem in He as [->|He].
    + eexists. cbn [snd fst]. rewrite lookup_insert_eq. split; reflexivity.
    + destruct (Hids e He) as (approval & Hheap & Hid).
      exists approval. split; [|exact Hid].
      pose proof (queue_below_next am e Hwf He).
      rewrite lookup_insert_ne by lia. exact Hheap.
Qed.

Lemma settled_resolve iso requestId ok by_ why am :
  wf am -> settled am -> settled (resolve iso requestId ok by_ why am).2.
Proof.
  intros Hwf (Hnd & Hhist & Hids). pose proof Hwf as (Hk & Hv & Hpend & Hdom & Hlen).
  unfold resolve.
  destruct (map_get requestId (queue am)) as [a|] eqn:Hget; [|now repeat split].
  destruct (heap am !! a) as [approval|] eqn:Hheap; [|now repeat split].
  destruct (is_pending (state approval)) eqn:Hp; [|now repeat split].
  apply map_get_elem in Hget.
  assert (Hfresh : a ∉ history am).
  { intros Ha. destruct (Hhist a Ha) as (approval0 & H0 & Hst).
    rewrite Hheap in H0. injection H0 as <-.
    destruct (state approval); try discriminate. now apply Hst. }
  unfold settled; cbn [snd heap next queue history]. split; [|split].
  - apply NoDup_take_of. apply NoDup_cons. now split.
  - intros a' Ha'. apply elem_of_take_of in Ha'.
    apply elem_of_cons in Ha' as [->|Ha'].
    + eexists. rewrite lookup_insert_eq. split; [reflexivity|].
      cbn [state resolved]. now destruct ok.
    + destruct (Hhist a' Ha') as (approval0 & H0 & Hst).
      exists approval0. split; [|exact Hst].
      rewrite lookup_insert_ne; [exact H0|]. intros <-. contradiction.
  - intros e He. apply map_delete_elem in He as [He Hne].
    destruct (Hids e He) as (approval0 & H0 & Hid).
    exists approval0. split; [|exact Hid].
    rewrite lookup_insert_ne; [exact H0|]. intros Heq.
    apply Hne. symmetry in Heq.
    now rewrite (NoDup_snd_inj (queue am) e (requestId, a) Hv He Hget Heq).
Qed.

Section Scan.

Variable getTime : string -> option Z.

Lemma settled_expireStale now am :
  wf am -> settled am -> settled (expireStale getTime now am).
Proof.
  intros Hwf (Hnd & Hhist & Hids).
  destruct (expireStale_spec getTime now am Hwf) as (Hq & Hh & Hn & Hheap).
  pose proof Hwf as (Hk & Hv & Hpend & Hdom & Hlen).
  unfold settled. rewrite Hq, Hh. split; [|split].
  - apply NoDup_take_of. apply NoDup_app. split; [|split].
    + apply NoDup_ListNoDup, NoDup_rev, NoDup_ListNoDup. now apply NoDup_fmap_filter.
    + intros a Ha Hin. apply list_elem_of_In, in_rev, list_elem_of_In in Ha.
      destruct (stale_address getTime now am a Ha) as (approval & H1 & H2 & _).
      destruct (Hhist a Hin) as (approval0 & H0 & Hst). congruence.
    + exact Hnd.
  - intros a Ha. apply elem_of_take_of in Ha. rewrite (Hheap a).
    apply elem_of_app in Ha as [Ha|Ha].
    + apply list_elem_of_In, in_rev, list_elem_of_In in Ha. rewrite decide_True by exact Ha.
      destruct (stale_address getTime now am a Ha) as (approval & H1 & _).
      rewrite H1. eexists. split; [reflexivity|]. discriminate.
    + destruct (Hhist a Ha) as (approval0 & H0 & Hst).
      destruct (decide _) as [Hin|_].
      * destruct (stale_address getTime now am a Hin) as (approval & H1 & H2 & _). congruence.
      * eauto.
  - intros e He. apply list_elem_of_In, filter_In in He as [He _].
    apply list_elem_of_In in He.
    destruct (Hids e He) as (approval0 & H0 & Hid). rewrite (Hheap e.2), H0.
    destruct (decide _); eexists; (split; [reflexivity|]); exact Hid.
Qed.

Lemma settled_apply am op : wf am -> settled am -> settled (apply getTime am op).
Proof.
  destruct op; cbn [apply];
    [apply settled_addRequest | apply settled_resolve | apply settled_expireStale].
Qed.

Lemma settled_run ops : forall am, wf am -> settled am -> settled (run getTime am ops).
Proof.
  induction ops as [|op ops IH]; intros am Hwf Hs; cbn; [exact Hs|].
  apply IH; [now apply wf_apply | now apply settled_apply].
Qed.

Lemma getPending_all am : wf am -> getPending None am = snd <$> queue am.
Proof.
  intros (_ & _ & Hpend & _). unfold getPending.
  assert (H : forall l, (forall e, e ∈ l -> e ∈ queue am) ->
            List.filter (fun a => match heap am !! a with
                                  | Some approval => is_pending (state approval)
                                  | None => false end) (snd <$> l) = snd <$> l).
  { induction l as [|e l IH]; intros Hl; [reflexivity|]. cbn.
    destruct (Hpend e) as (approval & -> & ->); [apply Hl, elem_of_cons; now left|].
    cbn. f_equal. apply IH. intros e' He'. apply Hl, elem_of_cons. now right. }
  now apply H.
Qed.

(** X8: in every state the approval manager can reach, the history
    holds at most 1000 approvals, none of them twice, each of them
    resolved or expired and none still queued; every queued approval is
    pending and filed under its own id, so that [getPending()] returns
    the whole queue in the order of arrival. *)
Theorem history_holds_settled_approvals (ops : list Op) :
  let am := run getTime empty ops in
  (length (history am) <= 1000)%nat
  /\ NoDup (history am)
  /\ (forall a, a ∈ history am ->
        (a ∉ snd <$> queue am)
        /\ exists approval, heap am !! a = Some approval /\ state approval <> pending)
  /\ (forall requestId a, getApproval requestId am = Some a ->
        exists approval,
          heap am !! a = Some approval /\ id approval = requestId
          /\ state approval = pending)
  /\ getPending None am = snd <$> queue am.
Proof.
  intros am.
  assert (Hwf : wf am) by (apply wf_run, wf_empty).
  assert (Hs : settled am) by (apply settled_run; [apply wf_empty | apply settled_empty]).
  destruct Hs as (Hnd & Hhist & Hids). pose proof Hwf as (_ & _ & Hpend & _ & Hlen).
  split; [exact Hlen|]. split; [exact Hnd|]. split; [|split].
  - intros a Ha. destruct (Hhist a Ha) as (approval & H0 & Hst).
    split; [|eauto]. intros Hin. apply list_elem_of_fmap in Hin as (e & -> & He).
    destruct (Hpend e He) as (approval' & H1 & H2). congruence.
  - intros requestId a Hget. apply map_get_elem in Hget.
    destruct (Hids _ Hget) as (approval & H0 & Hid).
    destruct (Hpend _ Hget) as (approval' & H1 & H2).
    exists approval. cbn in *. split; [exact H0|]. split; [exact Hid | congruence].
  - now apply getPending_all.
Qed.

Lemma expire_nothing now l : forall am,
  (forall e, e ∈ l -> stale getTime now am e = false) ->
  fold_left (expire_entry getTime now) l am = am.
Proof.
  induction l as [|e l IH]; intros am Hl; [reflexivity|]. cbn.
  rewrite expire_entry_fresh by (apply Hl, elem_of_cons; now left).
  apply IH. intros e' He'. apply Hl, elem_of_cons. now right.
Qed.

Lemma stale_earlier now now' am e :
  now' <= now -> stale getTime now am e = false -> stale getTime now' am e = false.
Proof.
  unfold stale, is_past. intros Hle.
  destruct (heap am !! e.2) as [approval|]; [|reflexivity].
  destruct (is_pending (state approval)); [|reflexivity]. cbn.
  destruct (getTime (expiresAt approval)) as [t|]; [|reflexivity].
  rewrite !Z.ltb_ge. lia.
Qed.

Lemma expireStale_leaves_none_stale now am e :
  wf am -> e ∈ queue (expireStale getTime now am) ->
  stale getTime now (expireStale getTime now am) e = false.
Proof.
  intros Hwf He.
  destruct (expireStale_spec getTime now am Hwf) as (Hq & _ & _ & Hheap).
  pose proof Hwf as (_ & Hv & _).
  rewrite Hq in He. apply list_elem_of_In, filter_In in He as [He Hfresh].
  apply list_elem_of_In in He. apply negb_true_iff in Hfresh.
  rewrite <- Hfresh. apply stale_ext. rewrite (Hheap e.2).
  destruct (decide _) as [Hin|_]; [|reflexivity].
  apply list_elem_of_fmap in Hin as (e' & Heq & He').
  apply stale_elem in He' as [He' Hs].
  rewrite (NoDup_snd_inj (queue am) e e' Hv He He' Heq) in Hfresh. congruence.
Qed.

(** X9: once the expiry scan has run, running it again at the same or
    an earlier clock reading changes nothing: no approval is expired
    twice, nothing is added to the history and no callback is made. *)
Theorem expireStale_idempotent (ops : list Op) (now now' : Z) :
  now' <= now ->
  let am := expireStale getTime now (run getTime empty ops) in
  expireStale getTime now' am = am.
Proof.
  intros Hle am. unfold expireStale at 1. apply expire_nothing.
  intros e He. apply (stale_earlier now); [exact Hle|].
  apply expireStale_leaves_none_stale; [|exact He]. apply wf_run, wf_empty.
Qed.

Lemma unreferenced_apply am op a :
  wf am -> unreferenced am a ->
  unreferenced (apply getTime am op) a /\ heap (apply getTime am op) !! a = heap am !! a.
Proof.
  intros Hwf (Hlt & Hq & Hh). pose proof Hwf as (Hk & Hv & Hpend & Hdom & Hlen).
  destruct op as [iso agent request|iso requestId ok by_ why|now]; cbn [apply].
  - unfold addRequest, unreferenced; cbn [snd heap next queue history].
    split; [split; [lia | split; [|exact Hh]] | apply lookup_insert_ne; lia].
    intros Hin. apply list_elem_of_fmap in Hin as (e & -> & He).
    apply map_set_elem in He as [->|He]; [cbn in Hlt; lia|].
    apply Hq. apply list_elem_of_fmap. eauto.
  - unfold resolve.
    destruct (map_get requestId (queue am)) as [a'|] eqn:Hget; [|now repeat split].
    destruct (heap am !! a') as [approval|] eqn:Hheap; [|now repeat split].
    destruct (is_pending (state approval)) eqn:Hp; [|now repeat split].
    apply map_get_elem in Hget.
    assert (Hne : a' <> a).
    { intros ->. apply Hq. apply list_elem_of_fmap. now exists (requestId, a). }
    unfold unreferenced; cbn [snd heap next queue history].
    split; [split; [exact Hlt | split] | now apply lookup_insert_ne].
    + intros Hin. apply list_elem_of_fmap in Hin as (e & -> & He).
      apply map_delete_elem in He as [He _]. apply Hq. apply list_elem_of_fmap. eauto.
    + intros Hin. apply elem_of_take_of in Hin.
      apply elem_of_cons in Hin as [->|Hin]; [now apply Hne | now apply Hh].
  - destruct (expireStale_spec getTime now am Hwf) as (Hq' & Hh' & Hn' & Hheap).
    assert (Hns : a ∉ snd <$> List.filter (stale getTime now am) (queue am)).
    { intros Hin. apply Hq. apply list_elem_of_fmap in Hin as (e & -> & He).
      apply stale_elem in He as [He _]. apply list_elem_of_fmap. eauto. }
    unfold unreferenced. rewrite Hq', Hh', Hn', (Hheap a).
    split; [split; [exact Hlt | split] | now rewrite decide_False by exact Hns].
    + intros Hin. apply list_elem_of_fmap in Hin as (e & -> & He).
      apply list_elem_of_In, filter_In in He as [He _]. apply list_elem_of_In in He.
      apply Hq. apply list_elem_of_fmap. eauto.
    + intros Hin. apply elem_of_take_of in Hin.
      apply elem_of_app in Hin as [Hin|Hin]; [|now apply Hh].
      apply list_elem_of_In, in_rev, list_elem_of_In in Hin. now apply Hns.
Qed.

Lemma unreferenced_run ops : forall am a,
  wf am -> unreferenced am a ->
  unreferenced (run getTime am ops) a /\ heap (run getTime am ops) !! a = heap am !! a.
Proof.
  induction ops as [|op ops IH]; intros am a Hwf Hu; [now split|].
  change (run getTime am (op :: ops)) with (run getTime (apply getTime am op) ops).
  destruct (unreferenced_apply am op a Hwf Hu) as [Hu' Heq].
  destruct (IH _ a (wf_apply getTime am op Hwf) Hu') as [Hu'' Heq'].
  split; [exact Hu'' | now rewrite Heq', Heq].
Qed.

(** X10: a request whose id is already queued takes the place of the
    earlier request without a word.  From then on the earlier approval
    can no longer be looked up, resolved or expired: whatever happens
    later, it stays pending as it was and never reaches the history. *)
Theorem duplicate_id_strands_earlier_request (ops later : list Op) (iso agent : string)
    (request : Wire.ApprovalRequest) (a : nat) :
  let am := run getTime empty ops in
  getApproval (Wire.request_id request) am = Some a ->
  let am' := run getTime (addRequest iso agent request am).2 later in
  (exists approval,
     heap am !! a = Some approval /\ heap am' !! a = Some approval
     /\ state approval = pending)
  /\ (a ∉ history am')
  /\ (forall requestId, getApproval requestId am' = Some a -> False)
  /\ (a ∉ getPending None am').
Proof.
  intros am Hget am'.
  assert (Hwf : wf am) by (apply wf_run, wf_empty).
  assert (Hs : settled am) by (apply settled_run; [apply wf_empty | apply settled_empty]).
  pose proof Hwf as (Hk & Hv & Hpend & Hdom & Hlen). destruct Hs as (_ & Hhist & _).
  apply map_get_elem in Hget.
  destruct (Hpend _ Hget) as (approval & Hheap & Hst). cbn [snd] in Hheap.
  assert (Hlt : (a < next am)%nat) by (apply Hdom; eauto).
  assert (Hu : unreferenced (addRequest iso agent request am).2 a).
  { unfold unreferenced, addRequest; cbn [snd heap next queue history].
    split; [lia | split].
    - intros Hin. apply list_elem_of_fmap in Hin as (e & Heq & He).
      apply (map_set_elem_strict _ _ _ _ Hk) in He as [->|[He Hne]]; [cbn in Heq; lia|].
      apply Hne.
      now rewrite <- (NoDup_snd_inj (queue am) (Wire.request_id request, a) e Hv Hget He Heq).
    - intros Hin. destruct (Hhist a Hin) as (approval0 & H0 & Hst0).
      rewrite Hheap in H0. injection H0 as <-. contradiction. }
  assert (Hwf1 : wf (addRequest iso agent request am).2) by now apply wf_addRequest.
  destruct (unreferenced_run later _ a Hwf1 Hu) as ((_ & Hq' & Hh') & Hsame).
  fold am' in Hq', Hh', Hsame.
  assert (Hheap1 : heap am' !! a = Some approval).
  { rewrite Hsame. unfold addRequest; cbn [snd heap]. rewrite lookup_insert_ne by lia.
    exact Hheap. }
  split; [exists approval; now repeat split|]. split; [exact Hh'|]. split.
  - intros requestId Hg. apply map_get_elem in Hg. apply Hq'.
    apply list_elem_of_fmap. now exists (requestId, a).
  - rewrite getPending_all by (apply wf_run; exact Hwf1). exact Hq'.
Qed.

(** X11: [addRequest] files the approval under the id of the request:
    it can be looked up there at once, pending, for the agent and with
    the creation time given and the rest as in the request, and one
    [onNewApproval] call is made with it.  Every other id is found as
    before.  The queue grows by one, unless the id was queued already. *)
Theorem addRequest_then_getApproval (iso agent : string) (request : Wire.ApprovalRequest)
    (am : ApprovalManager) :
  let a := (addRequest iso agent request am).1 in
  let am' := (addRequest iso agent request am).2 in
  getApproval (Wire.request_id request) am' = Some a
  /\ (exists approval,
        heap am' !! a = Some approval
        /\ id approval = Wire.request_id request /\ agentId approval = agent
        /\ createdAt approval = iso /\ state approval = pending
        /\ expiresAt approval = Wire.request_expiresAt request
        /\ amount approval = Wire.request_amount request
        /\ calls am' = calls am ++ [onNewApproval approval])
  /\ (forall requestId, requestId <> Wire.request_id request ->
        getApproval requestId am' = getApproval requestId am)
  /\ length (queue am') =
       match getApproval (Wire.request_id request) am with
       | Some _ => length (queue am)
       | None => S (length (queue am))
       end
  /\ history am' = history am.
Proof.
  intros a am'. unfold a, am', getApproval, addRequest; cbn [fst snd heap queue calls history].
  split; [apply map_get_set|]. split.
  - eexists. rewrite lookup_insert_eq. repeat split.
  - split; [intros requestId Hne; now apply map_get_set_ne|].
    split; [apply map_set_length | reflexivity].
Qed.

Lemma count_states (l : list PendingApproval) :
  Forall (fun a => state a <> pending) l ->
  (count_state approved l + count_state denied l + count_state expired l = length l)%nat.
Proof.
  unfold count_state. induction 1 as [|a l Ha _ IH]; [reflexivity|]. cbn.
  destruct (state a); try contradiction; cbn; lia.
Qed.

(** X12: in every state the manager can reach, the summary is
    consistent: [pending] is the number of approvals [getPending()]
    returns, and the counts of approved, denied and expired approvals of
    the day add up to the number of history entries of the day, which is
    at most 1000. *)
Theorem getSummary_consistent (ops : list Op) (iso : string) :
  let am := run getTime empty ops in
  let summary := getSummary iso am in
  summary_pending summary = length (getPending None am)
  /\ (approvedToday summary + deniedToday summary + expiredToday summary
       = length (todayHistory iso am))%nat
  /\ (length (todayHistory iso am) <= 1000)%nat.
Proof.
  intros am summary.
  assert (Hwf : wf am) by (apply wf_run, wf_empty).
  assert (Hs : settled am) by (apply settled_run; [apply wf_empty | apply settled_empty]).
  destruct Hs as (_ & Hhist & _). pose proof Hwf as (_ & _ & _ & _ & Hlen).
  split; [|split].
  - rewrite getPending_all by exact Hwf. cbn. now rewrite length_fmap.
  - apply count_states. unfold todayHistory.
    apply Forall_forall. intros approval Hin.
    apply list_elem_of_In, filter_In in Hin as [Hin _]. apply list_elem_of_In in Hin.
    apply list_elem_of_omap in Hin as (a & Ha & Hheap).
    destruct (Hhist a Ha) as (approval0 & H0 & Hst). congruence.
  - unfold todayHistory.
    etransitivity; [apply List.filter_length_le|].
    etransitivity; [|exact Hlen].
    generalize (history am). clear.
    induction l as [|a h IH]; cbn; [lia|].
    destruct (heap am !! a); cbn; lia.
Qed.

End Scan.

Lemma expireStale_idempotent_witness :
  1500 <= 2000
  /\ expireStale Samples.getTime 1500
       (expireStale Samples.getTime 2000
          (run Samples.getTime empty [AddRequest Samples.noon "agent-1" Samples.request1]))
     = expireStale Samples.getTime 2000
         (run Samples.getTime empty [AddRequest Samples.noon "agent-1" Samples.request1]).
Proof.
  split; [lia|].
  apply (expireStale_idempotent Samples.getTime
           [AddRequest Samples.noon "agent-1" Samples.request1] 2000 1500). lia.
Defined.

Lemma duplicate_id_strands_earlier_request_witness :
  getApproval "R1" Samples.approvals1 = Some O
  /\ exists approval,
       heap (run Samples.getTime
               (addRequest Samples.later "agent-2" Samples.request1 Samples.approvals1).2
               [Resolve Samples.later "R1" true "owner" None; ExpireStale 5000]) !! O
         = Some approval
       /\ agentId approval = "agent-1" /\ state approval = pending.
Proof.
  split; [reflexivity|].
  destruct (duplicate_id_strands_earlier_request Samples.getTime
              [AddRequest Samples.noon "agent-1" Samples.request1]
              [Resolve Samples.later "R1" true "owner" None; ExpireStale 5000]
              Samples.later "agent-2" Samples.request1 O eq_refl)
    as ((approval & Hbefore & Hafter & Hstate) & _).
  exists approval. split; [exact Hafter|]. split; [|exact Hstate].
  vm_compute in Hbefore. injection Hbefore as <-. reflexivity.
Defined.

(** X13: the history is read newest first.  Right after a response is
    recorded, the first page of [getHistory] starts with the approval
    just resolved, followed by the earlier entries, cut at the limit
    asked for and at the 1000 entries the manager keeps; without
    arguments the page has at most 50 entries. *)
Theorem getHistory_newest_first (iso requestId : string) (ok : bool) (by_ : string)
    (why : option string) (am am' : ApprovalManager) (a : nat) (limit : Z) :
  resolve iso requestId ok by_ why am = (Some a, am') ->
  0 <= limit ->
  getHistory (Some limit) None am' = take (Z.to_nat limit `min` 1000) (a :: history am)
  /\ getHistory None None am' = take 50 (a :: history am).
Proof.
  intros Hres Hlimit.
  assert (Hh : history am' = take 1000 (a :: history am)).
  { unfold resolve in Hres.
    destruct (map_get requestId (queue am)) as [a'|]; [|discriminate].
    destruct (heap am !! a') as [approval|]; [|discriminate].
    destruct (is_pending (state approval)); [|discriminate].
    injection Hres as <- <-. reflexivity. }
  unfold getHistory. cbn [default].
  rewrite (JsProps.slice_nonneg 0 limit) by lia.
  rewrite (JsProps.slice_nonneg 0 50) by lia.
  rewrite Hh. change (Z.to_nat 0) with O. change (Z.to_nat 50) with 50%nat.
  rewrite !drop_0, !take_take. split; reflexivity.
Qed.

Lemma getHistory_newest_first_witness :
  getHistory (Some 5) None
    (resolve Samples.later "R1" true "owner" None Samples.approvals1).2 = [O].
Proof.
  destruct (getHistory_newest_first Samples.later "R1" true "owner" None Samples.approvals1
              (resolve Samples.later "R1" true "owner" None Samples.approvals1).2 O 5)
    as [Hpage _]; [reflexivity | lia |].
  rewrite Hpage. reflexivity.
Defined.

End ApprovalExtras.

(* ===================================================================== *)
(** * Further properties of the control plane server *)
(* ===================================================================== *)

Module ControlPlaneExtras.
Import ControlPlane ControlPlaneProps.


Lemma update_record_dom agentId f fm other :
  is_Some (Fleet.agents (Fleet.update_record agentId f fm) !! other)
  <-> is_Some (Fleet.agents fm !! other).
Proof.
  destruct (decide (agentId = other)) as [<-|Hne].
  - destruct (Fleet.agents fm !! agentId) as [record|] eqn:Hrec.
    + rewrite (FleetProps.update_record_lookup _ _ _ _ Hrec). split; eauto.
    + now rewrite (FleetProps.update_record_absent _ _ _ Hrec), Hrec.
  - now rewrite FleetProps.update_record_other by exact Hne.
Qed.

Section Steps.

Variable StringToNumber : string -> float.





Lemma fleet_dom_step s e other :
  is_Some (Fleet.getAgent other (fleet (step StringToNumber s e)))
  <-> is_Some (Fleet.getAgent other (fleet s)).
Proof.
  unfold Fleet.getAgent. destruct e as [iso agent remote|iso w msg|w|]; cbn [step].
  - rewrite handleConnection_fleet. apply update_record_dom.
  - destruct (sockets s !! w) as [sock|]; [|reflexivity].
    assert (H : forall agent,
              is_Some (Fleet.agents (fleet (handleAgentMessage StringToNumber iso agent msg s))
                         !! other)
              <-> is_Some (Fleet.agents (fleet s) !! other)).
    { intros agent. destruct msg; cbn [handleAgentMessage fleet set_fleet set_agents set_approvals];
        try apply update_record_dom. reflexivity. }
    destruct (readyState sock); try reflexivity; destruct (listener sock);
      try reflexivity; apply H.
  - destruct (sockets s !! w) as [sock|]; [|reflexivity].
    destruct (listener sock) as [agent|]; [|reflexivity].
    unfold on_close. case_bool_decide; [|reflexivity].
    cbn [fleet set_fleet set_agents set_sockets]. apply update_record_dom.
  - reflexivity.
Qed.

(** X14: the control plane neither registers nor removes fleet
    records.  Whatever connects and whatever frames arrive, the fleet
    holds a record for exactly the agents it held when the server was
    created; an agent that was never registered is admitted, but its
    heartbeats, status reports, actions and errors leave no trace. *)
Theorem server_keeps_fleet_membership (c : ControlPlaneConfig) (fm : Fleet.FleetManager)
    (am : Approvals.ApprovalManager) (es : list Event) (agent : string) :
  let s := run StringToNumber (create c fm am) es in
  (is_Some (Fleet.getAgent agent (fleet s)) <-> is_Some (Fleet.getAgent agent fm))
  /\ (forall iso w msg sock,
        Fleet.getAgent agent fm = None ->
        sockets s !! w = Some sock -> listener sock = Some agent ->
        fleet (step StringToNumber s (Message iso w msg)) = fleet s).
Proof.
  intros s. assert (Hdom : forall es s0,
    is_Some (Fleet.getAgent agent (fleet (run StringToNumber s0 es)))
    <-> is_Some (Fleet.getAgent agent (fleet s0))).
  { clear. induction es as [|e es IH]; intros s0; cbn; [reflexivity|].
    change (fold_left (step StringToNumber) es (step StringToNumber s0 e))
      with (run StringToNumber (step StringToNumber s0 e) es).
    rewrite IH. apply fleet_dom_step. }
  split; [apply (Hdom es (create c fm am))|].
  intros iso w msg sock Hnone Hsock Hlis.
  assert (Habs : Fleet.agents (fleet s) !! agent = None).
  { destruct (Fleet.agents (fleet s) !! agent) eqn:E; [|reflexivity].
    destruct (proj1 (Hdom es (create c fm am))) as [x Hx]; [unfold Fleet.getAgent; eauto|].
    cbn in Hx. congruence. }
  cbn [step]. rewrite Hsock, Hlis.
  assert (H : fleet (handleAgentMessage StringToNumber iso agent msg s) = fleet s).
  { destruct msg; cbn [handleAgentMessage fleet set_fleet set_agents set_approvals];
      try reflexivity;
      unfold Fleet.updateHeartbeat, Fleet.updateAgentStatus, Fleet.recordAction,
        Fleet.recordError; now apply FleetProps.update_record_absent. }
  destruct (readyState sock); try reflexivity; exact H.
Qed.


Lemma socket_close_unindexed s w :
  agents s = ∅ ->
  agents (step StringToNumber s (SocketClose w)) = ∅
  /\ fleet (step StringToNumber s (SocketClose w)) = fleet s
  /\ approvals (step StringToNumber s (SocketClose w)) = approvals s.
Proof.
  intros Hempty. cbn [step].
  destruct (sockets s !! w) as [sock|]; [|now repeat split].
  destruct (listener sock) as [agent|]; [|now repeat split].
  unfold on_close. cbn [agents set_sockets]. rewrite Hempty, lookup_empty. cbn.
  rewrite bool_decide_eq_false_2 by discriminate. now repeat split.
Qed.

Lemma close_readyState (index : gmap string ConnectedAgent) (socks : gmap nat Socket) :
  let socks' :=
    map_fold (fun _ conn acc => alter (ws_close 1001 "Control plane shutting down") (ws conn) acc)
             socks index in
  forall agent conn sock, index !! agent = Some conn -> socks' !! ws conn = Some sock ->
    readyState sock <> OPEN.
Proof.
  cbv zeta. intros agent conn sock Hconn Hsock Hopen.
  destruct (close_sockets index socks (ws conn) sock Hsock Hopen) as [_ Hnone].
  now apply (Hnone agent conn Hconn).
Qed.

(** X16: [close()] closes the sockets and clears the index but tells
    the fleet nothing, and with the index empty the close events that
    follow tell it nothing either.  So after a shutdown no agent is
    reachable, yet every fleet record is as it was: the agents that were
    connected are still marked online. *)
Theorem shutdown_leaves_fleet_untouched (s : Server) (closing : list nat) :
  let s' := run StringToNumber s (Shutdown :: (SocketClose <$> closing)) in
  agents s' = ∅
  /\ fleet s' = fleet s
  /\ approvals s' = approvals s
  /\ (forall agent msg, sendToAgent agent msg s' = (false, s'))
  /\ (forall agent conn sock,
        agents s !! agent = Some conn ->
        sockets (step StringToNumber s Shutdown) !! ws conn = Some sock ->
        readyState sock <> OPEN).
Proof.
  intros s'.
  assert (H : forall l s0, agents s0 = ∅ ->
            agents (run StringToNumber s0 (SocketClose <$> l)) = ∅
            /\ fleet (run StringToNumber s0 (SocketClose <$> l)) = fleet s0
            /\ approvals (run StringToNumber s0 (SocketClose <$> l)) = approvals s0).
  { induction l as [|w l IH]; intros s0 H0; [now repeat split|].
    destruct (socket_close_unindexed s0 w H0) as (Ha & Hf & Hp).
    destruct (IH _ Ha) as (Ha' & Hf' & Hp').
    change (run StringToNumber s0 (SocketClose <$> w :: l))
      with (run StringToNumber (step StringToNumber s0 (SocketClose w)) (SocketClose <$> l)).
    repeat split; congruence. }
  destruct (H closing (step StringToNumber s Shutdown) eq_refl) as (Ha & Hf & Hp).
  change (run StringToNumber (step StringToNumber s Shutdown) (SocketClose <$> closing))
    with s' in Ha, Hf, Hp.
  split; [exact Ha|]. split; [exact Hf|]. split; [exact Hp|]. split.
  - intros agent msg. unfold sendToAgent. now rewrite Ha, lookup_empty.
  - intros agent conn sock. apply close_readyState.
Qed.

(** X17: in every state the server reaches, [isAgentOnline] tells
    exactly whether the agent has a live session, and [sendToAgent]
    returns that same answer: when the agent is not online nothing is
    written and nothing changes; when it is, the message is appended to
    what was written on the socket of its live session, and every other
    socket, the index, the fleet and the approvals stay as they were. *)
Theorem sendToAgent_reaches_live_session (c : ControlPlaneConfig) (fm : Fleet.FleetManager)
    (am : Approvals.ApprovalManager) (es : list Event) (agent : string)
    (msg : Wire.ControlMessage) :
  let s := run StringToNumber (create c fm am) es in
  let s' := (sendToAgent agent msg s).2 in
  (sendToAgent agent msg s).1 = isAgentOnline agent s
  /\ (isAgentOnline agent s = true <-> exists w, live s agent w)
  /\ (isAgentOnline agent s = false -> s' = s)
  /\ (forall w sock, sockets s !! w = Some sock ->
        readyState sock = OPEN -> listener sock = Some agent ->
        sockets s' = <[w := written msg sock]> (sockets s))
  /\ agents s' = agents s /\ fleet s' = fleet s /\ approvals s' = approvals s.
Proof.
  intros s s'.
  assert (Hs : indexed s) by (apply indexed_run, indexed_create).
  destruct Hs as [Hlive Hidx]. unfold s', sendToAgent, isAgentOnline.
  split; [|split; [|split; [|split]]].
  - destruct (agents s !! agent) as [conn|]; [|reflexivity].
    destruct (sockets s !! ws conn) as [sock|]; [|reflexivity].
    now destruct (is_open (readyState sock)).
  - split.
    + destruct (agents s !! agent) as [conn|] eqn:Hc; [|discriminate].
      destruct (Hidx _ _ Hc) as (sock & Hsock & Hlis). rewrite Hsock. intros Hopen.
      exists (ws conn), sock. repeat split; try assumption.
      now destruct (readyState sock).
    + intros (w & Hl). pose proof (Hlive _ _ Hl) as Hw. destruct Hl as (sock & Hsock & Hopen & _).
      destruct (agents s !! agent) as [conn|]; [|discriminate].
      injection Hw as ->. now rewrite Hsock, Hopen.
  - destruct (agents s !! agent) as [conn|]; [|reflexivity].
    destruct (sockets s !! ws conn) as [sock|]; [|reflexivity].
    now intros ->.
  - intros w sock Hsock Hopen Hlis.
    assert (Hl : live s agent w) by (exists sock; auto).
    apply Hlive in Hl. destruct (agents s !! agent) as [conn|]; [|discriminate].
    injection Hl as ->. rewrite Hsock.
    destruct (is_open (readyState sock)) eqn:E; [reflexivity|].
    rewrite Hopen in E. discriminate.
  - destruct (agents s !! agent) as [conn|]; [|now repeat split].
    destruct (sockets s !! ws conn) as [sock|]; [|now repeat split].
    destruct (is_open (readyState sock)); now repeat split.
Qed.

(** X18: a frame is booked on the agent that authenticated the
    connection it arrives on, whatever agent id the frame itself
    carries: the fleet records of all other agents stay as they are, and
    an approval request is queued in the name of the connection's
    agent. *)
Theorem frames_booked_on_connection_agent (s : Server) (iso : string) (w : nat)
    (msg : Wire.AgentMessage) (sock : Socket) (agent : string) :
  sockets s !! w = Some sock ->
  listener sock = Some agent ->
  let s' := step StringToNumber s (Message iso w msg) in
  (forall other, other <> agent ->
     Fleet.getAgent other (fleet s') = Fleet.getAgent other (fleet s))
  /\ (forall a approval,
        Approvals.heap (approvals s') !! a = Some approval ->
        Approvals.heap (approvals s) !! a = Some approval
        \/ Approvals.agentId approval = agent)
  /\ (forall claimed request,
        readyState sock <> CLOSED ->
        msg = Wire.approval_request claimed request ->
        exists a approval,
          Approvals.getApproval (Wire.request_id request) (approvals s') = Some a
          /\ Approvals.heap (approvals s') !! a = Some approval
          /\ Approvals.agentId approval = agent).
Proof.
  intros Hsock Hlis s'. unfold s'. cbn [step]. rewrite Hsock, Hlis.
  assert (H1 : forall other, other <> agent ->
            Fleet.getAgent other (fleet (handleAgentMessage StringToNumber iso agent msg s))
            = Fleet.getAgent other (fleet s)).
  { intros other Hne. unfold Fleet.getAgent.
    destruct msg; cbn [handleAgentMessage fleet set_fleet set_agents set_approvals];
      try reflexivity;
      unfold Fleet.updateHeartbeat, Fleet.updateAgentStatus, Fleet.recordAction,
        Fleet.recordError; apply FleetProps.update_record_other; congruence. }
  assert (H2 : forall a approval,
            Approvals.heap (approvals (handleAgentMessage StringToNumber iso agent msg s)) !! a
              = Some approval ->
            Approvals.heap (approvals s) !! a = Some approval
            \/ Approvals.agentId approval = agent).
  { intros a approval. destruct msg;
      cbn [handleAgentMessage approvals set_fleet set_agents set_approvals]; try (now left).
    unfold Approvals.addRequest. cbn [snd Approvals.heap]. intros Hheap.
    apply lookup_insert_Some in Hheap as [[_ <-]|[_ Hheap]]; [now right | now left]. }
  split; [|split].
  - intros other Hne. destruct (readyState sock); try reflexivity; now apply H1.
  - intros a approval. destruct (readyState sock); try (now left); apply H2.
  - intros claimed request Hopen ->.
    assert (H3 : exists a approval,
              Approvals.getApproval (Wire.request_id request)
                (approvals (handleAgentMessage StringToNumber iso agent
                              (Wire.approval_request claimed request) s)) = Some a
              /\ Approvals.heap
                   (approvals (handleAgentMessage StringToNumber iso agent
                                 (Wire.approval_request claimed request) s)) !! a
                 = Some approval
              /\ Approvals.agentId approval = agent).
    { cbn [handleAgentMessage approvals set_approvals].
      unfold Approvals.getApproval, Approvals.addRequest.
      cbn [snd Approvals.queue Approvals.heap].
      eexists _, _. split; [apply ApprovalExtras.map_get_set|].
      split; [apply lookup_insert_eq | reflexivity]. }
    destruct (readyState sock); try exact H3. contradiction.
Qed.

End Steps.


Lemma frames_booked_on_connection_agent_witness :
  exists a approval,
    Approvals.getApproval "R1"
      (approvals (step Samples.no_numerals
                    (run Samples.no_numerals Samples.server1
                       [Accept Samples.noon "agent-1" None])
                    (Message Samples.later O
                       (Wire.approval_request "agent-2" Samples.request1)))) = Some a
    /\ Approvals.heap
         (approvals (step Samples.no_numerals
                       (run Samples.no_numerals Samples.server1
                          [Accept Samples.noon "agent-1" None])
                       (Message Samples.later O
                          (Wire.approval_request "agent-2" Samples.request1)))) !! a
       = Some approval
    /\ Approvals.agentId approval = "agent-1".
Proof.
  destruct (sockets (run Samples.no_numerals Samples.server1
                       [Accept Samples.noon "agent-1" None]) !! O) as [sock|] eqn:Hsock;
    [|vm_compute in Hsock; discriminate].
  assert (Hlis : listener sock = Some "agent-1").
  { vm_compute in Hsock. injection Hsock as <-. reflexivity. }
  assert (Hopen : readyState sock <> CLOSED).
  { vm_compute in Hsock. injection Hsock as <-. discriminate. }
  destruct (frames_booked_on_connection_agent Samples.no_numerals _ Samples.later O
              (Wire.approval_request "agent-2" Samples.request1) sock "agent-1" Hsock Hlis)
    as (_ & _ & H3).
  exact (H3 "agent-2" Samples.request1 Hopen eq_refl).
Defined.

End ControlPlaneExtras.

(* ===================================================================== *)
(** * Further properties of the dashboard, the provisioner and the gateway API *)
(* ===================================================================== *)

Module DashboardExtras.
Import Dashboard.



Lemma sendToAgent_online agent msg cp conn sock :
  ControlPlane.agents cp !! agent = Some conn ->
  ControlPlane.sockets cp !! ControlPlane.ws conn = Some sock ->
  ControlPlane.readyState sock = ControlPlane.OPEN ->
  ControlPlane.sendToAgent agent msg cp =
    (true, ControlPlane.set_sockets
             (insert (ControlPlane.ws conn) (ControlPlane.written msg sock)) cp).
Proof.
  intros Hc Hs Ho. unfold ControlPlane.sendToAgent. rewrite Hc, Hs.
  destruct (ControlPlane.is_open (ControlPlane.readyState sock)) eqn:E; [reflexivity|].
  rewrite Ho in E. discriminate.
Qed.


(** X20: the respond route, with the approval manager wired as the
    plugin wires it.  Answering a pending approval of an agent that is
    online writes the answer to the agent's socket twice: once by the
    manager's [onResolved] callback and once more by the route itself.
    The approval is resolved and leaves the queue, and the route answers
    200. *)
Theorem respond_relays_answer_twice (now requestId : string) (ok : bool)
    (reason respondedBy : option string) (deps : DashboardDeps)
    (a : nat) (approval : Approvals.PendingApproval)
    (conn : ControlPlane.ConnectedAgent) (sock : ControlPlane.Socket) :
  let cp := controlPlane deps in
  Approvals.getApproval requestId (ControlPlane.approvals cp) = Some a ->
  Approvals.heap (ControlPlane.approvals cp) !! a = Some approval ->
  Approvals.state approval = Approvals.pending ->
  ControlPlane.agents cp !! Approvals.agentId approval = Some conn ->
  ControlPlane.sockets cp !! ControlPlane.ws conn = Some sock ->
  ControlPlane.readyState sock = ControlPlane.OPEN ->
  let out := post_respond Orchestrator.onResolved now requestId (Some ok) reason
               respondedBy deps in
  out.1 = {| answer_status := 200; answer_body := ApprovalReply a |}
  /\ ControlPlane.sockets (controlPlane out.2) !! ControlPlane.ws conn =
       Some (ControlPlane.written (Wire.approval_response requestId ok reason)
               (ControlPlane.written
                  (Wire.approval_response (Approvals.id approval) ok reason) sock))
  /\ Approvals.getApproval requestId (ControlPlane.approvals (controlPlane out.2)) = None
  /\ Approvals.heap (ControlPlane.approvals (controlPlane out.2)) !! a =
       Some (Approvals.resolved now ok (default "dashboard" respondedBy) reason approval).
Proof.
  intros cp Hget Hheap Hpend Hconn Hsock Hopen out. unfold out, post_respond.
  fold cp. unfold Approvals.resolve. unfold Approvals.getApproval in Hget.
  rewrite Hget, Hheap, Hpend.
  cbn [Approvals.is_pending mbind option_bind Approvals.heap]. rewrite lookup_insert_eq.
  unfold Orchestrator.onResolved, ControlPlane.sendApprovalResponse.
  cbn [Approvals.agentId Approvals.id Approvals.state Approvals.reason Approvals.resolved].
  assert (Hok : Approvals.state_eqb (if ok then Approvals.approved else Approvals.denied)
                  Approvals.approved = ok) by now destruct ok.
  rewrite Hok.
  set (cp0 := ControlPlane.set_approvals _ cp).
  rewrite (sendToAgent_online _ _ cp0 conn sock Hconn Hsock Hopen). cbn [snd].
  set (cp1 := ControlPlane.set_sockets _ cp0).
  rewrite (sendToAgent_online _ _ cp1 conn
             (ControlPlane.written
                (Wire.approval_response (Approvals.id approval) ok reason) sock));
    [| exact Hconn | apply lookup_insert_eq | exact Hopen].
  cbn [fst snd controlPlane with_controlPlane ControlPlane.sockets ControlPlane.approvals
       ControlPlane.set_sockets ControlPlane.set_approvals Approvals.queue Approvals.heap].
  split; [reflexivity|]. split; [apply lookup_insert_eq|].
  split; [apply ApprovalProps.map_get_delete | apply lookup_insert_eq].
Qed.


Lemma respond_relays_answer_twice_witness :
  exists sock,
    ControlPlane.sockets Samples.server_asking !! O = Some sock
    /\ ControlPlane.sockets
         (controlPlane
            (post_respond Orchestrator.onResolved Samples.later "R1" (Some true)
               (Some "fine") None Samples.dashboard_asking).2) !! O
       = Some (ControlPlane.written (Wire.approval_response "R1" true (Some "fine"))
                 (ControlPlane.written (Wire.approval_response "R1" true (Some "fine"))
                    sock)).
Proof.
  destruct (ControlPlane.sockets Samples.server_asking !! O) as [sock|] eqn:Hsock;
    [|vm_compute in Hsock; discriminate].
  destruct (Approvals.heap (ControlPlane.approvals Samples.server_asking) !! O)
    as [approval|] eqn:Hheap; [|vm_compute in Hheap; discriminate].
  destruct (ControlPlane.agents Samples.server_asking !! "agent-1")
    as [conn|] eqn:Hconn; [|vm_compute in Hconn; discriminate].
  assert (Hagent : Approvals.agentId approval = "agent-1").
  { vm_compute in Hheap. injection Hheap as <-. reflexivity. }
  assert (Hid : Approvals.id approval = "R1").
  { vm_compute in Hheap. injection Hheap as <-. reflexivity. }
  assert (Hws : ControlPlane.ws conn = O).
  { vm_compute in Hconn. injection Hconn as <-. reflexivity. }
  destruct (respond_relays_answer_twice Samples.later "R1" true (Some "fine") None
              Samples.dashboard_asking O approval conn sock) as (_ & Hsent & _).
  - reflexivity.
  - exact Hheap.
  - vm_compute in Hheap. injection Hheap as <-. reflexivity.
  - cbn [controlPlane Samples.dashboard_asking]. rewrite Hagent. exact Hconn.
  - cbn [controlPlane Samples.dashboard_asking]. rewrite Hws. exact Hsock.
  - vm_compute in Hsock. injection Hsock as <-. reflexivity.
  - exists sock. split; [reflexivity|]. rewrite Hws, Hid in Hsent. exact Hsent.
Defined.

End DashboardExtras.

Module ProvisionerExtras.
Import Provisioner.

(** X22: destroying an agent's instance twice.  After a destroy that
    succeeded the index no longer holds the agent, so a second destroy
    fails with "No instance found" and changes nothing; the instances of
    all other agents stay indexed throughout.  After a destroy that
    failed the index is as before, so the call can be repeated. *)
Theorem destroy_twice (agentId : string) (s : State) :
  let result := (destroy agentId s).1 in
  let s' := (destroy agentId s).2 in
  (success result = true ->
   instances s' !! agentId = None
   /\ destroy agentId s' =
        ({| success := false;
            destroy_error := Some ("No instance found for agent " +:+ agentId) |}, s'))
  /\ (success result = false -> s' = s)
  /\ (forall other, other <> agentId -> instances s' !! other = instances s !! other)
  /\ providers s' = providers s.
Proof.
  intros result s'. unfold result, s', destroy.
  destruct (instances s !! agentId) as [instance|] eqn:Hi.
  - destruct (getProvider (instance_provider instance) s) as [provider|].
    + destruct (success (provider_destroy provider (instance_id instance))) eqn:Hs;
        cbn [fst snd instances providers].
      * split; [intros _|split; [congruence|split; [|reflexivity]]].
        -- split; [apply lookup_delete_eq|]. now rewrite lookup_delete_eq.
        -- intros other Hne. now apply lookup_delete_ne.
      * split; [congruence|]. split; [reflexivity|]. split; reflexivity.
    + cbn [fst snd success]. split; [discriminate|]. split; [reflexivity|].
      split; reflexivity.
  - cbn [fst snd success]. split; [discriminate|]. split; [reflexivity|].
    split; reflexivity.
Qed.

Section Backends.

Variable provider_create : string -> Schema.MoltAgentManifest -> string -> ProvisionResult.
Variable provider_status : string -> string -> option VpsInstance.
Variable defaultProvider : string.

(** X23: [provision] uses the provider the manifest names, or the
    default one when it names none.  With no such provider registered it
    fails without calling anything and leaves the index alone.
    Otherwise it returns the provider's answer as it is, and indexes the
    instance under the agent id exactly when the answer is a success
    that carries an instance, replacing what was indexed there; the
    entries of all other agents are never touched. *)
Theorem provision_indexes_successes (manifest : Schema.MoltAgentManifest)
    (cloudInit : string) (s : State) :
  let agentId := Schema.identity_id (Schema.identity manifest) in
  let named := Schema.provider (Schema.resources manifest) in
  let chosen := if Js.truthy_str named then named else defaultProvider in
  let result := (provision provider_create defaultProvider manifest cloudInit s).1 in
  let s' := (provision provider_create defaultProvider manifest cloudInit s).2 in
  (getProvider chosen s = None ->
   provision_success result = false /\ provision_instance result = None /\ s' = s)
  /\ (forall provider, getProvider chosen s = Some provider ->
        result = provider_create (provider_name provider) manifest cloudInit
        /\ instances s' !! agentId =
             match provision_success result, provision_instance result with
             | true, Some instance => Some instance
             | _, _ => instances s !! agentId
             end)
  /\ (forall other, other <> agentId -> instances s' !! other = instances s !! other)
  /\ providers s' = providers s.
Proof.
  intros agentId named chosen result s'. unfold result, s', provision.
  fold named. fold chosen. fold agentId.
  destruct (getProvider chosen s) as [provider|]; cbn [fst snd].
  - split; [discriminate|]. split; [|split].
    + intros p [= <-].
      destruct (provider_create (provider_name provider) manifest cloudInit)
        as [[] [instance|] err]; cbn [fst snd provision_success provision_instance instances];
        (split; [reflexivity|]); try reflexivity. apply lookup_insert_eq.
    + intros other Hne.
      destruct (provider_create (provider_name provider) manifest cloudInit)
        as [[] [instance|] err]; cbn [snd provision_success provision_instance instances];
        try reflexivity. now apply lookup_insert_ne.
    + now destruct (provider_create (provider_name provider) manifest cloudInit)
        as [[] [instance|] err].
  - repeat split. discriminate.
Qed.

(** X24: [getStatus] never drops an instance from the index.  It
    answers [null] exactly for an agent that is not indexed; when the
    provider reports the instance, the report is returned and replaces
    the indexed instance; when the provider reports nothing, or is not
    registered, the last known instance is returned and kept. *)
Theorem getStatus_keeps_index (agentId : string) (s : State) :
  let answer := (getStatus provider_status agentId s).1 in
  let s' := (getStatus provider_status agentId s).2 in
  (answer = None <-> instances s !! agentId = None)
  /\ instances s' !! agentId = answer
  /\ (forall other, other <> agentId -> instances s' !! other = instances s !! other)
  /\ (forall instance provider updated,
        instances s !! agentId = Some instance ->
        getProvider (instance_provider instance) s = Some provider ->
        provider_status (provider_name provider) (instance_id instance) = Some updated ->
        answer = Some updated)
  /\ (forall instance,
        instances s !! agentId = Some instance ->
        (forall provider,
           getProvider (instance_provider instance) s = Some provider ->
           provider_status (provider_name provider) (instance_id instance) = None) ->
        answer = Some instance /\ s' = s).
Proof.
  intros answer s'. unfold answer, s', getStatus.
  destruct (instances s !! agentId) as [instance|] eqn:Hi.
  - destruct (getProvider (instance_provider instance) s) as [provider|] eqn:Hp.
    + destruct (provider_status (provider_name provider) (instance_id instance))
        as [updated|] eqn:Hst; cbn [fst snd instances].
      * split; [split; discriminate|]. split; [apply lookup_insert_eq|].
        split; [intros other Hne; now apply lookup_insert_ne|]. split.
        -- intros i p u [= <-] Hp' Hu. rewrite Hp in Hp'. injection Hp' as <-. congruence.
        -- intros i [= <-] Hnone. specialize (Hnone provider Hp). congruence.
      * split; [split; [discriminate | congruence]|]. split; [exact Hi|].
        split; [reflexivity|]. split.
        -- intros i p u [= <-] Hp' Hu. rewrite Hp in Hp'. injection Hp' as <-. congruence.
        -- intros i [= <-] _. split; reflexivity.
    + cbn [fst snd]. split; [split; [discriminate | congruence]|]. split; [exact Hi|].
      split; [reflexivity|]. split.
      * intros i p u [= <-] Hp' _. congruence.
      * intros i [= <-] _. split; reflexivity.
  - cbn [fst snd]. split; [split; reflexivity|]. split; [exact Hi|].
    split; [reflexivity|]. split.
    + intros i p u Hc. discriminate.
    + intros i Hc. discriminate.
Qed.

End Backends.

Lemma destroy_twice_witness :
  success (destroy "agent-1" Samples.provisioner1).1 = true
  /\ success (destroy "agent-1" (destroy "agent-1" Samples.provisioner1).2).1 = false.
Proof.
  split; [reflexivity|].
  destruct (destroy_twice "agent-1" Samples.provisioner1) as (Hok & _).
  destruct (Hok eq_refl) as (_ & Hsecond). rewrite Hsecond. reflexivity.
Defined.

End ProvisionerExtras.

Module ApiExtras.
Import Api.

Lemma replace_agents_prefix agentId :
  Js.replace "/agents/" EmptyString ("/agents/" +:+ agentId) = agentId.
Proof. destruct agentId; reflexivity. Qed.

Lemma startsWith_agents agentId : Js.startsWith ("/agents/" +:+ agentId) "/agents/" = true.
Proof. destruct agentId; reflexivity. Qed.

Section Handler.

Variable provider_status : string -> string -> option Provisioner.VpsInstance.

(** X25: the gateway route [DELETE /agents/:id] answers 200 exactly
    when the provisioner destroyed the instance, and 500 with the
    provisioner's error otherwise (no instance indexed, provider not
    registered, or the provider's call failed); the provisioner is left
    as [destroy] leaves it.  A request without the bearer token is
    answered 401 and changes nothing. *)
Theorem api_delete_reports_failure (req : ApiRequest) (deps : ApiDeps) (agentId : string) :
  method req = "DELETE" ->
  path req = "/agents/" +:+ agentId ->
  let destroyed := Provisioner.destroy agentId (provisioner deps) in
  (checkAuth req (authToken deps) = true ->
   handle provider_status req deps =
     Some (if Provisioner.success destroyed.1
           then {| status := 200; body := OkBody |}
           else {| status := 500; body := ErrorBody (Provisioner.destroy_error destroyed.1) |},
           {| provisioner := destroyed.2; authToken := authToken deps |}))
  /\ (checkAuth req (authToken deps) = false ->
      handle provider_status req deps =
        Some ({| status := 401; body := ErrorBody (Some "Unauthorized") |}, deps)).
Proof.
  intros Hm Hp destroyed. unfold handle. rewrite Hm, Hp. split; intros ->; [|reflexivity].
  cbn [negb]. change (String.eqb "DELETE" "POST") with false. cbn [andb].
  change (String.eqb "DELETE" "DELETE") with true. rewrite startsWith_agents. cbn [andb].
  rewrite replace_agents_prefix. fold destroyed.
  destruct destroyed as [result prov]. cbn [fst snd].
  now destruct (Provisioner.success result).
Qed.

(** X26: the gateway route [GET /agents/:id] answers 404 exactly when
    no instance is indexed for the agent, and otherwise 200 with what
    [getStatus] returns. *)
Theorem api_status_route (req : ApiRequest) (deps : ApiDeps) (agentId : string) :
  method req = "GET" ->
  path req = "/agents/" +:+ agentId ->
  checkAuth req (authToken deps) = true ->
  exists response deps',
    handle provider_status req deps = Some (response, deps')
    /\ provisioner deps' = (Provisioner.getStatus provider_status agentId (provisioner deps)).2
    /\ (status response = 404 <-> Provisioner.instances (provisioner deps) !! agentId = None)
    /\ (forall instance,
          (Provisioner.getStatus provider_status agentId (provisioner deps)).1 = Some instance ->
          response = {| status := 200; body := InstanceBody instance |}).
Proof.
  intros Hm Hp Hauth. unfold handle. rewrite Hm, Hp, Hauth.
  cbn [negb]. change (String.eqb "GET" "POST") with false.
  change (String.eqb "GET" "DELETE") with false. change (String.eqb "GET" "GET") with true.
  cbn [andb].
  assert (Hne : String.eqb ("/agents/" +:+ agentId) "/agents" = false).
  { destruct agentId; reflexivity. }
  rewrite Hne, startsWith_agents, replace_agents_prefix. cbn [andb].
  unfold Provisioner.getStatus.
  destruct (Provisioner.instances (provisioner deps) !! agentId) as [instance|] eqn:Hi.
  - destruct (Provisioner.getProvider _ _) as [provider|];
      [destruct (provider_status _ _) as [updated|]|];
      eexists _, _; (split; [reflexivity|]); cbn [fst snd provisioner status];
      (split; [reflexivity|]); (split; [split; discriminate|]); intros i [= <-]; reflexivity.
  - eexists _, _. split; [reflexivity|]. cbn [fst snd provisioner status].
    split; [reflexivity|]. split; [split; reflexivity|]. intros i Hc. discriminate.
Qed.

End Handler.

Lemma api_delete_reports_failure_witness :
  status <$> (fst <$> handle Samples.status_unknown Samples.api_delete_request
                        {| provisioner := Dashboard.provisioner Samples.dashboard2;
                           authToken := "T" |}) = Some 500.
Proof.
  destruct (api_delete_reports_failure Samples.status_unknown Samples.api_delete_request
              {| provisioner := Dashboard.provisioner Samples.dashboard2; authToken := "T" |}
              "agent-1" eq_refl eq_refl) as [Hok _].
  rewrite (Hok eq_refl). reflexivity.
Defined.

Lemma api_status_route_witness :
  exists response deps',
    handle Samples.status_unknown
      {| method := "GET"; path := "/agents/agent-1";
         headers_authorization := None; headers_Authorization := Some "Bearer T" |}
      {| provisioner := Samples.provisioner1; authToken := "T" |} = Some (response, deps')
    /\ response = {| status := 200; body := InstanceBody Samples.instance1 |}.
Proof.
  destruct (api_status_route Samples.status_unknown
              {| method := "GET"; path := "/agents/agent-1";
                 headers_authorization := None; headers_Authorization := Some "Bearer T" |}
              {| provisioner := Samples.provisioner1; authToken := "T" |}
              "agent-1" eq_refl eq_refl eq_refl)
    as (response & deps' & Hhandle & _ & _ & Hfound).
  exists response, deps'. split; [exact Hhandle|]. apply Hfound. reflexivity.
Defined.

End ApiExtras.

(* ===================================================================== *)
(** * Further properties of the bridge *)
(* ===================================================================== *)

Module BridgeExtras.
Import Bridge BridgeProps.

Lemma grows_refl b : grows b b.
Proof. repeat split; auto. Qed.

Lemma grows_trans b1 b2 b3 : grows b1 b2 -> grows b2 b3 -> grows b1 b3.
Proof.
  intros (N & S & T & P & H) (N' & S' & T' & P' & H').
  split; [lia|]. split; [|split; [|split]].
  - intros n Hn. destruct (S' n Hn) as [Hn'|]; [|now right].
    destruct (S n Hn') as [|]; [now left | right; lia].
  - intros t timer Ht. destruct (T' t timer Ht) as [Ht'|]; [|now right].
    destruct (T t timer Ht') as [|[Hlt Hp]]; [now left|].
    right. split; [lia|]. intros requestId p Ha. specialize (Hp requestId p Ha). lia.
  - intros n Hn. destruct (P' n Hn) as [Hn'|]; [|now right].
    destruct (P n Hn') as [|]; [now left | right; lia].
  - intros k h Hk. destruct (H' k h Hk) as [Hk'|]; [|now right].
    destruct (H k h Hk') as [|]; [now left | right; lia].
Qed.

Lemma numbered_grows b b' : numbered b -> grows b b' -> numbered b'.
Proof.
  intros (N1 & N2 & N3) (N & S & T & P & H). split; [|split].
  - intros n Hn. repeat split.
    + destruct (sockets b' !! n) eqn:E; [|reflexivity].
      destruct (S n) as [[x Hx]|]; [eauto| |lia].
      destruct (N1 n) as (Hs & _); [lia|]. congruence.
    + destruct (timers b' !! n) eqn:E; [|reflexivity].
      destruct (T n _ E) as [Hx|[? _]]; [|lia].
      destruct (N1 n) as (_ & Ht & _); [lia|]. congruence.
    + destruct (promises b' !! n) eqn:E; [|reflexivity].
      destruct (P n) as [[x Hx]|]; [eauto| |lia].
      destruct (N1 n) as (_ & _ & Hp); [lia|]. congruence.
  - intros k h Hk. destruct (H k h Hk) as [Hk'|]; [|assumption].
    specialize (N2 k h Hk'). lia.
  - intros t timer requestId p Ht Ha. destruct (T t timer Ht) as [Ht'|[_ Hp]].
    + specialize (N3 t timer requestId p Ht' Ha). lia.
    + exact (Hp requestId p Ha).
Qed.

Lemma numbered_create agent cp now : numbered (create agent cp now).
Proof.
  split; [|split].
  - intros n _. cbn. now rewrite !lookup_empty.
  - intros k h Hk. cbn in Hk. now rewrite lookup_empty in Hk.
  - intros t timer requestId p Ht. cbn in Ht. now rewrite lookup_empty in Ht.
Qed.

(** Functions that leave the numbered parts alone. *)
Lemma grows_same b b' :
  next b' = next b -> sockets b' = sockets b -> timers b' = timers b ->
  promises b' = promises b -> pendingApprovals b' = pendingApprovals b ->
  grows b b'.
Proof.
  intros Hn Hs Ht Hp Hh. unfold grows. rewrite Hn, Hs, Ht, Hp, Hh.
  repeat split; auto.
Qed.

Lemma grows_callback c b : grows b (callback c b).
Proof. now apply grows_same. Qed.

Lemma grows_set_heartbeatTimer h b : grows b (set_heartbeatTimer h b).
Proof. now apply grows_same. Qed.

Lemma grows_set_reconnectAttempt n b : grows b (set_reconnectAttempt n b).
Proof. now apply grows_same. Qed.

Lemma grows_clear_timer t b : grows b (clear_timer t b).
Proof.
  unfold grows; cbn [clear_timer next sockets timers promises pendingApprovals].
  split; [lia|]. split; [auto|]. split; [|split; auto].
  intros t' timer Ht. apply lookup_delete_Some in Ht as [_ Ht]. now left.
Qed.

Lemma grows_set_timer timer b :
  (forall requestId p, action timer = ApprovalTimeout requestId p -> (p <= next b)%nat) ->
  grows b (set_timer timer b).2.
Proof.
  intros Hp. unfold grows; cbn [set_timer snd next sockets timers promises pendingApprovals].
  split; [lia|]. split; [auto|]. split; [|split; auto].
  intros t' timer' Ht. apply lookup_insert_Some in Ht as [[<- <-]|[_ Ht]]; [|now left].
  right. split; [lia|]. intros requestId p Ha. specialize (Hp requestId p Ha). lia.
Qed.

Lemma grows_delete_pending k b : grows b (set_pendingApprovals (delete k) b).
Proof.
  unfold grows; cbn [set_pendingApprovals next sockets timers promises pendingApprovals].
  split; [lia|]. split; [auto|]. split; [auto|]. split; [auto|].
  intros k' h Hk. apply lookup_delete_Some in Hk as [_ Hk]. now left.
Qed.

Lemma grows_update_socket w sock b :
  is_Some (sockets b !! w) -> grows b (set_sockets (insert w sock) b).
Proof.
  intros Hw. unfold grows; cbn [set_sockets next sockets timers promises pendingApprovals].
  split; [lia|]. split; [|split; [auto|split; auto]].
  intros n Hn. left. destruct (decide (w = n)) as [<-|Hne]; [exact Hw|].
  now rewrite lookup_insert_ne in Hn.
Qed.

Lemma grows_alter_socket w f b : grows b (set_sockets (alter f w) b).
Proof.
  unfold grows; cbn [set_sockets next sockets timers promises pendingApprovals].
  split; [lia|]. split; [|split; [auto|split; auto]].
  intros n Hn. left. destruct (decide (w = n)) as [<-|Hne].
  - rewrite lookup_alter_eq in Hn. now apply fmap_is_Some in Hn.
  - now rewrite lookup_alter_ne in Hn.
Qed.

Lemma grows_settle p v b : (p < next b)%nat -> grows b (settle p v b).
Proof.
  intros Hp. unfold grows; cbn [settle next sockets timers promises pendingApprovals].
  split; [lia|]. split; [auto|]. split; [auto|]. split; [|auto].
  intros n Hn. destruct (promises b !! p); [now left|].
  destruct (decide (p = n)) as [<-|Hne]; [now right|].
  rewrite lookup_insert_ne in Hn by exact Hne. now left.
Qed.

Lemma grows_connect b : grows b (connect b).
Proof.
  unfold connect. destruct (closed b); [apply grows_refl|].
  unfold grows; cbn [next sockets timers promises pendingApprovals].
  split; [lia|]. split; [|split; [auto|split; auto]].
  intros n Hn. destruct (decide (next b = n)) as [<-|Hne]; [right; lia|].
  rewrite lookup_insert_ne in Hn by exact Hne. now left.
Qed.

Lemma grows_send msg b : grows b (send msg b).
Proof.
  unfold send. destruct (ws b) as [w|]; [|apply grows_refl].
  destruct (sockets b !! w) as [sock|] eqn:Hw; [|apply grows_refl].
  destruct (is_open (readyState sock)); [|apply grows_refl].
  apply grows_update_socket. eauto.
Qed.

Lemma grows_stopHeartbeat b : grows b (stopHeartbeat b).
Proof.
  unfold stopHeartbeat. destruct (heartbeatTimer b) as [t|]; [|apply grows_refl].
  eapply grows_trans; [apply grows_clear_timer | apply grows_set_heartbeatTimer].
Qed.

Lemma grows_startHeartbeat b : grows b (startHeartbeat b).
Proof.
  unfold startHeartbeat.
  pose proof (grows_set_timer
    {| delay := Schema.heartbeatIntervalSec (controlPlane b) * 1000; action := Heartbeat |}
    (stopHeartbeat b) ltac:(discriminate)) as H.
  destruct (set_timer _ (stopHeartbeat b)) as [t b1]. cbn [snd] in H.
  eapply grows_trans; [apply grows_stopHeartbeat|].
  eapply grows_trans; [exact H | apply grows_set_heartbeatTimer].
Qed.

Lemma grows_scheduleReconnect b : grows b (scheduleReconnect b).
Proof.
  unfold scheduleReconnect. destruct (closed b); [apply grows_refl|].
  eapply grows_trans; [apply grows_set_reconnectAttempt|].
  apply grows_set_timer. discriminate.
Qed.

Lemma grows_close b : grows b (close b).
Proof.
  unfold close. set (b1 := stopHeartbeat _).
  assert (H1 : grows b b1).
  { eapply grows_trans; [|apply grows_stopHeartbeat]. now apply grows_same. }
  assert (H2 : grows b (match ws b1 with
                        | Some w => set_sockets (alter ws_close w) b1
                        | None => b1 end)).
  { destruct (ws b1); [|exact H1]. eapply grows_trans; [exact H1 | apply grows_alter_socket]. }
  eapply grows_trans; [exact H2|]. now apply grows_same.
Qed.

Lemma grows_requestApproval request b : grows b (requestApproval request b).2.
Proof.
  unfold requestApproval. cbn [set_timer]. cbn [snd].
  eapply grows_trans; [|apply grows_send].
  unfold grows; cbn [set_pendingApprovals next sockets timers promises pendingApprovals].
  split; [lia|]. split; [auto|]. split; [|split; [auto|]].
  - intros t timer Ht. apply lookup_insert_Some in Ht as [[<- <-]|[_ Ht]]; [|now left].
    right. split; [lia|]. intros requestId p [= _ <-]. lia.
  - intros k h Hk. apply lookup_insert_Some in Hk as [[_ <-]|[_ Hk]]; [|now left].
    right. cbn. lia.
Qed.

Lemma grows_cleanup requestId t b : grows b (cleanup requestId t b).
Proof.
  unfold cleanup. eapply grows_trans; [apply grows_clear_timer | apply grows_delete_pending].
Qed.

Lemma grows_handleMessage msg b : numbered b -> grows b (handleMessage msg b).
Proof.
  intros (_ & N2 & _). unfold handleMessage. destruct msg; try apply grows_refl.
  destruct (pendingApprovals b !! requestId) as [h|] eqn:Hh; [|apply grows_refl].
  destruct (String.eqb _ _); [|apply grows_refl].
  eapply grows_trans; [apply grows_cleanup|]. apply grows_settle.
  cbn. exact (N2 _ _ Hh).
Qed.

Lemma grows_step b e : numbered b -> grows b (step b e).
Proof.
  intros Hb. pose proof Hb as (N1 & N2 & N3). destruct e; cbn [step].
  - apply grows_connect.
  - apply grows_close.
  - apply grows_send.
  - apply grows_send.
  - apply grows_send.
  - apply grows_requestApproval.
  - now apply grows_handleMessage.
  - destruct (sockets b !! w) as [sock|] eqn:Hw; [|apply grows_refl].
    destruct (readyState sock); try apply grows_refl.
    eapply grows_trans; [apply grows_update_socket; eauto|].
    unfold on_open.
    eapply grows_trans; [apply grows_set_reconnectAttempt|].
    eapply grows_trans; [apply grows_startHeartbeat | apply grows_callback].
  - destruct (sockets b !! w) as [sock|]; [|apply grows_refl].
    destruct (is_open (readyState sock)); [|apply grows_refl].
    unfold on_message. destruct msg; [apply grows_callback | apply grows_refl].
  - destruct (sockets b !! w) as [sock|] eqn:Hw; [|apply grows_refl].
    assert (H : grows b (on_close code reason
                           (set_sockets (insert w (set_readyState CLOSED sock)) b))).
    { eapply grows_trans; [apply grows_update_socket; eauto|].
      unfold on_close.
      eapply grows_trans; [apply grows_stopHeartbeat|].
      eapply grows_trans; [apply grows_callback | apply grows_scheduleReconnect]. }
    destruct (readyState sock); try exact H. apply grows_refl.
  - destruct (sockets b !! w); [apply grows_callback | apply grows_refl].
  - destruct (timers b !! t) as [timer|] eqn:Ht; [|apply grows_refl].
    destruct (action timer) as [| |requestId p] eqn:Ha.
    + eapply grows_trans; [apply grows_clear_timer | apply grows_connect].
    + apply grows_send.
    + eapply grows_trans; [apply grows_clear_timer|].
      eapply grows_trans; [apply grows_cleanup|]. apply grows_settle.
      cbn. exact (N3 _ _ _ _ Ht Ha).
Qed.

Lemma numbered_run es : forall b, numbered b -> numbered (run b es).
Proof.
  induction es as [|e es IH]; intros b Hb; cbn; [exact Hb|].
  apply IH. eapply numbered_grows; [exact Hb | now apply grows_step].
Qed.

Lemma requestApproval_state request b :
  let p := next b in
  let t := S (next b) in
  let timer := {| delay := 5 * 60 * 1000;
                  action := ApprovalTimeout (Wire.request_id request) p |} in
  let h := {| handler_requestId := Wire.request_id request;
              handler_timeout := t; handler_promise := p |} in
  let b1 := (requestApproval request b).2 in
  (requestApproval request b).1 = p
  /\ pendingApprovals b1 = <[Wire.request_id request := h]> (pendingApprovals b)
  /\ timers b1 = <[t := timer]> (timers b)
  /\ promises b1 = promises b
  /\ next b1 = S (S (next b)).
Proof.
  cbv zeta. unfold requestApproval. cbn [set_timer]. cbn [fst snd].
  set (b2 := set_pendingApprovals _ _).
  assert (H : forall msg, pendingApprovals (send msg b2) = pendingApprovals b2
                          /\ timers (send msg b2) = timers b2
                          /\ promises (send msg b2) = promises b2
                          /\ next (send msg b2) = next b2).
  { intros msg. unfold send. destruct (ws b2); [|now repeat split].
    destruct (sockets b2 !! n); [|now repeat split].
    destruct (is_open (readyState s)); now repeat split. }
  destruct (H (Wire.approval_request (agentId b) request)) as (H1 & H2 & H3 & H4).
  rewrite H1, H2, H3, H4. repeat split.
Qed.

(** X27: an approval that is answered.  In every state the bridge can
    reach, [requestApproval] returns a promise that is not settled yet,
    and the [approval_response] that carries the id of the request
    settles it with the answer given, removes the handler and clears the
    five-minute timeout, so that the timers are those from before the
    request.  A second answer, and the cleared timeout, change nothing
    any more. *)
Theorem approval_answer_settles_promise (agent : string) (cp : Schema.ControlPlane)
    (start : Z) (es : list Event) (request : Wire.ApprovalRequest)
    (ok again : bool) (why why' : option string) (iso : string) (now : Z) :
  let b := run (create agent cp start) es in
  let p := (requestApproval request b).1 in
  let b1 := (requestApproval request b).2 in
  let b2 := handleMessage (Wire.approval_response (Wire.request_id request) ok why) b1 in
  promises b1 !! p = None
  /\ promises b2 !! p = Some ok
  /\ pendingApprovals b2 !! Wire.request_id request = None
  /\ timers b2 = timers b
  /\ handleMessage (Wire.approval_response (Wire.request_id request) again why') b2 = b2
  /\ step b2 (TimerFired (S p) iso now) = b2.
Proof.
  intros b p b1 b2.
  assert (Hb : numbered b) by apply numbered_run, numbered_create.
  destruct Hb as (N1 & _).
  destruct (N1 (next b)) as (_ & _ & Hp); [lia|].
  destruct (N1 (S (next b))) as (_ & Ht & _); [lia|].
  destruct (requestApproval_state request b) as (Ep & Eh & Et & Epr & En).
  fold p in Ep. fold b1 in Eh, Et, Epr, En.
  assert (Hb2 : promises b2 = <[p := ok]> (promises b)
                /\ pendingApprovals b2 = delete (Wire.request_id request) (pendingApprovals b)
                /\ timers b2 = timers b).
  { unfold b2, handleMessage. rewrite Eh, lookup_insert_eq.
    cbn [handler_requestId handler_timeout handler_promise]. rewrite String.eqb_refl.
    unfold settle, cleanup.
    cbn [promises pendingApprovals timers set_pendingApprovals clear_timer].
    rewrite Epr, Eh, Et, Ep, Hp. split; [reflexivity|].
    split; [apply delete_insert_eq | now apply delete_insert_id]. }
  destruct Hb2 as (Epr2 & Eh2 & Et2).
  split; [now rewrite Epr, Ep|]. split; [rewrite Epr2; apply lookup_insert_eq|].
  split; [rewrite Eh2; apply lookup_delete_eq|]. split; [exact Et2|]. split.
  - unfold handleMessage at 1. now rewrite Eh2, lookup_delete_eq.
  - cbn [step]. now rewrite Et2, Ep, Ht.
Qed.

(** X28: an approval that is not answered.  When the five-minute
    timeout of a request fires before any answer has come, the promise
    settles with [false], whether or not the request was ever sent; the
    handler is removed, and an answer that arrives later is dropped
    without changing anything. *)
Theorem approval_timeout_denies (agent : string) (cp : Schema.ControlPlane)
    (start : Z) (es : list Event) (request : Wire.ApprovalRequest)
    (ok : bool) (why : option string) (iso : string) (now : Z) :
  let b := run (create agent cp start) es in
  let p := (requestApproval request b).1 in
  let b1 := (requestApproval request b).2 in
  let b3 := step b1 (TimerFired (S p) iso now) in
  timers b1 !! S p =
    Some {| delay := 300000; action := ApprovalTimeout (Wire.request_id request) p |}
  /\ promises b3 !! p = Some false
  /\ pendingApprovals b3 !! Wire.request_id request = None
  /\ timers b3 = timers b
  /\ handleMessage (Wire.approval_response (Wire.request_id request) ok why) b3 = b3.
Proof.
  intros b p b1 b3.
  assert (Hb : numbered b) by apply numbered_run, numbered_create.
  destruct Hb as (N1 & _).
  destruct (N1 (next b)) as (_ & _ & Hp); [lia|].
  destruct (N1 (S (next b))) as (_ & Ht & _); [lia|].
  destruct (requestApproval_state request b) as (Ep & Eh & Et & Epr & En).
  fold p in Ep. fold b1 in Eh, Et, Epr, En.
  assert (Hb3 : promises b3 = <[p := false]> (promises b)
                /\ pendingApprovals b3 = delete (Wire.request_id request) (pendingApprovals b)
                /\ timers b3 = timers b).
  { unfold b3. cbn [step]. rewrite Et, Ep, lookup_insert_eq. cbn [action].
    unfold settle, cleanup.
    cbn [promises pendingApprovals timers set_pendingApprovals clear_timer].
    rewrite Epr, Eh, Et, Hp. split; [reflexivity|].
    split; [apply delete_insert_eq|].
    rewrite delete_insert_eq. rewrite delete_delete_eq.
    now apply delete_id. }
  destruct Hb3 as (Epr3 & Eh3 & Et3).
  split; [rewrite Et, Ep; apply lookup_insert_eq|].
  split; [rewrite Epr3; apply lookup_insert_eq|].
  split; [rewrite Eh3; apply lookup_delete_eq|]. split; [exact Et3|].
  unfold handleMessage. now rewrite Eh3, lookup_delete_eq.
Qed.

(** Functions that arm no heartbeat and leave [heartbeatTimer] alone. *)
Lemma one_heartbeat_sub b b' :
  heartbeatTimer b' = heartbeatTimer b ->
  controlPlane b' = controlPlane b ->
  (forall t timer, timers b' !! t = Some timer -> action timer = Heartbeat ->
     timers b !! t = Some timer) ->
  one_heartbeat b -> one_heartbeat b'.
Proof.
  intros Hh Hc Ht Hb t timer Hin Ha. rewrite Hh, Hc. apply Hb; [|exact Ha].
  now apply Ht.
Qed.

Lemma one_heartbeat_clear_timer t b : one_heartbeat b -> one_heartbeat (clear_timer t b).
Proof.
  apply one_heartbeat_sub; try reflexivity.
  intros t' timer Hin _. cbn in Hin. now apply lookup_delete_Some in Hin as [_ Hin].
Qed.

Lemma one_heartbeat_set_timer timer b :
  action timer <> Heartbeat -> one_heartbeat b -> one_heartbeat (set_timer timer b).2.
Proof.
  intros Hact. apply one_heartbeat_sub; try reflexivity.
  intros t' timer' Hin Ha. cbn in Hin.
  apply lookup_insert_Some in Hin as [[_ <-]|[_ Hin]]; [contradiction | exact Hin].
Qed.

Lemma one_heartbeat_send msg b : one_heartbeat b -> one_heartbeat (send msg b).
Proof.
  unfold send. destruct (ws b) as [w|]; [|auto].
  destruct (sockets b !! w) as [sock|]; [|auto].
  destruct (is_open (readyState sock)); [|auto].
  apply one_heartbeat_sub; auto.
Qed.

Lemma one_heartbeat_connect b : one_heartbeat b -> one_heartbeat (connect b).
Proof.
  unfold connect. destruct (closed b); [auto|]. apply one_heartbeat_sub; auto.
Qed.

Lemma stopHeartbeat_none b :
  one_heartbeat b ->
  heartbeatTimer (stopHeartbeat b) = None
  /\ controlPlane (stopHeartbeat b) = controlPlane b
  /\ forall t timer, timers (stopHeartbeat b) !! t = Some timer -> action timer <> Heartbeat.
Proof.
  intros Hb. unfold stopHeartbeat. destruct (heartbeatTimer b) as [t0|] eqn:Hh.
  - cbn [heartbeatTimer controlPlane timers set_heartbeatTimer clear_timer].
    split; [reflexivity|]. split; [reflexivity|].
    intros t timer Hin Ha. apply lookup_delete_Some in Hin as [Hne Hin].
    destruct (Hb t timer Hin Ha) as [Heq _]. congruence.
  - split; [exact Hh|]. split; [reflexivity|].
    intros t timer Hin Ha. destruct (Hb t timer Hin Ha) as [Heq _]. congruence.
Qed.

Lemma one_heartbeat_stopHeartbeat b : one_heartbeat b -> one_heartbeat (stopHeartbeat b).
Proof.
  intros Hb t timer Hin Ha. destruct (stopHeartbeat_none b Hb) as (_ & _ & Hnone).
  now destruct (Hnone t timer Hin).
Qed.

Lemma one_heartbeat_startHeartbeat b : one_heartbeat b -> one_heartbeat (startHeartbeat b).
Proof.
  intros Hb. destruct (stopHeartbeat_none b Hb) as (_ & Hc & Hnone).
  unfold startHeartbeat. cbn [set_timer].
  intros t timer Hin Ha.
  cbn [timers heartbeatTimer controlPlane set_heartbeatTimer] in *.
  apply lookup_insert_Some in Hin as [[<- <-]|[_ Hin]].
  - split; [reflexivity|]. cbn [delay]. now rewrite Hc.
  - now destruct (Hnone t timer Hin).
Qed.

Lemma one_heartbeat_scheduleReconnect b :
  one_heartbeat b -> one_heartbeat (scheduleReconnect b).
Proof.
  intros Hb. unfold scheduleReconnect. destruct (closed b); [exact Hb|].
  apply one_heartbeat_set_timer; [discriminate|].
  revert Hb. apply one_heartbeat_sub; auto.
Qed.

Lemma one_heartbeat_close b : one_heartbeat b -> one_heartbeat (close b).
Proof.
  intros Hb. unfold close. set (b1 := stopHeartbeat _).
  assert (H1 : one_heartbeat b1).
  { apply one_heartbeat_stopHeartbeat. revert Hb. apply one_heartbeat_sub; auto. }
  assert (H2 : one_heartbeat (match ws b1 with
                              | Some w => set_sockets (alter ws_close w) b1
                              | None => b1 end)).
  { destruct (ws b1); [|exact H1]. revert H1. apply one_heartbeat_sub; auto. }
  revert H2. apply one_heartbeat_sub; auto.
Qed.

Lemma one_heartbeat_requestApproval request b :
  one_heartbeat b -> one_heartbeat (requestApproval request b).2.
Proof.
  intros Hb. unfold requestApproval. cbn [set_timer]. cbn [snd].
  apply one_heartbeat_send. revert Hb. apply one_heartbeat_sub; try reflexivity.
  intros t timer Hin Ha. cbn in Hin.
  apply lookup_insert_Some in Hin as [[_ <-]|[_ Hin]]; [discriminate | exact Hin].
Qed.

Lemma one_heartbeat_settle_cleanup p v requestId t b :
  one_heartbeat b -> one_heartbeat (settle p v (cleanup requestId t b)).
Proof.
  apply one_heartbeat_sub; try reflexivity.
  intros t' timer Hin _. cbn in Hin. now apply lookup_delete_Some in Hin as [_ Hin].
Qed.

Lemma one_heartbeat_handleMessage msg b :
  one_heartbeat b -> one_heartbeat (handleMessage msg b).
Proof.
  intros Hb. unfold handleMessage. destruct msg; try exact Hb.
  destruct (pendingApprovals b !! requestId) as [h|]; [|exact Hb].
  destruct (String.eqb _ _); [|exact Hb]. now apply one_heartbeat_settle_cleanup.
Qed.

Lemma one_heartbeat_step b e : one_heartbeat b -> one_heartbeat (step b e).
Proof.
  intros Hb. destruct e; cbn [step].
  - now apply one_heartbeat_connect.
  - now apply one_heartbeat_close.
  - now apply one_heartbeat_send.
  - now apply one_heartbeat_send.
  - now apply one_heartbeat_send.
  - now apply one_heartbeat_requestApproval.
  - now apply one_heartbeat_handleMessage.
  - destruct (sockets b !! w) as [sock|]; [|exact Hb].
    destruct (readyState sock); try exact Hb.
    unfold on_open.
    assert (H : one_heartbeat
                  (startHeartbeat
                     (set_reconnectAttempt O
                        (set_sockets (insert w (set_readyState OPEN sock)) b)))).
    { apply one_heartbeat_startHeartbeat. revert Hb. apply one_heartbeat_sub; auto. }
    revert H. apply one_heartbeat_sub; auto.
  - destruct (sockets b !! w) as [sock|]; [|exact Hb].
    destruct (is_open (readyState sock)); [|exact Hb].
    unfold on_message. destruct msg; [|exact Hb]. revert Hb. apply one_heartbeat_sub; auto.
  - destruct (sockets b !! w) as [sock|]; [|exact Hb].
    assert (H : one_heartbeat (on_close code reason
                  (set_sockets (insert w (set_readyState CLOSED sock)) b))).
    { unfold on_close. apply one_heartbeat_scheduleReconnect.
      assert (H : one_heartbeat
                    (stopHeartbeat (set_sockets (insert w (set_readyState CLOSED sock)) b))).
      { apply one_heartbeat_stopHeartbeat. revert Hb. apply one_heartbeat_sub; auto. }
      revert H. apply one_heartbeat_sub; auto. }
    destruct (readyState sock); try exact H. exact Hb.
  - destruct (sockets b !! w); [|exact Hb]. revert Hb. apply one_heartbeat_sub; auto.
  - destruct (timers b !! t) as [timer|]; [|exact Hb].
    destruct (action timer) as [| |requestId p].
    + now apply one_heartbeat_connect, one_heartbeat_clear_timer.
    + now apply one_heartbeat_send.
    + now apply one_heartbeat_settle_cleanup, one_heartbeat_clear_timer.
Qed.

Lemma one_heartbeat_run es : forall b, one_heartbeat b -> one_heartbeat (run b es).
Proof.
  induction es as [|e es IH]; intros b Hb; cbn; [exact Hb|].
  apply IH. now apply one_heartbeat_step.
Qed.

Lemma controlPlane_step b e : controlPlane (step b e) = controlPlane b.
Proof.
  assert (Hsend : forall msg b, controlPlane (send msg b) = controlPlane b).
  { intros msg b'. unfold send. destruct (ws b'); [|reflexivity].
    destruct (sockets b' !! n); [|reflexivity]. now destruct (is_open _). }
  assert (Hstop : forall b, controlPlane (stopHeartbeat b) = controlPlane b).
  { intros b'. unfold stopHeartbeat. now destruct (heartbeatTimer b'). }
  assert (Hconn : forall b, controlPlane (connect b) = controlPlane b).
  { intros b'. unfold connect. now destruct (closed b'). }
  assert (Hsched : forall b, controlPlane (scheduleReconnect b) = controlPlane b).
  { intros b'. unfold scheduleReconnect. now destruct (closed b'). }
  destruct e; cbn [step]; auto.
  - unfold close. cbn [controlPlane]. destruct (ws (stopHeartbeat _));
      cbn [controlPlane set_sockets]; now rewrite Hstop.
  - unfold sendHeartbeat. apply Hsend.
  - unfold sendStatus. apply Hsend.
  - unfold sendAction. apply Hsend.
  - unfold requestApproval. cbn [set_timer]. cbn [snd]. now rewrite Hsend.
  - unfold handleMessage. destruct msg; try reflexivity.
    destruct (pendingApprovals b !! requestId); [|reflexivity]. now destruct (String.eqb _ _).
  - destruct (sockets b !! w) as [sock|]; [|reflexivity].
    destruct (readyState sock); try reflexivity.
    unfold on_open, startHeartbeat. cbn [set_timer controlPlane callback set_heartbeatTimer].
    now rewrite Hstop.
  - destruct (sockets b !! w) as [sock|]; [|reflexivity].
    destruct (is_open _); [|reflexivity]. now destruct msg.
  - destruct (sockets b !! w) as [sock|]; [|reflexivity].
    destruct (readyState sock); try reflexivity;
      unfold on_close; rewrite Hsched; cbn [controlPlane callback]; now rewrite Hstop.
  - now destruct (sockets b !! w).
  - destruct (timers b !! t) as [timer|]; [|reflexivity].
    destruct (action timer); [now rewrite Hconn | apply Hsend | reflexivity].
Qed.

Lemma controlPlane_run es : forall b, controlPlane (run b es) = controlPlane b.
Proof.
  induction es as [|e es IH]; intros b; cbn; [reflexivity|].
  change (fold_left step es (step b e)) with (run (step b e) es).
  now rewrite IH, controlPlane_step.
Qed.

(** X29: the bridge never has two heartbeat intervals armed.  In every
    state it can reach, a pending heartbeat timer is the one kept in
    [heartbeatTimer], and its period is the [heartbeatIntervalSec] of
    the manifest's control plane, in milliseconds. *)
Theorem at_most_one_heartbeat (agent : string) (cp : Schema.ControlPlane) (start : Z)
    (es : list Event) (t t' : nat) (timer timer' : Timer) :
  let b := run (create agent cp start) es in
  timers b !! t = Some timer -> action timer = Heartbeat ->
  timers b !! t' = Some timer' -> action timer' = Heartbeat ->
  t = t' /\ heartbeatTimer b = Some t
  /\ delay timer = Schema.heartbeatIntervalSec cp * 1000.
Proof.
  intros b Ht Ha Ht' Ha'.
  assert (Hb : one_heartbeat b).
  { apply one_heartbeat_run. intros n x Hn. cbn in Hn. now rewrite lookup_empty in Hn. }
  destruct (Hb t timer Ht Ha) as [Hh Hd]. destruct (Hb t' timer' Ht' Ha') as [Hh' _].
  split; [congruence|]. split; [exact Hh|].
  rewrite Hd. unfold b. now rewrite controlPlane_run.
Qed.

Lemma at_most_one_heartbeat_witness :
  exists timer,
    timers Samples.bridge_open !! 1%nat = Some timer
    /\ action timer = Heartbeat
    /\ heartbeatTimer Samples.bridge_open = Some 1%nat
    /\ delay timer = 30000.
Proof.
  destruct (timers Samples.bridge_open !! 1%nat) as [timer|] eqn:Ht;
    [|vm_compute in Ht; discriminate].
  assert (Ha : action timer = Heartbeat).
  { vm_compute in Ht. injection Ht as <-. reflexivity. }
  destruct (at_most_one_heartbeat "agent-1" (Schema.controlPlane Samples.manifest1) 0
              [CallConnect; SocketOpen O] 1 1 timer timer Ht Ha Ht Ha) as (_ & Hh & Hd).
  exists timer. split; [reflexivity|]. split; [exact Ha|]. split; [exact Hh | exact Hd].
Defined.

End BridgeExtras.

(* ===================================================================== *)
(** * The plugin table of the LobeHub integration *)
(* ===================================================================== *)

Module LobeHubExtras.
Import LobeHub.

Lemma skill_eqb_eq x y : skill_eqb x y = true <-> x = y.
Proof.
  destruct x, y; cbn; rewrite ?String.eqb_eq; split; try discriminate; congruence.
Qed.

Lemma existsb_skill x l : existsb (skill_eqb x) l = true <-> x ∈ l.
Proof.
  rewrite existsb_exists. split.
  - intros (y & Hin & Heq). apply skill_eqb_eq in Heq as ->. now apply list_elem_of_In.
  - intros Hin. exists x. split; [now apply list_elem_of_In | now apply skill_eqb_eq].
Qed.

Lemma set_add_elem x y l : y ∈ set_add x l <-> y = x \/ y ∈ l.
Proof.
  unfold set_add. destruct (existsb (skill_eqb x) l) eqn:E.
  - apply existsb_skill in E. split; [now right|]. now intros [->|].
  - rewrite elem_of_app, list_elem_of_singleton. tauto.
Qed.

Lemma set_add_NoDup x l : NoDup l -> NoDup (set_add x l).
Proof.
  intros Hnd. unfold set_add. destruct (existsb (skill_eqb x) l) eqn:E; [exact Hnd|].
  apply NoDup_app. split; [exact Hnd|]. split; [|apply NoDup_singleton].
  intros y Hy Hx. apply list_elem_of_singleton in Hx as ->.
  apply existsb_skill in Hy. congruence.
Qed.

Section Lookup.

Variable inherited : string -> bool.

Lemma fold_skills plugins : forall acc,
  NoDup acc ->
  let result :=
    fold_left (fun skills plugin =>
                 match pluginToSkill inherited plugin with
                 | Some skill => set_add skill skills
                 | None => skills
                 end) plugins acc in
  NoDup result
  /\ (forall x, x ∈ result <->
        x ∈ acc \/ exists plugin, plugin ∈ plugins /\ pluginToSkill inherited plugin = Some x)
  /\ exists more, result = acc ++ more.
Proof.
  induction plugins as [|plugin plugins IH]; intros acc Hnd; cbn.
  - split; [exact Hnd|]. split.
    + intros x. split; [now left|]. intros [H|(p & Hp & _)]; [exact H|].
      now apply elem_of_nil in Hp.
    + exists []. now rewrite app_nil_r.
  - destruct (pluginToSkill inherited plugin) as [skill|] eqn:Hs.
    + destruct (IH (set_add skill acc) (set_add_NoDup _ _ Hnd)) as (H1 & H2 & more & H3).
      split; [exact H1|]. split.
      * intros x. rewrite H2, set_add_elem. split.
        -- intros [[->|H]|(p & Hp & Hx)]; [right|now left|right].
           ++ exists plugin. split; [apply elem_of_cons; now left | exact Hs].
           ++ exists p. split; [apply elem_of_cons; now right | exact Hx].
        -- intros [H|(p & Hp & Hx)]; [left; now right|].
           apply elem_of_cons in Hp as [->|Hp].
           ++ left. left. congruence.
           ++ right. eauto.
      * rewrite H3. unfold set_add. destruct (existsb _ acc); [eauto|].
        exists ([skill] ++ more). now rewrite app_assoc.
    + destruct (IH acc Hnd) as (H1 & H2 & H3). split; [exact H1|]. split; [|exact H3].
      intros x. rewrite H2. split.
      * intros [H|(p & Hp & Hx)]; [now left|]. right. exists p.
        split; [apply elem_of_cons; now right | exact Hx].
      * intros [H|(p & Hp & Hx)]; [now left|].
        apply elem_of_cons in Hp as [->|Hp]; [congruence|]. right. eauto.
Qed.

Lemma pluginToSkill_own_range plugin skill :
  pluginToSkill_own plugin = Some skill ->
  skill ∈ ["coding-agent"; "github"; "openai-image-gen"; "weather"].
Proof.
  unfold pluginToSkill_own.
  repeat (destruct (String.eqb plugin _);
          [intros [= <-]; repeat (first [apply list_elem_of_here | apply list_elem_of_further])|]).
  discriminate.
Qed.

(** X30: [mapPluginsToSkills] returns every skill once, however many
    plugins map to it: a skill name is in the result exactly when the
    table maps one of the plugins to it, so only the four names
    [coding-agent], [github], [openai-image-gen] and [weather] can
    appear, and a plugin the table does not know adds nothing.  The one
    exception comes from the table being a plain object: a plugin named
    like a member of [Object.prototype] puts that member, which is not a
    string, into the result. *)
Theorem mapPluginsToSkills_distinct_known_skills (plugins : list string) :
  let result := mapPluginsToSkills inherited plugins in
  NoDup result
  /\ (forall skill, Named skill ∈ result <->
        exists plugin, plugin ∈ plugins /\ pluginToSkill_own plugin = Some skill)
  /\ (forall skill, Named skill ∈ result ->
        skill ∈ ["coding-agent"; "github"; "openai-image-gen"; "weather"])
  /\ (forall name, Foreign name ∈ result <->
        name ∈ plugins /\ pluginToSkill_own name = None /\ inherited name = true)
  /\ (Forall (fun plugin => inherited plugin = false) plugins -> (length result <= 4)%nat).
Proof.
  intros result.
  destruct (fold_skills plugins [] (NoDup_nil_2)) as (Hnd & Helem & _).
  fold (mapPluginsToSkills inherited plugins) in Hnd, Helem. fold result in Hnd, Helem.
  assert (Hnamed : forall skill, Named skill ∈ result <->
            exists plugin, plugin ∈ plugins /\ pluginToSkill_own plugin = Some skill).
  { intros skill. rewrite Helem. split.
    - intros [H|(p & Hp & Hx)]; [now apply elem_of_nil in H|].
      exists p. split; [exact Hp|]. unfold pluginToSkill in Hx.
      destruct (pluginToSkill_own p); [congruence|].
      destruct (inherited p); discriminate.
    - intros (p & Hp & Hx). right. exists p. split; [exact Hp|].
      unfold pluginToSkill. now rewrite Hx. }
  assert (Hrange : forall skill, Named skill ∈ result ->
            skill ∈ ["coding-agent"; "github"; "openai-image-gen"; "weather"]).
  { intros skill Hin. apply Hnamed in Hin as (p & _ & Hx).
    exact (pluginToSkill_own_range p skill Hx). }
  assert (Hforeign : forall name, Foreign name ∈ result <->
            name ∈ plugins /\ pluginToSkill_own name = None /\ inherited name = true).
  { intros name. rewrite Helem. split.
    - intros [H|(p & Hp & Hx)]; [now apply elem_of_nil in H|].
      unfold pluginToSkill in Hx. destruct (pluginToSkill_own p) eqn:Ho; [discriminate|].
      destruct (inherited p) eqn:Hi; [|discriminate]. injection Hx as ->. auto.
    - intros (Hp & Ho & Hi). right. exists name. split; [exact Hp|].
      unfold pluginToSkill. now rewrite Ho, Hi. }
  split; [exact Hnd|]. split; [exact Hnamed|]. split; [exact Hrange|].
  split; [exact Hforeign|].
  intros Hplain.
  assert (Hsub : result ⊆ Named <$> ["coding-agent"; "github"; "openai-image-gen"; "weather"]).
  { intros x Hx. destruct x as [skill|name].
    - apply list_elem_of_fmap. exists skill. split; [reflexivity | now apply Hrange].
    - apply Hforeign in Hx as (Hp & _ & Hi).
      rewrite Forall_forall in Hplain. rewrite (Hplain name Hp) in Hi. discriminate. }
  change 4%nat with (length (Named <$> ["coding-agent"; "github"; "openai-image-gen"; "weather"])).
  apply submseteq_length. now apply NoDup_submseteq.
Qed.

End Lookup.

End LobeHubExtras.
